(** * Verification of [scripts/verify.py]

    A shallow embedding of the problem-package verifier: the JSON loader with
    its duplicate-key hook, the problem, subtask and solution verifiers, and
    the diagnostics they accumulate in the two global lists [errors] and
    [warnings].

    Python values that [json.load] can produce are the inductive type
    [value]; a [dict] is an association list in insertion order (iteration
    order is observable through the order of the diagnostics).  The globals
    [errors], [warnings] and [namespace] are threaded as an explicit
    [state]; an exception that the script does not catch is the outcome
    [Raise] ([OutOfModel] is not a Python exception: it marks a run that
    leaves the fragment of [str.format] that is modelled).  Python 3 semantics is assumed throughout ([bool] is a subclass
    of [int], [dict] keeps insertion order). *)

From Stdlib Require Import String Ascii List ZArith Lia Bool Arith.
From Stdlib Require Import DecimalString Decimal DecimalPos DecimalZ.
From Stdlib Require Import Floats.SpecFloat.
Import ListNotations.
Local Open Scope string_scope.
Local Open Scope list_scope.

(** ** Python values *)

#[local] Unset Elimination Schemes.
Inductive value : Type :=
| VNone
| VBool (b : bool)
| VInt (z : Z)
| VFloat (f : spec_float)
| VStr (s : string)
| VList (l : list value)
| VDict (d : list (string * value)).
#[local] Set Elimination Schemes.

(** Induction principle that goes through the nested lists. *)
Section ValueInd.
Variable P : value -> Prop.
Hypothesis HNone : P VNone.
Hypothesis HBool : forall b, P (VBool b).
Hypothesis HInt : forall z, P (VInt z).
Hypothesis HFloat : forall f, P (VFloat f).
Hypothesis HStr : forall s, P (VStr s).
Hypothesis HList : forall l, Forall P l -> P (VList l).
Hypothesis HDict : forall d, Forall (fun kv => P (snd kv)) d -> P (VDict d).

Fixpoint value_rect' (v : value) : P v :=
  match v with
  | VNone => HNone
  | VBool b => HBool b
  | VInt z => HInt z
  | VFloat f => HFloat f
  | VStr s => HStr s
  | VList l =>
      HList l ((fix go (l : list value) : Forall P l :=
                  match l with
                  | [] => Forall_nil P
                  | x :: xs => Forall_cons x (value_rect' x) (go xs)
                  end) l)
  | VDict d =>
      HDict d ((fix go (d : list (string * value))
                  : Forall (fun kv => P (snd kv)) d :=
                  match d with
                  | [] => Forall_nil _
                  | kv :: xs =>
                      Forall_cons kv (value_rect' (snd kv)) (go xs)
                  end) d)
  end.
End ValueInd.

(** ** Exceptions, global state and the verifier monad *)

Inductive exn : Type :=
| KeyError (arg : option string)
| TypeError
| AttributeError
| IndexError
| ValueError
| OSError
| CalledProcessError
| OutOfModel.

Record state : Type := mkState {
  errors : list string;
  warnings : list string;
  namespace : string
}.

Inductive outcome (A : Type) : Type :=
| Ret (a : A)
| Raise (e : exn).
Arguments Ret {A} a.
Arguments Raise {A} e.

Definition M (A : Type) : Type := state -> outcome A * state.

Definition ret {A} (a : A) : M A := fun st => (Ret a, st).

Definition bind {A B} (m : M A) (f : A -> M B) : M B :=
  fun st =>
    match m st with
    | (Ret a, st1) => f a st1
    | (Raise e, st1) => (Raise e, st1)
    end.

Definition raise {A} (e : exn) : M A := fun st => (Raise e, st).

(** [lift] injects a pure computation that may raise. *)
Definition lift {A} (o : outcome A) : M A := fun st => (o, st).

Declare Scope verify_scope.
Delimit Scope verify_scope with verify.
Notation "x <- m ;; k" := (bind m (fun x => k))
  (at level 61, m at next level, right associativity) : verify_scope.
Notation "m ;;; k" := (bind m (fun _ => k))
  (at level 61, right associativity) : verify_scope.
Local Open Scope verify_scope.

(** [try: ... except KeyError: ...] *)
Definition is_KeyError (e : exn) : bool :=
  match e with KeyError _ => true | _ => false end.

Definition try_KeyError {A} (m : M A) (handler : option string -> M A) : M A :=
  fun st =>
    match m st with
    | (Raise (KeyError a), st1) => handler a st1
    | r => r
    end.

(** Body executed once per element, in order ([for x in l: ...]). *)
Fixpoint for_each {A} (l : list A) (body : A -> M unit) : M unit :=
  match l with
  | [] => ret tt
  | x :: xs => body x ;;; for_each xs body
  end.

Definition error_line (ns description : string) : string :=
  "ERROR: " ++ ns ++ " - " ++ description.

Definition warning_line (ns description : string) : string :=
  "WARNING: " ++ ns ++ " - " ++ description.

Definition error (description : string) : M unit :=
  fun st =>
    (Ret tt,
     mkState (errors st ++ [error_line (namespace st) description])
             (warnings st) (namespace st)).

Definition warning (description : string) : M unit :=
  fun st =>
    (Ret tt,
     mkState (errors st)
             (warnings st ++ [warning_line (namespace st) description])
             (namespace st)).

(** ** Python container operations on loaded values *)

Definition str_contains (sub s : string) : bool :=
  match index 0 sub s with Some _ => true | None => false end.

Fixpoint dict_get (key : string) (d : list (string * value)) : option value :=
  match d with
  | [] => None
  | (k, v) :: rest => if String.eqb k key then Some v else dict_get key rest
  end.

Definition dict_mem (key : string) (d : list (string * value)) : bool :=
  match dict_get key d with Some _ => true | None => false end.

(** [key in data] for a string [key]: membership in the keys of a dict, in
    the elements of a list, substring test on a string; the other JSON
    values are not iterable. *)
Definition str_in (key : string) (data : value) : outcome bool :=
  match data with
  | VDict d => Ret (dict_mem key d)
  | VList l =>
      Ret (existsb (fun x => match x with
                             | VStr s => String.eqb s key
                             | _ => false
                             end) l)
  | VStr s => Ret (str_contains key s)
  | _ => Raise TypeError
  end.

(** [data[key]] for a string [key]. *)
Definition getitem (data : value) (key : string) : outcome value :=
  match data with
  | VDict d =>
      match dict_get key d with
      | Some v => Ret v
      | None => Raise (KeyError (Some key))
      end
  | _ => Raise TypeError
  end.

(** ** [check_keys] *)

Definition truthy_name (json_name : option string) : option string :=
  match json_name with
  | Some n => if String.eqb n EmptyString then None else Some n
  | None => None
  end.

Definition required_in_error (key json_name : string) : string :=
  key ++ " is required in " ++ json_name.

Definition required_error (key : string) : string := key ++ " is required".

Fixpoint check_keys_loop (data : value) (required_keys : list string)
    (json_name : option string) (key_not_found : bool) : M bool :=
  match required_keys with
  | [] => ret key_not_found
  | key :: rest =>
      present <- lift (str_in key data) ;;
      if present then check_keys_loop data rest json_name key_not_found
      else
        match truthy_name json_name with
        | Some n => error (required_in_error key n)
        | None => error (required_error key)
        end ;;;
        check_keys_loop data rest json_name true
  end.

Definition check_keys (data : value) (required_keys : list string)
    (json_name : option string) : M unit :=
  key_not_found <- check_keys_loop data required_keys json_name false ;;
  if key_not_found then raise (KeyError None) else ret tt.

(** ** [error_on_duplicate_keys] and [json.load] *)

Fixpoint error_on_duplicate_keys_loop (ordered_pairs data : list (string * value))
    : M (list (string * value)) :=
  match ordered_pairs with
  | [] => ret data
  | (key, v) :: rest =>
      if dict_mem key data then
        error ("duplicate key: " ++ key) ;;;
        error_on_duplicate_keys_loop rest data
      else error_on_duplicate_keys_loop rest (data ++ [(key, v)])
  end.

Definition error_on_duplicate_keys (ordered_pairs : list (string * value))
    : M value :=
  data <- error_on_duplicate_keys_loop ordered_pairs [] ;;
  ret (VDict data).

(** The decoder calls the hook when an object is closed, so the hook runs on
    the pairs of an object after the hooks of the objects nested in it. The
    argument is the document as written: a [VDict] here lists the pairs in
    encounter order, repeated keys included. *)
Fixpoint json_load (raw : value) : M value :=
  match raw with
  | VList l =>
      l' <- (fix elements (l : list value) : M (list value) :=
               match l with
               | [] => ret []
               | x :: xs =>
                   x' <- json_load x ;;
                   xs' <- elements xs ;;
                   ret (x' :: xs')
               end) l ;;
      ret (VList l')
  | VDict d =>
      pairs <- (fix members (d : list (string * value))
                  : M (list (string * value)) :=
                  match d with
                  | [] => ret []
                  | (k, x) :: xs =>
                      x' <- json_load x ;;
                      xs' <- members xs ;;
                      ret ((k, x') :: xs')
                  end) d ;;
      error_on_duplicate_keys pairs
  | v => ret v
  end.

(** What [open] and the decoder make of a path: no such file, a text the
    decoder rejects (after it has closed the objects [closed], in that
    order), or a well-formed document. *)
Inductive file : Type :=
| Missing
| Invalid (closed : list value)
| Document (raw : value).

(** [load_data] returns the loaded value, or [None] (here [VNone]) after a
    failure; a document that is the literal [null] also loads as [None]. *)
Definition load_data (json_file : file) (required_keys : list string)
    : M value :=
  match json_file with
  | Missing => error "file does not exists" ;;; ret VNone
  | Invalid closed =>
      for_each closed (fun raw => json_load raw ;;; ret tt) ;;;
      error "invalid json" ;;;
      ret VNone
  | Document raw =>
      data <- json_load raw ;;
      try_KeyError
        (check_keys data required_keys None ;;; ret data)
        (fun _ => ret VNone)
  end.

Definition init (ns : string) : state := mkState [] [] ns.

(** ** The loader as a pure function

    [parsed raw] is the value the decoder returns for the document [raw];
    [duplicate_errors raw] lists the descriptions the hook records, in
    order. *)

Fixpoint dedup_pairs (ordered_pairs data : list (string * value))
    : list (string * value) :=
  match ordered_pairs with
  | [] => data
  | (key, v) :: rest =>
      if dict_mem key data then dedup_pairs rest data
      else dedup_pairs rest (data ++ [(key, v)])
  end.

Fixpoint repeated_keys (ordered_pairs data : list (string * value))
    : list string :=
  match ordered_pairs with
  | [] => []
  | (key, v) :: rest =>
      if dict_mem key data then key :: repeated_keys rest data
      else repeated_keys rest (data ++ [(key, v)])
  end.

Fixpoint parsed (raw : value) : value :=
  match raw with
  | VList l => VList (map parsed l)
  | VDict d =>
      VDict (dedup_pairs (map (fun kv => (fst kv, parsed (snd kv))) d) [])
  | v => v
  end.

Definition duplicate_key_error (key : string) : string :=
  "duplicate key: " ++ key.

Fixpoint duplicate_errors (raw : value) : list string :=
  match raw with
  | VList l => flat_map duplicate_errors l
  | VDict d =>
      flat_map (fun kv => duplicate_errors (snd kv)) d ++
      map duplicate_key_error
        (repeated_keys (map (fun kv => (fst kv, parsed (snd kv))) d) [])
  | _ => []
  end.

(** A document has a duplicate key when some object in it, at any depth,
    writes one key twice. *)
Fixpoint keys_distinct (keys : list string) : bool :=
  match keys with
  | [] => true
  | k :: rest => negb (existsb (String.eqb k) rest) && keys_distinct rest
  end.

Fixpoint has_duplicate_key (raw : value) : bool :=
  match raw with
  | VList l => existsb has_duplicate_key l
  | VDict d =>
      negb (keys_distinct (map fst d)) ||
      existsb (fun kv => has_duplicate_key (snd kv)) d
  | _ => false
  end.

(** ** States that differ by appended diagnostics *)

Definition add_errors (st : state) (descriptions : list string) : state :=
  mkState (errors st ++ map (error_line (namespace st)) descriptions)
          (warnings st) (namespace st).


(** ** Strings

    Characters are [ascii]; the text the verifier handles (keys, file names,
    command lines) is taken to be ASCII. *)

Definition rev_string (s : string) : string :=
  string_of_list_ascii (List.rev (list_ascii_of_string s)).

(** Whitespace of [str.strip()], ASCII part: tab to carriage return, the
    four separators 28..31 and the space. *)
Definition is_space (c : ascii) : bool :=
  let n := nat_of_ascii c in
  ((9 <=? n)%nat && (n <=? 13)%nat)
  || ((28 <=? n)%nat && (n <=? 31)%nat) || (n =? 32)%nat.

(** Whitespace of [bytes.strip()]. *)
Definition is_space_bytes (c : ascii) : bool :=
  let n := nat_of_ascii c in
  ((9 <=? n)%nat && (n <=? 13)%nat) || (n =? 32)%nat.

Fixpoint lstrip_with (sp : ascii -> bool) (s : string) : string :=
  match s with
  | EmptyString => EmptyString
  | String c rest => if sp c then lstrip_with sp rest else s
  end.

Definition strip_with (sp : ascii -> bool) (s : string) : string :=
  rev_string (lstrip_with sp (rev_string (lstrip_with sp s))).

Definition strip : string -> string := strip_with is_space.
Definition bytes_strip : string -> string := strip_with is_space_bytes.

(** [s.replace(c, '')] for a one-character [c]. *)
Fixpoint remove_char (c : ascii) (s : string) : string :=
  match s with
  | EmptyString => EmptyString
  | String a rest =>
      if Ascii.eqb a c then remove_char c rest
      else String a (remove_char c rest)
  end.

(** [s[:-4]] *)
Definition drop_last4 (s : string) : string :=
  substring 0 (String.length s - 4) s.

(** [s.split(' ')[0]] *)
Fixpoint first_token (s : string) : string :=
  match s with
  | EmptyString => EmptyString
  | String c rest =>
      if Ascii.eqb c " "%char then EmptyString else String c (first_token rest)
  end.

Definition ends_with (ending s : string) : bool :=
  prefix (rev_string ending) (rev_string s).

Fixpoint join (sep : string) (l : list string) : string :=
  match l with
  | [] => EmptyString
  | [x] => x
  | x :: rest => x ++ sep ++ join sep rest
  end.

(** ['{}'.format(n)] for an [int]. *)
Definition str_of_int (z : Z) : string := NilZero.string_of_int (Z.to_int z).

(** ** Module constants *)

Definition valid_problem_types : list string :=
  ["Batch"; "Communication"; "OutputOnly"; "TwoSteps"].

Definition model_solution_verdict : string := "model_solution".

Definition valid_verdicts : list string :=
  [model_solution_verdict; "correct"; "time_limit"; "memory_limit";
   "incorrect"; "runtime_error"; "failed"; "time_limit_and_runtime_error";
   "partially_correct"].

Definition necessary_files : list string :=
  ["checker/testlib.h"; "checker/Makefile"; "checker/checker.cpp";
   "validator/testlib.h"; "validator/Makefile";
   "gen/testlib.h"; "gen/Makefile"; "gen/data"].

Definition java_enabled : bool := true.
Definition pascal_enabled : bool := false.

Definition grader_necessary_files (PROBLEM_NAME : string) : list string :=
  [("grader/cpp/" ++ PROBLEM_NAME ++ ".h")%string; "grader/cpp/grader.cpp"]
  ++ (if java_enabled then ["grader/java/grader.java"] else [])
  ++ (if pascal_enabled then ["grader/pas/grader.pas"] else []).

Definition manager_necessary_files : list string :=
  ["grader/Makefile"; "grader/manager.cpp"].

(** ** The package on disk and the environment

    Everything the script reads from outside: the three JSON files, the
    statement (its lines, [None] when [open] raises [IOError]), the
    directory listings ([None] when [os.listdir] raises), the standard
    output of the git command ([None] when it exits with a failure), the
    files that exist, and the environment variables. *)
Record world : Type := mkWorld {
  problem_json : file;
  subtasks_json : file;
  solutions_json : file;
  statement : option (list string);
  validator_dir : option (list string);
  solution_dir : option (list string);
  git_basename : option string;
  isfile : string -> bool;
  PROBLEM_NAME : string;
  HAS_GRADER : option string;
  HAS_MANAGER : option string;
  WEB_TERMINAL : option string
}.

(** An environment variable is set to the string [true]. *)
Definition env_true (v : option string) : bool :=
  match v with Some "true" => true | _ => false end.

Definition is_ignored (file_name : string) : bool :=
  existsb (fun ending => ends_with ending file_name) [".exe"; ".class"; "~"].

Definition get_list_of_files (directory : option (list string))
    : outcome (list string) :=
  match directory with
  | Some listing => Ret (filter (fun f => negb (is_ignored f)) listing)
  | None => Raise OSError
  end.

(** ** Type tests and comparisons *)

Definition is_str (v : value) : bool :=
  match v with VStr _ => true | _ => false end.

Definition is_bool (v : value) : bool :=
  match v with VBool _ => true | _ => false end.

Definition is_dict (v : value) : bool :=
  match v with VDict _ => true | _ => false end.

Definition is_list (v : value) : bool :=
  match v with VList _ => true | _ => false end.

Definition is_None (v : value) : bool :=
  match v with VNone => true | _ => false end.

(** [isinstance(v, int)] holds of the integers and, [bool] being a subclass
    of [int], of [True] and [False], which then count as 1 and 0. *)
Definition as_int (v : value) : option Z :=
  match v with
  | VInt z => Some z
  | VBool b => Some (if b then 1%Z else 0%Z)
  | _ => None
  end.

(** [isinstance(v, float)] *)
Definition as_float (v : value) : option spec_float :=
  match v with VFloat f => Some f | _ => None end.

(** [v == s] for a string literal [s]. *)
Definition eq_str (v : value) (s : string) : bool :=
  match v with VStr t => String.eqb t s | _ => false end.

(** [v is True], [v is False] *)
Definition is_True (v : value) : bool :=
  match v with VBool true => true | _ => false end.
Definition is_False (v : value) : bool :=
  match v with VBool false => true | _ => false end.

(** The double 0.5, that is 2^52 * 2^-53. *)
Definition one_half : spec_float := S754_finite false 4503599627370496 (-53).

(** ** [verify_problem] *)

Section Verifier.

(** Python's [str()] of a loaded value, used where the script formats a
    value that need not be a string. *)
Variable py_str : value -> string.

Definition format_value (v : value) : string :=
  match v with VStr s => s | _ => py_str v end.

Definition check_git_name (w : world) (name : value) : M unit :=
  match git_basename w with
  | None => raise CalledProcessError
  | Some out =>
      let git_origin_name := drop_last4 (bytes_strip out) in
      if eq_str name git_origin_name then ret tt
      else warning "problem name and git project name are not the same"
  end.

Definition check_statement (w : world) (title : value) : M unit :=
  match statement w with
  | None => warning "statement does not exists"
  | Some lines =>
      match find (fun line => negb (String.eqb (strip line) EmptyString)) lines with
      | None => warning "statement is empty"
      | Some first_line =>
          if negb (prefix "#" (strip first_line)) then
            warning "statement does not start with a title"
          else
            let statement_title := strip (remove_char "#" first_line) in
            if eq_str title statement_title then ret tt
            else warning ("title (" ++ format_value title ++
                          ") does not match title in statement (" ++
                          statement_title ++ ")")
      end
  end.

Definition time_limit_error : string :=
  "time_limit should be a number greater or equal to 0.5".

Definition memory_limit_error : string :=
  "memory_limit should be an integer that is a power of two".

Definition check_time_limit (time_limit : value) : M unit :=
  match as_float time_limit with
  | Some f => if SFltb f one_half then error time_limit_error else ret tt
  | None => error time_limit_error
  end.

Definition check_memory_limit (memory : value) : M unit :=
  match as_int memory with
  | Some m =>
      if (m <? 1)%Z || negb (Z.land m (m - 1) =? 0)%Z
      then error memory_limit_error
      else ret tt
  | None => error memory_limit_error
  end.

Definition verify_problem (w : world) : M value :=
  problem <- load_data (problem_json w)
               ["name"; "title"; "type"; "time_limit"; "memory_limit"] ;;
  if is_None problem then ret problem else
  name <- lift (getitem problem "name") ;;
  (if negb (is_str name) then error "name is not a string"
   else
     if env_true (WEB_TERMINAL w) then ret tt else check_git_name w name) ;;;
  title <- lift (getitem problem "title") ;;
  (if negb (is_str title) then error "title is not a string" else ret tt) ;;;
  check_statement w title ;;;
  type <- lift (getitem problem "type") ;;
  (if negb (is_str type)
      || negb (existsb (eq_str type) valid_problem_types)
   then error ("type should be one of " ++ join "/" valid_problem_types)
   else ret tt) ;;;
  has_grader_in <- lift (str_in "has_grader" problem) ;;
  (if has_grader_in then
     has_grader <- lift (getitem problem "has_grader") ;;
     if negb (is_bool has_grader) then error "has_grader should be a boolean"
     else if eq_str type "OutputOnly" && is_True has_grader
          then warning "output only problems could not have grader"
          else ret tt
   else ret tt) ;;;
  has_manager_in <- lift (str_in "has_manager" problem) ;;
  (if has_manager_in then
     has_manager <- lift (getitem problem "has_manager") ;;
     if negb (is_bool has_manager) then error "has_manager should be a boolean"
     else
       (if eq_str type "Communication" && is_False has_manager
        then warning "communication problems must have manager"
        else ret tt) ;;;
       (if eq_str type "OutputOnly" && is_True has_manager
        then warning "output only problems could not have manager"
        else ret tt)
   else ret tt) ;;;
  time_limit <- lift (getitem problem "time_limit") ;;
  check_time_limit time_limit ;;;
  memory <- lift (getitem problem "memory_limit") ;;
  check_memory_limit memory ;;;
  ret problem.


(** ** [str.format] on a subtask-sensitive validator

    [format_subtask s sub] is [s.format(subtask=sub)] for the format strings
    whose replacement fields are plain: a field holding one of the
    characters [! : . [ ] {] (conversions, format specifications, attribute
    and index lookups, nesting), or a numeric field of more than 18 digits,
    leaves the modelled fragment and yields [OutOfModel]. *)

Definition is_digit (c : ascii) : bool :=
  let n := nat_of_ascii c in (48 <=? n)%nat && (n <=? 57)%nat.

Definition all_digits (s : string) : bool :=
  forallb is_digit (list_ascii_of_string s).

Definition is_field_special (c : ascii) : bool :=
  existsb (Ascii.eqb c) ["!"; ":"; "."; "["; "]"; "{"]%char.

Definition resolve_field (field_name sub : string) : outcome string :=
  if String.eqb field_name EmptyString then Raise IndexError
  else if all_digits field_name then
    if (String.length field_name <=? 18)%nat then Raise IndexError
    else Raise OutOfModel
  else if String.eqb field_name "subtask" then Ret sub
  else Raise (KeyError (Some field_name)).

Inductive format_mode : Type :=
| Text
| Field (field_name : string).

Definition is_open (c : ascii) : bool := Ascii.eqb c "{".
Definition is_close (c : ascii) : bool := Ascii.eqb c "}".

Fixpoint format_from (s : string) (mode : format_mode) (sub out : string)
    : outcome string :=
  match mode with
  | Text =>
      match s with
      | EmptyString => Ret out
      | String c rest =>
          if is_open c then
            match rest with
            | String c' rest' =>
                if is_open c' then format_from rest' Text sub (out ++ "{")
                else format_from rest (Field EmptyString) sub out
            | EmptyString => format_from rest (Field EmptyString) sub out
            end
          else if is_close c then
            match rest with
            | String c' rest' =>
                if is_close c' then format_from rest' Text sub (out ++ "}")
                else Raise ValueError
            | EmptyString => Raise ValueError
            end
          else format_from rest Text sub (out ++ String c EmptyString)
      end
  | Field field_name =>
      match s with
      | EmptyString => Raise ValueError
      | String c rest =>
          if is_close c then
            match resolve_field field_name sub with
            | Ret v => format_from rest Text sub (out ++ v)
            | Raise e => Raise e
            end
          else if is_field_special c then Raise OutOfModel
          else format_from rest (Field (field_name ++ String c EmptyString))
                 sub out
      end
  end.

Definition format_subtask (s sub : string) : outcome string :=
  format_from s Text sub EmptyString.

(** ** [verify_subtasks] *)

Definition dquote : string := String (ascii_of_nat 34) EmptyString.

(** [for x in v]: the keys of a dict, the elements of a list, the characters
    of a string. *)
Definition iter_values (v : value) : outcome (list value) :=
  match v with
  | VDict d => Ret (map (fun kv => VStr (fst kv)) d)
  | VList l => Ret l
  | VStr s =>
      Ret (map (fun c => VStr (String c EmptyString)) (list_ascii_of_string s))
  | _ => Raise TypeError
  end.

(** [d.get(key, [])] *)
Definition get_or_empty (d : value) (key : string) : outcome value :=
  match d with
  | VDict pairs =>
      match dict_get key pairs with
      | Some v => Ret v
      | None => Ret (VList [])
      end
  | _ => Raise AttributeError
  end.

(** [d.items()] *)
Definition items (d : value) : outcome (list (string * value)) :=
  match d with
  | VDict pairs => Ret pairs
  | _ => Raise AttributeError
  end.

Definition mem_str (s : string) (l : list string) : bool :=
  existsb (String.eqb s) l.

(** [set.add] on a set of strings kept as a list without repetition. *)
Definition set_add (s : string) (l : list string) : list string :=
  if mem_str s l then l else l ++ [s].

Fixpoint set_of_list (l : list string) : list string :=
  match l with
  | [] => []
  | x :: rest => set_add x (set_of_list rest)
  end.

Definition set_diff (l excluded : list string) : list string :=
  filter (fun x => negb (mem_str x excluded)) l.

Definition par_loc (parName : option string) : string :=
  match parName with
  | None => EmptyString
  | Some p => " in " ++ dquote ++ p ++ dquote
  end.

Fixpoint check_validators (validators_list : list value) (index : Z)
    (name : string) (parName : option string)
    (validator_files used_validators : list string) : M (list string) :=
  match validators_list with
  | [] => ret used_validators
  | validator_cmd_line :: rest =>
      match validator_cmd_line with
      | VStr line =>
          let validator_cmd := first_token line in
          if str_contains "." validator_cmd then
            if negb (mem_str validator_cmd validator_files) then
              error ("File not found for " ++ name ++ " validator " ++
                     dquote ++ validator_cmd ++ dquote ++ par_loc parName) ;;;
              check_validators rest (index + 1) name parName
                validator_files used_validators
            else
              check_validators rest (index + 1) name parName
                validator_files (set_add validator_cmd used_validators)
          else
            check_validators rest (index + 1) name parName
              validator_files used_validators
      | _ =>
          error (name ++ " validator #" ++ str_of_int (index + 1) ++
                 " is not a string" ++ par_loc parName) ;;;
          check_validators rest (index + 1) name parName
            validator_files used_validators
      end
  end.

(** The closure [check_validator_key]; the set [used_validators] it updates
    is passed in and returned. *)
Definition check_validator_key (parent : value) (key name : string)
    (parName : option string) (validator_files used_validators : list string)
    : M (list string) :=
  present <- lift (str_in key parent) ;;
  if negb present then ret used_validators else
  validators_list <- lift (getitem parent key) ;;
  match validators_list with
  | VList l =>
      check_validators l 0 name parName validator_files used_validators
  | _ =>
      error (dquote ++ key ++ dquote ++ " is not an array" ++ par_loc parName) ;;;
      ret used_validators
  end.

Definition subtask_placeholder_var : string := "subtask".
Definition subtask_placeholder_substitute : string :=
  "___SUBTASK_PLACEHOLDER_SUBSTITUTE___".

Definition unknown_placeholder_error (validator placeholder : string) : string :=
  "Subtask-sensitive validator " ++ dquote ++ validator ++ dquote ++
  " contains unknown placeholder {" ++ placeholder ++ "}.".

Definition missing_placeholder_error (validator : string) : string :=
  "Subtask-sensitive validator " ++ dquote ++ validator ++ dquote ++
  " does not contain the subtask placeholder {" ++
  subtask_placeholder_var ++ "}.".

(** Body of the loop over [subtask_sensitive_validators]. *)
Definition check_placeholder (subtask_sensitive_validator : value) : M unit :=
  match subtask_sensitive_validator with
  | VStr s =>
      match format_subtask s subtask_placeholder_substitute with
      | Raise (KeyError (Some placeholder)) =>
          error (unknown_placeholder_error s placeholder)
      | Raise (KeyError None) => raise IndexError
      | Raise e => raise e
      | Ret substituted =>
          if negb (str_contains subtask_placeholder_substitute substituted)
          then error (missing_placeholder_error s)
          else ret tt
      end
  | _ => raise AttributeError
  end.

(** [z in indexes] for an [int] [z]: Python compares numbers by value, so the
    element may be an [int], a [bool] or a [float] equal to [z]. *)
Definition float_eq_int (f : spec_float) (z : Z) : bool :=
  match f with
  | S754_zero _ => (z =? 0)%Z
  | S754_finite s m e =>
      let sign := if s then (-1)%Z else 1%Z in
      if (0 <=? e)%Z then (z =? sign * (Zpos m * 2 ^ e))%Z
      else ((Zpos m mod 2 ^ (- e) =? 0) && (z =? sign * (Zpos m / 2 ^ (- e))))%Z
  | _ => false
  end.

Definition eq_int (z : Z) (v : value) : bool :=
  match v with
  | VInt z' => (z =? z')%Z
  | VBool b => (z =? (if b then 1 else 0))%Z
  | VFloat f => float_eq_int f z
  | _ => false
  end.

Definition int_in (z : Z) (indexes : list value) : bool :=
  existsb (eq_int z) indexes.

(** [indexes.add(v)]: lists and dicts are unhashable. *)
Definition indexes_add (v : value) (indexes : list value)
    : outcome (list value) :=
  match v with
  | VList _ | VDict _ => Raise TypeError
  | _ => Ret (indexes ++ [v])
  end.

Definition score_error (name : string) : string :=
  "score should be a non-negative integer in subtask " ++ name.

(** The accumulators of the loop over [subtasks.items()]. *)
Record subtask_acc : Type := mkAcc {
  indexes : list value;
  score_sum : Z;
  used_validators : list string
}.

(** The [if / elif / else] on the score of one subtask; returns the new
    value of [score_sum]. *)
Definition add_score (name : string) (score : value) (score_sum : Z) : M Z :=
  match as_int score with
  | Some z =>
      if (z <? 0)%Z then error (score_error name) ;;; ret score_sum
      else if String.eqb name "samples" then
        (if negb (z =? 0)%Z then error "samples subtask score is non-zero"
         else ret tt) ;;;
        ret score_sum
      else ret (score_sum + z)%Z
  | None => error (score_error name) ;;; ret score_sum
  end.

Definition verify_subtask (validator_files : list string)
    (acc : subtask_acc) (name : string) (data : value) : M subtask_acc :=
  if negb (is_dict data) then
    error ("invalid data in " ++ name) ;;; ret acc
  else
    has_keys <- try_KeyError
                  (check_keys data ["index"; "score"] (Some name) ;;; ret true)
                  (fun _ => ret false) ;;
    if negb has_keys then ret acc else
    index <- lift (getitem data "index") ;;
    new_indexes <- lift (indexes_add index (indexes acc)) ;;
    score <- lift (getitem data "score") ;;
    new_sum <- add_score name score (score_sum acc) ;;
    new_used <- check_validator_key data "validators" "subtask" (Some name)
                  validator_files (used_validators acc) ;;
    ret (mkAcc new_indexes new_sum new_used).

Fixpoint verify_subtask_items (validator_files : list string)
    (entries : list (string * value)) (acc : subtask_acc) : M subtask_acc :=
  match entries with
  | [] => ret acc
  | (name, data) :: rest =>
      acc1 <- verify_subtask validator_files acc name data ;;
      verify_subtask_items validator_files rest acc1
  end.

Definition missing_index_error (i : Z) : string :=
  "missing index " ++ str_of_int i ++ " in subtask indexes".

(** [for i in range(n)], with [i] counting up from its first value. *)
Fixpoint check_indexes (n : nat) (i : Z) (hasSamples : bool)
    (indexes : list value) : M unit :=
  match n with
  | O => ret tt
  | S n' =>
      (if negb (int_in (i + (if hasSamples then 0 else 1)) indexes)
       then error (missing_index_error i) else ret tt) ;;;
      check_indexes n' (i + 1) hasSamples indexes
  end.

Definition k_glob : string := "global_validators".
Definition k_sub : string := "subtask_sensitive_validators".

Definition neither_error : string :=
  "Neither " ++ dquote ++ k_glob ++ dquote ++ " nor " ++ dquote ++ k_sub ++
  dquote ++ " is present in " ++ dquote ++ "subtasks.json" ++ dquote ++ ".".

Definition sum_error (total : Z) : string :=
  "sum of scores is " ++ str_of_int total.

(** [problem] is the module global that [verify] assigns from
    [verify_problem]. *)
Definition verify_subtasks (w : world) (problem : value) : M value :=
  subtasks_data <- load_data (subtasks_json w) ["subtasks"] ;;
  if is_None subtasks_data then ret VNone else
  glob_in <- lift (str_in k_glob subtasks_data) ;;
  sub_in <- (if glob_in then ret true else lift (str_in k_sub subtasks_data)) ;;
  if negb glob_in && negb sub_in then error neither_error ;;; ret VNone else
  listing <- lift (get_list_of_files (validator_dir w)) ;;
  let validator_files :=
    set_diff (set_of_list listing) ["testlib.h"; "Makefile"] in
  used <- check_validator_key subtasks_data k_glob "global" None
            validator_files [] ;;
  used <- check_validator_key subtasks_data k_sub "subtask-sensitive" None
            validator_files used ;;
  sensitive <- lift (get_or_empty subtasks_data k_sub) ;;
  sensitive <- lift (iter_values sensitive) ;;
  for_each sensitive check_placeholder ;;;
  subtasks <- lift (getitem subtasks_data "subtasks") ;;
  hasSamples <-
    try_KeyError
      (type <- lift (getitem problem "type") ;;
       if negb (eq_str type "OutputOnly") then
         check_keys subtasks ["samples"] None ;;; ret true
       else ret false)
      (fun _ => ret false) ;;
  entries <- lift (items subtasks) ;;
  acc <- verify_subtask_items validator_files entries (mkAcc [] 0 used) ;;
  for_each (set_diff validator_files (used_validators acc))
    (fun unused_validator =>
       warning ("Unused validator file " ++ dquote ++ unused_validator ++
                dquote)) ;;;
  (if negb (score_sum acc =? 100)%Z then error (sum_error (score_sum acc))
   else ret tt) ;;;
  check_indexes (List.length entries) 0 hasSamples (indexes acc) ;;;
  ret subtasks.

(** ** [verify_solutions] *)

Definition verdict_error (key_name : string) : string :=
  key_name ++ " verdict should be one of " ++ join "/" valid_verdicts.

Definition verify_verdict (verdict : value) (key_name : string) : M bool :=
  if negb (is_str verdict) || negb (existsb (eq_str verdict) valid_verdicts)
  then error (verdict_error key_name) ;;; ret false
  else ret true.

Definition undefined_subtask_error (subtask_verdict : string) : string :=
  "subtask " ++ dquote ++ subtask_verdict ++ dquote ++
  " is not defined and cannot be used in except".

(** Body of [for subtask_verdict in exceptions]. *)
Definition verify_exception (subtasks : value) (solution : string)
    (exceptions : list (string * value)) (subtask_verdict : string) : M unit :=
  known <- lift (str_in subtask_verdict subtasks) ;;
  if negb known then error (undefined_subtask_error subtask_verdict)
  else
    verdict <- lift (getitem (VDict exceptions) subtask_verdict) ;;
    verify_verdict verdict (solution ++ ".except." ++ subtask_verdict) ;;;
    ret tt.

(** The [if 'except' in data: ...] block of the loop body. *)
Definition verify_except (subtasks : value) (solution : string) (data : value)
    : M unit :=
  has_except <- lift (str_in "except" data) ;;
  if has_except then
    exceptions <- lift (getitem data "except") ;;
    match exceptions with
    | VDict pairs =>
        for_each (map fst pairs) (verify_exception subtasks solution pairs)
    | _ => error ("invalid except format in " ++ solution)
    end
  else ret tt.

(** The local variables the loop over [solutions] updates. *)
Record solutions_acc : Type := mkSolAcc {
  model_solution : option string;
  solution_files : list string
}.

Definition more_than_one_error : string :=
  "there is more than one model solutions".
Definition no_model_error : string := "there is no model solution".

(** The part of the loop body after [data = solutions[solution]]. *)
Definition verify_solution_entry (subtasks : value) (solution : string)
    (data : value) (model : option string) : M (option string) :=
  has_verdict <- try_KeyError
                   (check_keys data ["verdict"] (Some solution) ;;; ret true)
                   (fun _ => ret false) ;;
  if negb has_verdict then ret model else
  verdict <- lift (getitem data "verdict") ;;
  verified <- verify_verdict verdict solution ;;
  new_model <-
    (if verified && eq_str verdict model_solution_verdict then
       (match model with
        | Some _ => error more_than_one_error
        | None => ret tt
        end) ;;;
       ret (Some solution)
     else ret model) ;;
  verify_except subtasks solution data ;;;
  ret new_model.

(** [solution not in solution_files], for a set of strings. *)
Definition in_files (solution : value) (files : list string) : outcome bool :=
  match solution with
  | VList _ | VDict _ => Raise TypeError
  | VStr s => Ret (mem_str s files)
  | _ => Ret false
  end.

Definition verify_solution (solutions subtasks : value) (acc : solutions_acc)
    (solution : value) : M solutions_acc :=
  present <- lift (in_files solution (solution_files acc)) ;;
  if negb present then
    error (format_value solution ++ " does not exists") ;;; ret acc
  else
    match solution with
    | VStr s =>
        let files := set_diff (solution_files acc) [s] in
        data <- lift (getitem solutions s) ;;
        model <- verify_solution_entry subtasks s data (model_solution acc) ;;
        ret (mkSolAcc model files)
    | _ => raise TypeError
    end.

Fixpoint verify_solution_list (solutions subtasks : value)
    (l : list value) (acc : solutions_acc) : M solutions_acc :=
  match l with
  | [] => ret acc
  | solution :: rest =>
      acc1 <- verify_solution solutions subtasks acc solution ;;
      verify_solution_list solutions subtasks rest acc1
  end.

Definition verify_solutions (w : world) (subtasks : value) : M value :=
  solutions <- load_data (solutions_json w) [] ;;
  if is_None solutions || is_None subtasks then ret solutions else
  listing <- lift (get_list_of_files (solution_dir w)) ;;
  keys <- lift (iter_values solutions) ;;
  acc <- verify_solution_list solutions subtasks keys
           (mkSolAcc None (set_of_list listing)) ;;
  (match model_solution acc with
   | None => error no_model_error
   | Some _ => ret tt
   end) ;;;
  for_each (solution_files acc)
    (fun solution => error (solution ++ " is not represented")) ;;;
  ret solutions.

(** ** [verify_existence] and [verify] *)

Definition verify_existence (w : world) (files : list string) : M unit :=
  for_each files (fun f => if negb (isfile w f) then error f else ret tt).

Definition set_namespace (ns : string) : M unit :=
  fun st => (Ret tt, mkState (errors st) (warnings st) ns).

(** The lines [verify] prints once the stages are done. *)
Definition report (st : state) : list string :=
  errors st ++
  (match errors st, warnings st with
   | [], [] => ["verified."]
   | [], _ :: _ => ["verified, but there are some warnings."]
   | _ :: _, _ => []
   end) ++
  warnings st.

Definition verify (w : world) : M (list string) :=
  set_namespace "problem.json" ;;;
  problem <- verify_problem w ;;
  set_namespace "subtasks.json" ;;;
  subtasks <- verify_subtasks w problem ;;
  set_namespace "solutions.json" ;;;
  verify_solutions w subtasks ;;;
  set_namespace "not found" ;;;
  verify_existence w necessary_files ;;;
  (if env_true (HAS_GRADER w)
   then verify_existence w (grader_necessary_files (PROBLEM_NAME w))
   else ret tt) ;;;
  (if env_true (HAS_MANAGER w)
   then verify_existence w manager_necessary_files
   else ret tt) ;;;
  fun st => (Ret (report st), st).

(** ** Notions the properties are stated with *)

(** The verdict is one of the closed enumeration. *)
Definition valid_verdict (verdict : value) : bool :=
  match verdict with
  | VStr s => mem_str s valid_verdicts
  | _ => false
  end.

(** A validator command line written with brace-free text and [{subtask}]
    placeholders only. *)
Inductive segment : Type :=
| Lit (text : string)
| Sub.





Fixpoint substituted (template : list segment) (sub : string) : string :=
  match template with
  | [] => EmptyString
  | Lit text :: rest => text ++ substituted rest sub
  | Sub :: rest => sub ++ substituted rest sub
  end.


Definition power_of_two (m : Z) : Prop := exists k, (0 <= k)%Z /\ m = (2 ^ k)%Z.

(** The value is a JSON integer, and that integer is a power of two; a
    boolean is not an integer. *)
Definition json_integer_power_of_two (v : value) : Prop :=
  exists m, v = VInt m /\ power_of_two m.

(** The value is a float that compares equal to or greater than 0.5; NaN
    compares with nothing. *)
Definition float_at_least_half (v : value) : Prop :=
  exists f,
    v = VFloat f /\
    (SFcompare f one_half = Some Eq \/ SFcompare f one_half = Some Gt).

(** The descriptions [check_keys] records on a mapping. *)
Definition key_error (json_name : option string) (key : string) : string :=
  match truthy_name json_name with
  | Some n => required_in_error key n
  | None => required_error key
  end.

Definition missing_key_errors (d : list (string * value))
    (json_name : option string) (keys : list string) : list string :=
  map (key_error json_name) (filter (fun key => negb (dict_mem key d)) keys).

(** What the loop over [subtasks.items()] collects from one entry: the
    entry counts when it is a mapping with both [index] and [score]. *)
Definition entry_index (data : value) : list value :=
  match data with
  | VDict d =>
      match dict_get "index" d, dict_get "score" d with
      | Some i, Some _ => [i]
      | _, _ => []
      end
  | _ => []
  end.

Definition score_value (name : string) (score : value) : Z :=
  match as_int score with
  | Some z => if (z <? 0)%Z || String.eqb name "samples" then 0%Z else z
  | None => 0%Z
  end.

Definition entry_score (name : string) (data : value) : Z :=
  match data with
  | VDict d =>
      match dict_get "index" d, dict_get "score" d with
      | Some _, Some s => score_value name s
      | _, _ => 0%Z
      end
  | _ => 0%Z
  end.

Definition recorded_indexes (entries : list (string * value)) : list value :=
  flat_map (fun e => entry_index (snd e)) entries.

Fixpoint score_total (entries : list (string * value)) : Z :=
  match entries with
  | [] => 0%Z
  | (name, data) :: rest => (entry_score name data + score_total rest)%Z
  end.

(** The sum of the scores of all subtasks other than [samples]. *)
Fixpoint non_sample_sum (entries : list (string * value)) : Z :=
  match entries with
  | [] => 0%Z
  | (name, data) :: rest =>
      ((if String.eqb name "samples" then 0
        else match getitem data "score" with
             | Ret s => match as_int s with Some z => z | None => 0 end
             | Raise _ => 0
             end) + non_sample_sum rest)%Z
  end.

(** Every entry is a mapping with an [index] and a non-negative integer
    [score]. *)
Definition entry_well_formed (data : value) : Prop :=
  exists d i s z,
    data = VDict d /\ dict_get "index" d = Some i /\
    dict_get "score" d = Some s /\ as_int s = Some z /\ (0 <= z)%Z.

(** The value [hasSamples] takes. *)
Definition has_samples (problem : value) (entries : list (string * value))
    : bool :=
  match getitem problem "type" with
  | Ret type => negb (eq_str type "OutputOnly") && dict_mem "samples" entries
  | Raise _ => false
  end.

Definition index_offset (hasSamples : bool) : Z :=
  if hasSamples then 0%Z else 1%Z.

Fixpoint index_errors (n : nat) (i : Z) (hasSamples : bool)
    (indexes : list value) : list string :=
  match n with
  | O => []
  | S n' =>
      (if int_in (i + index_offset hasSamples) indexes then []
       else [missing_index_error i]) ++
      index_errors n' (i + 1) hasSamples indexes
  end.

Definition samples_errors (problem : value) (entries : list (string * value))
    : list string :=
  match getitem problem "type" with
  | Ret type =>
      if negb (eq_str type "OutputOnly") && negb (dict_mem "samples" entries)
      then [required_error "samples"] else []
  | Raise _ => []
  end.

Definition sum_errors (total : Z) : list string :=
  if (total =? 100)%Z then [] else [sum_error total].

(** The entries of the [subtasks] mapping. *)
Definition subtask_entries (subtasks : value) : list (string * value) :=
  match subtasks with VDict d => d | _ => [] end.

Definition is_sum_error (d : string) : bool := prefix "sum of scores is " d.
Definition is_missing_index_error (d : string) : bool :=
  prefix "missing index " d.

(** The contiguous range the indices have to cover: [n] indices from 0 when
    [hasSamples] holds, from 1 otherwise; and those of them that no subtask
    carries. *)
Fixpoint range_from (i : Z) (n : nat) : list Z :=
  match n with
  | O => []
  | S n' => i :: range_from (i + 1) n'
  end.

Definition required_indexes (n : nat) (hasSamples : bool) : list Z :=
  range_from (index_offset hasSamples) n.

Definition uncovered (n : nat) (hasSamples : bool) (indexes : list value)
    : list Z :=
  filter (fun r => negb (int_in r indexes)) (required_indexes n hasSamples).

(** The three diagnostics of the subtask stage that the properties below
    single out; all its other descriptions are [quiet]. *)
Definition is_target (d : string) : bool :=
  prefix "sum of scores is " d || prefix "missing index " d ||
  String.eqb d "samples is required".

Definition quiet (d : string) : Prop := is_target d = false.

(** The solution stage: an entry has the verdict [model_solution]; the
    entries of [solutions.json] whose file is on disk (the represented
    entries) and have that verdict. *)
Definition is_model (data : value) : bool :=
  match getitem data "verdict" with
  | Ret verdict => eq_str verdict model_solution_verdict
  | Raise _ => false
  end.

Definition represented_model (files : list string) (e : string * value)
    : bool :=
  mem_str (fst e) files && is_model (snd e).

Definition model_entries (files : list string) (solutions : value)
    : list (string * value) :=
  filter (represented_model files) (subtask_entries solutions).

(** Descriptions of the solution stage other than the two about the model
    solution. *)
Definition not_model_message (d : string) : Prop :=
  d <> more_than_one_error /\ d <> no_model_error.

(** ** Reasoning about runs

    [grows st st' ds]: the run from [st] to [st'] kept the namespace and
    appended the error descriptions [ds] (warnings are left free).
    [emits P m]: every run of [m] appends only descriptions satisfying [P]. *)

Definition grows (st st' : state) (ds : list string) : Prop :=
  namespace st' = namespace st /\
  errors st' = (errors st ++ map (error_line (namespace st)) ds)%list.

Definition emits {A} (P : string -> Prop) (m : M A) : Prop :=
  forall st r st', m st = (r, st') ->
    exists ds, grows st st' ds /\ Forall P ds.

(** ** Example packages *)

Definition no_str (v : value) : string := EmptyString.

Definition duplicate_document : value :=
  VDict [("name", VInt 1); ("name", VInt 2)].

Definition world_without_problem : world :=
  mkWorld Missing
    (Document (VDict [("global_validators", VList []);
                      ("subtasks", VDict [])]))
    (Document (VDict []))
    None (Some []) (Some []) None (fun _ => true) "p" None None None.

Definition problem_with (time_limit memory_limit : value) : value :=
  VDict [("name", VStr "sum"); ("title", VStr "Sum"); ("type", VStr "Batch");
         ("time_limit", time_limit); ("memory_limit", memory_limit)].

Definition world_with_problem (problem : value) : world :=
  mkWorld (Document problem)
    (Document (VDict [("global_validators", VList []);
                      ("subtasks", VDict [])]))
    (Document (VDict []))
    None (Some []) (Some []) (Some "sum.git") (fun _ => true) "sum"
    None None None.


Definition subtasks_without_validator_keys : value :=
  VDict [("subtasks",
          VDict [("first", VDict [("index", VInt 1); ("score", VInt 50)])])].

Definition world_with_subtasks (subtasks_document : value) : world :=
  mkWorld (Document (problem_with (VFloat one_half) (VInt 256)))
    (Document subtasks_document)
    (Document (VDict []))
    None (Some []) (Some []) (Some "sum.git") (fun _ => true) "sum"
    None None None.

Definition batch_problem : value := problem_with (VFloat one_half) (VInt 256).

Definition subtasks_60_30 : value :=
  VDict [("global_validators", VList []);
         ("subtasks",
          VDict [("first", VDict [("index", VInt 1); ("score", VInt 60)]);
                 ("second", VDict [("index", VInt 2); ("score", VInt 30)])])].

Definition output_only_problem : value :=
  VDict [("name", VStr "sum"); ("title", VStr "Sum");
         ("type", VStr "OutputOnly");
         ("time_limit", VFloat one_half); ("memory_limit", VInt 256)].

Definition subtasks_from_zero : value :=
  VDict [("global_validators", VList []);
         ("subtasks",
          VDict [("first", VDict [("index", VInt 0); ("score", VInt 100)])])].

Definition subtasks_with_samples : value :=
  VDict [("global_validators", VList []);
         ("subtasks",
          VDict [("samples", VDict [("index", VInt 0); ("score", VInt 0)]);
                 ("first", VDict [("index", VInt 1); ("score", VInt 100)])])].

Definition two_model_solutions : value :=
  VDict [("a.cpp", VDict [("verdict", VStr "model_solution")]);
         ("b.cpp", VDict [("verdict", VStr "model_solution")])].

Definition world_with_solutions (solutions_document : value)
    (files : list string) : world :=
  mkWorld (Document batch_problem) (Document subtasks_with_samples)
    (Document solutions_document)
    None (Some []) (Some files) (Some "sum.git") (fun _ => true) "sum"
    None None None.

(** ** Notions of the further properties *)

(** A validator entry that [check_validator_key] reports: not a string, or a
    command naming a file (it contains a dot) that is not among the
    validator files. *)
Definition bad_validator (validator_files : list string) (v : value) : bool :=
  match v with
  | VStr line =>
      str_contains "." (first_token line) &&
      negb (mem_str (first_token line) validator_files)
  | _ => true
  end.

(** A command line whose command is one of the validator files. *)
Definition uses_file (validator_files : list string) (v : value)
    (file_name : string) : Prop :=
  exists line,
    v = VStr line /\ first_token line = file_name /\
    str_contains "." file_name = true /\
    mem_str file_name validator_files = true.

(** The value under a key, [None] when there is none. *)
Definition item (data : value) (key : string) : value :=
  match getitem data key with Ret v => v | Raise _ => VNone end.

Definition when (c : bool) (description : string) : list string :=
  if c then [description] else [].

Definition type_error : string :=
  "type should be one of " ++ join "/" valid_problem_types.

(** The type is one of the four problem types. *)
Definition valid_type (type : value) : bool :=
  match type with
  | VStr s => mem_str s valid_problem_types
  | _ => false
  end.

(** The time limit is a float not below 0.5. *)
Definition time_limit_accepted (time_limit : value) : bool :=
  match time_limit with
  | VFloat f => negb (SFltb f one_half)
  | _ => false
  end.

Definition memory_limit_accepted (memory : value) : bool :=
  match as_int memory with
  | Some m => (1 <=? m)%Z && (Z.land m (m - 1) =? 0)%Z
  | None => false
  end.

(** An optional flag that is present must be a boolean. *)
Definition flag_errors (problem : value) (key description : string)
    : list string :=
  match str_in key problem with
  | Ret true => when (negb (is_bool (item problem key))) description
  | _ => []
  end.

(** The errors [verify_problem] records about a loaded problem, in order. *)
Definition problem_errors (problem : value) : list string :=
  when (negb (is_str (item problem "name"))) "name is not a string" ++
  when (negb (is_str (item problem "title"))) "title is not a string" ++
  when (negb (valid_type (item problem "type"))) type_error ++
  flag_errors problem "has_grader" "has_grader should be a boolean" ++
  flag_errors problem "has_manager" "has_manager should be a boolean" ++
  when (negb (time_limit_accepted (item problem "time_limit")))
       time_limit_error ++
  when (negb (memory_limit_accepted (item problem "memory_limit")))
       memory_limit_error.

Definition problem_keys : list string :=
  ["name"; "title"; "type"; "time_limit"; "memory_limit"].

(** An optional flag is absent or a boolean. *)
Definition flag_ok (problem : value) (key : string) : bool :=
  match getitem problem key with
  | Ret v => is_bool v
  | Raise _ => true
  end.

(** Every test of [verify_problem] on the fields passes. *)
Definition passes_checks (problem : value) : Prop :=
  is_str (item problem "name") = true /\
  is_str (item problem "title") = true /\
  valid_type (item problem "type") = true /\
  flag_ok problem "has_grader" = true /\
  flag_ok problem "has_manager" = true /\
  time_limit_accepted (item problem "time_limit") = true /\
  memory_limit_accepted (item problem "memory_limit") = true.

(** A flag that is present is a boolean. *)
Definition optional_boolean (problem : value) (key : string) : Prop :=
  forall v, getitem problem key = Ret v -> exists b, v = VBool b.

(** The values [verify_problem] lets through, field by field: [name] and
    [title] strings, [type] one of the four problem types, [has_grader] and
    [has_manager] booleans when present, [time_limit] a float of at least
    0.5 or the float NaN, [memory_limit] a JSON integer power of two or the
    boolean [true]. *)
Definition problem_well_formed (problem : value) : Prop :=
  (exists s, item problem "name" = VStr s) /\
  (exists s, item problem "title" = VStr s) /\
  (exists s, item problem "type" = VStr s /\ In s valid_problem_types) /\
  optional_boolean problem "has_grader" /\
  optional_boolean problem "has_manager" /\
  (float_at_least_half (item problem "time_limit") \/
   item problem "time_limit" = VFloat S754_nan) /\
  (json_integer_power_of_two (item problem "memory_limit") \/
   item problem "memory_limit" = VBool true).

(** The descriptions [load_data] can record. *)
Definition load_message (required_keys : list string) (d : string) : Prop :=
  (exists key, d = duplicate_key_error key) \/
  d = "file does not exists" \/ d = "invalid json" \/
  (exists key, In key required_keys /\ d = required_error key).

Definition well_formed_problem_world : world :=
  mkWorld (Document batch_problem) Missing Missing
    (Some ["# Sum"]) None None (Some "sum.git") (fun _ => true) "sum"
    None None None.

(** The files [verify] looks for under the package root: the necessary
    files, the grader files when [HAS_GRADER] is [true], the manager files
    when [HAS_MANAGER] is [true]. *)
Definition required_files (w : world) : list string :=
  necessary_files ++
  (if env_true (HAS_GRADER w) then grader_necessary_files (PROBLEM_NAME w)
   else []) ++
  (if env_true (HAS_MANAGER w) then manager_necessary_files else []).

Definition world_with_missing_subtasks : world :=
  mkWorld Missing Missing (Document two_model_solutions)
    None (Some []) None None (fun _ => true) "sum" None None None.

(** A text made of whitespace only, as [strip] sees it. *)
Definition blank_with (sp : ascii -> bool) (s : string) : bool :=
  forallb sp (list_ascii_of_string s).

Definition blank_bytes : string -> bool := blank_with is_space_bytes.

(** ** Warnings

    [warned st st' ws]: from [st] to [st'] the namespace is kept and the
    warnings [ws] are appended, in this order. *)
Definition warned (st st' : state) (ws : list string) : Prop :=
  namespace st' = namespace st /\
  warnings st' = (warnings st ++ map (warning_line (namespace st)) ws)%list.

Definition warns {A} (P : string -> Prop) (m : M A) : Prop :=
  forall st r st', m st = (r, st') ->
    exists ws, warned st st' ws /\ Forall P ws.

Definition grader_warning : string :=
  "output only problems could not have grader".
Definition manager_missing_warning : string :=
  "communication problems must have manager".
Definition manager_warning : string :=
  "output only problems could not have manager".

Definition flag_warning (d : string) : Prop :=
  d = grader_warning \/ d = manager_missing_warning \/ d = manager_warning.

(** The warnings of the [has_grader] and [has_manager] blocks of
    [verify_problem], in the order they are recorded. *)
Definition flag_warnings (problem : value) : list string :=
  let type := item problem "type" in
  when (eq_str type "OutputOnly" && is_True (item problem "has_grader"))
       grader_warning ++
  when (eq_str type "Communication" && is_False (item problem "has_manager"))
       manager_missing_warning ++
  when (eq_str type "OutputOnly" && is_True (item problem "has_manager"))
       manager_warning.

Definition output_only_with_grader : value :=
  VDict [("name", VStr "sum"); ("title", VStr "Sum");
         ("type", VStr "OutputOnly"); ("has_grader", VBool true);
         ("time_limit", VFloat one_half); ("memory_limit", VInt 256)].

(** ** Unused validators *)

Definition unused_warning (unused_validator : string) : string :=
  "Unused validator file " ++ dquote ++ unused_validator ++ dquote.

(** The validators listed under a key, when the key holds an array. *)
Definition validators_of (parent : value) (key : string) : list value :=
  match item parent key with VList l => l | _ => [] end.

(** The entries of [subtasks] that the loop does not skip: mappings with
    both [index] and [score]. *)
Definition counted (data : value) : bool :=
  match data with
  | VDict d => dict_mem "index" d && dict_mem "score" d
  | _ => false
  end.

(** The lists of validators [verify_subtasks] goes through: the global
    ones, the subtask-sensitive ones and those of each counted subtask. *)
Definition validator_lists (subtasks_data : value) : list (list value) :=
  validators_of subtasks_data k_glob ::
  validators_of subtasks_data k_sub ::
  map (fun e => validators_of (snd e) "validators")
      (filter (fun e => counted (snd e))
              (subtask_entries (item subtasks_data "subtasks"))).

(** A command line whose command is the file [f]; a command without a dot
    names no file. *)
Definition names_file (v : value) (f : string) : Prop :=
  exists line,
    v = VStr line /\ first_token line = f /\ str_contains "." f = true.

Definition used_in (subtasks_data : value) (f : string) : Prop :=
  exists l v, In l (validator_lists subtasks_data) /\ In v l /\ names_file v f.

Definition subtasks_with_validators : value :=
  VDict [("global_validators", VList [VStr "validator.cpp --group all"]);
         ("subtasks",
          VDict [("samples", VDict [("index", VInt 0); ("score", VInt 0)]);
                 ("first", VDict [("index", VInt 1); ("score", VInt 100);
                                  ("validators", VList [VStr "small.cpp"])])])].

Definition world_with_validators : world :=
  mkWorld (Document batch_problem) (Document subtasks_with_validators)
    (Document (VDict []))
    None (Some ["testlib.h"; "Makefile"; "validator.cpp"; "small.cpp";
                "old.cpp"; "validator.exe"])
    (Some []) (Some "sum.git") (fun _ => true) "sum" None None None.

(** ** [get_model_solution]

    [enumerate(solutions)] pairs a position with each element that iterating
    over [solutions] yields: for a mapping, its keys. *)
Fixpoint get_model_solution_from (l : list value) (solution : Z) : option Z :=
  match l with
  | [] => None
  | data :: rest =>
      match data with
      | VDict d =>
          match dict_get "verdict" d with
          | Some verdict =>
              if eq_str verdict model_solution_verdict then Some solution
              else get_model_solution_from rest (solution + 1)
          | None => get_model_solution_from rest (solution + 1)
          end
      | _ => get_model_solution_from rest (solution + 1)
      end
  end.

Definition get_model_solution (solutions : value) : outcome (option Z) :=
  match iter_values solutions with
  | Ret l => Ret (get_model_solution_from l 0)
  | Raise e => Raise e
  end.


Definition solutions_with_number : value := VDict [("a.cpp", VInt 5)].

(** A package without a [solution/] directory. *)
Definition world_without_solution_dir : world :=
  mkWorld (Document batch_problem) (Document subtasks_with_samples)
    (Document (VDict []))
    None (Some []) None (Some "sum.git") (fun _ => true) "sum"
    None None None.



End Verifier.

(** * Properties of the loader and the verifiers *)

Lemma add_errors_nil st : add_errors st [] = st.
Proof. destruct st; unfold add_errors; simpl. now rewrite app_nil_r. Qed.

Lemma add_errors_app st a b :
  add_errors (add_errors st a) b = add_errors st (a ++ b).
Proof.
  unfold add_errors; simpl. now rewrite map_app, app_assoc.
Qed.

Lemma error_run description st :
  error description st = (Ret tt, add_errors st [description]).
Proof. reflexivity. Qed.

Lemma error_on_duplicate_keys_loop_run ordered_pairs : forall data st,
  error_on_duplicate_keys_loop ordered_pairs data st =
  (Ret (dedup_pairs ordered_pairs data),
   add_errors st (map duplicate_key_error (repeated_keys ordered_pairs data))).
Proof.
  induction ordered_pairs as [|[k v] rest IH]; intros data st; simpl.
  - now rewrite add_errors_nil.
  - destruct (dict_mem k data).
    + unfold bind. rewrite error_run, IH, add_errors_app. reflexivity.
    + apply IH.
Qed.

Lemma json_load_run raw : forall st,
  json_load raw st = (Ret (parsed raw), add_errors st (duplicate_errors raw)).
Proof.
  induction raw as [| | | | |l IH|d IH] using value_rect'; intros st;
    try (simpl; now rewrite add_errors_nil).
  - simpl. unfold bind.
    assert (E : forall st,
        (fix elements (l : list value) : M (list value) :=
           match l with
           | [] => ret []
           | x :: xs =>
               x' <- json_load x ;; xs' <- elements xs ;; ret (x' :: xs')
           end) l st
        = (Ret (map parsed l), add_errors st (flat_map duplicate_errors l))).
    { clear st. induction IH as [|x xs Hx _ IHxs]; intros st.
      - simpl. unfold ret. now rewrite add_errors_nil.
      - unfold bind. rewrite Hx. fold (@bind (list value) (list value)).
        unfold bind. rewrite IHxs. unfold ret. simpl.
        now rewrite add_errors_app. }
    rewrite E. reflexivity.
  - simpl. unfold bind.
    assert (E : forall st,
        (fix members (d : list (string * value)) : M (list (string * value)) :=
           match d with
           | [] => ret []
           | (k, x) :: xs =>
               x' <- json_load x ;; xs' <- members xs ;; ret ((k, x') :: xs')
           end) d st
        = (Ret (map (fun kv => (fst kv, parsed (snd kv))) d),
           add_errors st (flat_map (fun kv => duplicate_errors (snd kv)) d))).
    { clear st. induction IH as [|[k x] xs Hx _ IHxs]; intros st.
      - simpl. unfold ret. now rewrite add_errors_nil.
      - unfold bind. simpl in Hx. rewrite Hx. unfold bind.
        rewrite IHxs. unfold ret. simpl.
        now rewrite add_errors_app. }
    rewrite E. unfold error_on_duplicate_keys, bind.
    rewrite error_on_duplicate_keys_loop_run. unfold ret.
    now rewrite add_errors_app.
Qed.

(** ** Duplicate keys *)

Lemma dict_get_app key d d' :
  dict_get key (d ++ d') =
  match dict_get key d with Some v => Some v | None => dict_get key d' end.
Proof.
  induction d as [|[k v] d IH]; simpl; [reflexivity|].
  destruct (String.eqb k key); [reflexivity | apply IH].
Qed.

Lemma dict_mem_app key d d' :
  dict_mem key (d ++ d') = dict_mem key d || dict_mem key d'.
Proof.
  unfold dict_mem. rewrite dict_get_app.
  destruct (dict_get key d); reflexivity.
Qed.

Lemma repeated_keys_seen ordered_pairs : forall data key,
  In key (map fst ordered_pairs) -> dict_mem key data = true ->
  exists k, In k (repeated_keys ordered_pairs data).
Proof.
  induction ordered_pairs as [|[k0 v0] rest IH]; intros data key Hin Hmem;
    simpl in *; [contradiction|].
  destruct (dict_mem k0 data) eqn:E0.
  - exists k0. now left.
  - destruct Hin as [->|Hin]; [congruence|].
    apply (IH _ key Hin). rewrite dict_mem_app, Hmem. reflexivity.
Qed.

Lemma repeated_keys_not_distinct ordered_pairs : forall data,
  keys_distinct (map fst ordered_pairs) = false ->
  exists k, In k (repeated_keys ordered_pairs data).
Proof.
  induction ordered_pairs as [|[k0 v0] rest IH]; intros data Hd;
    simpl in *; [discriminate|].
  destruct (dict_mem k0 data) eqn:E0.
  - exists k0. now left.
  - apply andb_false_iff in Hd. destruct Hd as [Hd|Hd].
    + apply negb_false_iff, existsb_exists in Hd.
      destruct Hd as [k [Hin Hk]]. apply String.eqb_eq in Hk. subst k.
      apply (repeated_keys_seen rest _ k0 Hin).
      rewrite dict_mem_app. unfold dict_mem at 2. simpl.
      rewrite String.eqb_refl. apply orb_true_r.
    + now apply IH.
Qed.

Lemma has_duplicate_key_recorded raw :
  has_duplicate_key raw = true ->
  exists key, In (duplicate_key_error key) (duplicate_errors raw).
Proof.
  induction raw as [| | | | |l IH|d IH] using value_rect'; simpl;
    try discriminate.
  - intros H. apply existsb_exists in H. destruct H as [x [Hin Hx]].
    rewrite Forall_forall in IH. destruct (IH x Hin Hx) as [key Hkey].
    exists key. apply in_flat_map. now exists x.
  - intros H. apply orb_true_iff in H. destruct H as [H|H].
    + apply negb_true_iff in H.
      destruct (repeated_keys_not_distinct
                  (map (fun kv => (fst kv, parsed (snd kv))) d) []) as [k Hk].
      { rewrite map_map. simpl. exact H. }
      exists k. apply in_or_app. right. now apply in_map.
    + apply existsb_exists in H. destruct H as [kv [Hin Hx]].
      rewrite Forall_forall in IH. destruct (IH kv Hin Hx) as [key Hkey].
      exists key. apply in_or_app. left. apply in_flat_map. now exists kv.
Qed.

Lemma check_keys_loop_present data json_name required_keys : forall flag st,
  (forall key, In key required_keys -> str_in key data = Ret true) ->
  check_keys_loop data required_keys json_name flag st = (Ret flag, st).
Proof.
  induction required_keys as [|key rest IH]; intros flag st Hall; simpl.
  - reflexivity.
  - unfold bind, lift. rewrite (Hall key (or_introl eq_refl)).
    apply IH. intros k Hk. apply Hall. now right.
Qed.

(** C1, as stated, fails: the document [{"name": 1, "name": 2}] has a
    duplicate key, the error is recorded, and [load_data] still returns the
    mapping, not [None]. *)
Lemma load_data_duplicate_returns_data :
  has_duplicate_key duplicate_document = true /\
  load_data (Document duplicate_document) ["name"] (init "problem.json") =
    (Ret (VDict [("name", VInt 1)]),
     mkState ["ERROR: problem.json - duplicate key: name"] [] "problem.json") /\
  fst (load_data (Document duplicate_document) ["name"] (init "problem.json"))
    <> Ret VNone.
Proof.
  split; [reflexivity|]. split; [reflexivity|]. vm_compute. discriminate.
Qed.

(** C1 (amended): for every document with a duplicate key at any level,
    [load_data] records a duplicate-key error; the duplicate by itself does
    not fail the load: when every required key is present in the parsed
    mapping, [load_data] returns that mapping (which is not [None]), each
    key bound to its first value. *)
Theorem load_data_duplicate_key raw required_keys st :
  has_duplicate_key raw = true ->
  (exists key,
      In (error_line (namespace st) (duplicate_key_error key))
         (errors (snd (load_data (Document raw) required_keys st)))) /\
  parsed raw <> VNone /\
  ((forall key, In key required_keys -> str_in key (parsed raw) = Ret true) ->
   fst (load_data (Document raw) required_keys st) = Ret (parsed raw)).
Proof.
  intros Hdup. split; [|split].
  - destruct (has_duplicate_key_recorded raw Hdup) as [key Hkey].
    exists key. simpl. unfold bind. rewrite json_load_run.
    assert (Hin : In (error_line (namespace st) (duplicate_key_error key))
                     (errors (add_errors st (duplicate_errors raw)))).
    { simpl. apply in_or_app. right. now apply in_map. }
    revert Hin. generalize (add_errors st (duplicate_errors raw)) as st1.
    intros st1 Hin. unfold try_KeyError, check_keys, bind.
    assert (Hmono : forall keys flag s,
      incl (errors s)
           (errors (snd (check_keys_loop (parsed raw) keys None flag s)))).
    { induction keys as [|k ks IHk]; intros flag s; simpl.
      - apply incl_refl.
      - unfold bind, lift. destruct (str_in k (parsed raw)) as [[|]|e]; simpl.
        + apply IHk.
        + eapply incl_tran; [|apply IHk]. simpl. apply incl_appl, incl_refl.
        + apply incl_refl. }
    specialize (Hmono required_keys false st1).
    destruct (check_keys_loop (parsed raw) required_keys None false st1)
      as [[[|]|e] s2]; simpl in *; try (now apply Hmono).
    destruct e; simpl; now apply Hmono.
  - destruct raw; simpl in *; discriminate.
  - intros Hall. simpl. unfold bind. rewrite json_load_run.
    unfold try_KeyError, check_keys, bind.
    rewrite check_keys_loop_present by exact Hall. reflexivity.
Qed.

Lemma load_data_duplicate_key_witness :
  fst (load_data (Document duplicate_document) ["name"] (init "problem.json"))
  = Ret (VDict [("name", VInt 1)]).
Proof.
  refine (proj2 (proj2 (load_data_duplicate_key duplicate_document ["name"]
                          (init "problem.json") eq_refl)) _).
  intros key [<-|[]]. reflexivity.
Defined.

(** ** Runs append diagnostics *)

Lemma grows_refl st : grows st st [].
Proof. split; [reflexivity|]. simpl. now rewrite app_nil_r. Qed.

Lemma grows_trans st1 st2 st3 a b :
  grows st1 st2 a -> grows st2 st3 b -> grows st1 st3 (a ++ b).
Proof.
  intros [N1 E1] [N2 E2]. split; [congruence|].
  rewrite E2, E1, N1, map_app, app_assoc. reflexivity.
Qed.

Lemma grows_snoc st st' a b :
  grows st st' a -> grows st (add_errors st' b) (a ++ b).
Proof.
  intros [N E]. split; [exact N|]. simpl.
  rewrite E, N, map_app, app_assoc. reflexivity.
Qed.

Lemma grows_add_errors st ds : grows st (add_errors st ds) ds.
Proof. split; reflexivity. Qed.



Lemma emits_weaken {A} (P Q : string -> Prop) (m : M A) :
  (forall d, P d -> Q d) -> emits P m -> emits Q m.
Proof.
  intros HPQ Hm st r st' Hrun. destruct (Hm st r st' Hrun) as [ds [Hg Hf]].
  exists ds. split; [exact Hg|]. eapply Forall_impl; eauto.
Qed.

Lemma emits_ret {A} P (a : A) : emits P (ret a).
Proof.
  intros st r st' H. injection H as <- <-. exists []. split;
    [apply grows_refl | constructor].
Qed.

Lemma emits_raise {A} P e : emits P (@raise A e).
Proof.
  intros st r st' H. injection H as <- <-. exists []. split;
    [apply grows_refl | constructor].
Qed.

Lemma emits_lift {A} P (o : outcome A) : emits P (lift o).
Proof.
  intros st r st' H. injection H as <- <-. exists []. split;
    [apply grows_refl | constructor].
Qed.

Lemma emits_error (P : string -> Prop) d : P d -> emits P (error d).
Proof.
  intros Hd st r st' H. injection H as <- <-. exists [d]. split.
  - apply (grows_add_errors st [d]).
  - now constructor.
Qed.

Lemma emits_warning P d : emits P (warning d).
Proof.
  intros st r st' H. injection H as <- <-. exists []. split;
    [|constructor]. split; [reflexivity|]. simpl. now rewrite app_nil_r.
Qed.

Lemma emits_bind {A B} P (m : M A) (f : A -> M B) :
  emits P m -> (forall a, emits P (f a)) -> emits P (bind m f).
Proof.
  intros Hm Hf st r st' Hrun. unfold bind in Hrun.
  destruct (m st) as [[a|e] st1] eqn:Em.
  - destruct (Hm _ _ _ Em) as [d1 [G1 F1]].
    destruct (Hf a _ _ _ Hrun) as [d2 [G2 F2]].
    exists (d1 ++ d2). split; [eapply grows_trans; eauto|].
    apply Forall_app. now split.
  - injection Hrun as <- <-. exact (Hm _ _ _ Em).
Qed.

Lemma emits_try {A} P (m : M A) h :
  emits P m -> (forall a, emits P (h a)) -> emits P (try_KeyError m h).
Proof.
  intros Hm Hh st r st' Hrun. unfold try_KeyError in Hrun.
  destruct (m st) as [[a|e] st1] eqn:Em.
  - injection Hrun as <- <-. exact (Hm _ _ _ Em).
  - destruct (Hm _ _ _ Em) as [d1 [G1 F1]].
    destruct e; try (injection Hrun as <- <-; exists d1; now split).
    destruct (Hh arg _ _ _ Hrun) as [d2 [G2 F2]].
    exists (d1 ++ d2). split; [eapply grows_trans; eauto|].
    apply Forall_app. now split.
Qed.

Lemma emits_for_each {A} P (l : list A) body :
  (forall x, In x l -> emits P (body x)) -> emits P (for_each l body).
Proof.
  induction l as [|x l IH]; intros Hb; simpl.
  - apply emits_ret.
  - apply emits_bind.
    + apply Hb. now left.
    + intros _. apply IH. intros y Hy. apply Hb. now right.
Qed.

(** ** Inversion of runs that return *)

Lemma bind_Ret_inv {A B} (m : M A) (f : A -> M B) st b st' :
  bind m f st = (Ret b, st') ->
  exists a st1, m st = (Ret a, st1) /\ f a st1 = (Ret b, st').
Proof.
  unfold bind. destruct (m st) as [[a|e] st1]; intros H.
  - now exists a, st1.
  - discriminate.
Qed.

Lemma lift_Ret_inv {A} (o : outcome A) st a st' :
  lift o st = (Ret a, st') -> o = Ret a /\ st' = st.
Proof. unfold lift. intros H. injection H as -> ->. now split. Qed.

Lemma ret_inv {A} (a b : A) st st' :
  ret a st = (Ret b, st') -> b = a /\ st' = st.
Proof. unfold ret. intros H. injection H as -> ->. now split. Qed.

Ltac inv_bind H :=
  let a := fresh "a" in
  let st1 := fresh "st" in
  let H1 := fresh "Hrun" in
  apply bind_Ret_inv in H; destruct H as [a [st1 [H1 H]]].

Ltac inv_lift H :=
  let E := fresh "E" in
  apply lift_Ret_inv in H; destruct H as [E ->].

(** ** The stage after a failed load *)

(** With [problem] left at [None], [verify_subtasks] cannot return the
    subtasks: it returns [None] from one of its guards or raises. *)
Lemma verify_subtasks_without_problem w st v st' :
  verify_subtasks w VNone st = (Ret v, st') -> v = VNone.
Proof.
  unfold verify_subtasks. intros H.
  inv_bind H. destruct (is_None a).
  { now apply ret_inv in H. }
  inv_bind H. inv_bind H.
  destruct (negb a0 && negb a1).
  { inv_bind H. now apply ret_inv in H. }
  do 8 inv_bind H.
  unfold try_KeyError, bind, lift in Hrun8. simpl in Hrun8. discriminate.
Qed.

(** [verify_solutions] stops right after loading when the subtasks are
    [None]. *)
Lemma verify_solutions_without_subtasks py_str w st :
  verify_solutions py_str w VNone st = load_data (solutions_json w) [] st.
Proof.
  unfold verify_solutions, bind.
  destruct (load_data (solutions_json w) [] st) as [[a|e] st1];
    [|reflexivity].
  now rewrite orb_true_r.
Qed.

(** C2 (code defect): with [problem.json] missing and a well-formed
    [subtasks.json], [verify_subtasks] evaluates [problem['type']] on
    [None]; the [TypeError] is not caught and ends the whole run. *)
Theorem verify_subtasks_raises_without_problem py_str :
  verify_problem py_str world_without_problem (init "problem.json")
    = (Ret VNone,
       mkState ["ERROR: problem.json - file does not exists"] []
               "problem.json") /\
  fst (verify_subtasks world_without_problem VNone (init "subtasks.json"))
    = Raise TypeError /\
  fst (verify py_str world_without_problem (init EmptyString))
    = Raise TypeError.
Proof. repeat split; reflexivity. Qed.

(** ** The power-of-two test *)

Lemma land_even_odd a b : Z.land (2 * a) (2 * b + 1) = (2 * Z.land a b)%Z.
Proof.
  apply Z.bits_inj'. intros n Hn. rewrite Z.land_spec.
  destruct (Z.eq_dec n 0) as [->|Hne].
  - now rewrite !Z.testbit_even_0, Z.testbit_odd_0.
  - replace n with (Z.succ (n - 1)) by lia.
    rewrite !Z.testbit_even_succ, Z.testbit_odd_succ by lia.
    now rewrite Z.land_spec.
Qed.

Lemma land_odd_even a : Z.land (2 * a + 1) (2 * a) = (2 * a)%Z.
Proof.
  apply Z.bits_inj'. intros n Hn. rewrite Z.land_spec.
  destruct (Z.eq_dec n 0) as [->|Hne].
  - now rewrite !Z.testbit_even_0, Z.testbit_odd_0.
  - replace n with (Z.succ (n - 1)) by lia.
    rewrite !Z.testbit_even_succ, Z.testbit_odd_succ by lia.
    apply andb_diag.
Qed.

Lemma land_pred_zero_pos p :
  Z.land (Zpos p) (Zpos p - 1) = 0%Z -> power_of_two (Zpos p).
Proof.
  induction p as [p IH|p IH|]; intros H.
  - exfalso. rewrite Pos2Z.inj_xI in H.
    replace (2 * Z.pos p + 1 - 1)%Z with (2 * Z.pos p)%Z in H by lia.
    rewrite land_odd_even in H. lia.
  - rewrite Pos2Z.inj_xO in H.
    replace (2 * Z.pos p - 1)%Z with (2 * (Z.pos p - 1) + 1)%Z in H by lia.
    rewrite land_even_odd in H.
    destruct IH as [k [Hk Ek]]; [lia|].
    exists (Z.succ k). split; [lia|].
    rewrite Z.pow_succ_r by lia. rewrite Pos2Z.inj_xO, Ek. reflexivity.
  - exists 0%Z. split; [lia | reflexivity].
Qed.

Lemma land_pred_power_of_two m :
  (1 <= m)%Z -> (Z.land m (m - 1) = 0%Z <-> power_of_two m).
Proof.
  intros Hm. split.
  - destruct m as [|p|p]; try lia. apply land_pred_zero_pos.
  - intros [k [Hk ->]].
    replace (2 ^ k - 1)%Z with (Z.ones k)
      by (rewrite Z.ones_equiv; lia).
    rewrite Z.land_ones by lia. apply Z.mod_same.
    apply Z.pow_nonzero; lia.
Qed.

Lemma power_of_two_pos m : power_of_two m -> (1 <= m)%Z.
Proof.
  intros [k [Hk ->]]. pose proof (Z.pow_pos_nonneg 2 k). lia.
Qed.

(** ** What the loader appends *)

Lemma duplicate_errors_shape raw :
  Forall (fun d => exists key, d = duplicate_key_error key)
         (duplicate_errors raw).
Proof.
  induction raw as [| | | | |l IH|d IH] using value_rect'; simpl;
    try constructor.
  - induction IH as [|x xs Hx _ IHxs]; simpl; [constructor|].
    apply Forall_app. now split.
  - apply Forall_app. split.
    + induction IH as [|x xs Hx _ IHxs]; simpl; [constructor|].
      apply Forall_app. now split.
    + apply Forall_forall. intros x Hx. apply in_map_iff in Hx.
      destruct Hx as [k [<- _]]. now exists k.
Qed.

Lemma emits_json_load (P : string -> Prop) raw :
  (forall key, P (duplicate_key_error key)) -> emits P (json_load raw).
Proof.
  intros HP st r st' Hrun. rewrite json_load_run in Hrun.
  injection Hrun as <- <-. exists (duplicate_errors raw). split.
  - apply grows_add_errors.
  - eapply Forall_impl; [|apply duplicate_errors_shape].
    intros d [key ->]. apply HP.
Qed.

Lemma emits_check_keys_loop (P : string -> Prop) data json_name keys :
  (forall key n, In key keys -> truthy_name json_name = Some n ->
                 P (required_in_error key n)) ->
  (forall key, In key keys -> truthy_name json_name = None ->
               P (required_error key)) ->
  forall flag, emits P (check_keys_loop data keys json_name flag).
Proof.
  induction keys as [|key rest IH]; intros H1 H2 flag; simpl.
  - apply emits_ret.
  - apply emits_bind; [apply emits_lift|]. intros present.
    assert (Hrest : forall f, emits P (check_keys_loop data rest json_name f)).
    { apply IH; intros; [apply H1 | apply H2]; auto; now right. }
    destruct present; [apply Hrest|].
    apply emits_bind; [|intros _; apply Hrest].
    destruct (truthy_name json_name) eqn:E; apply emits_error;
      [apply H1 | apply H2]; auto; now left.
Qed.

Lemma emits_check_keys (P : string -> Prop) data keys json_name :
  (forall key n, In key keys -> truthy_name json_name = Some n ->
                 P (required_in_error key n)) ->
  (forall key, In key keys -> truthy_name json_name = None ->
               P (required_error key)) ->
  emits P (check_keys data keys json_name).
Proof.
  intros H1 H2. unfold check_keys. apply emits_bind.
  - now apply emits_check_keys_loop.
  - intros [|]; [apply emits_raise | apply emits_ret].
Qed.

Lemma emits_load_data (P : string -> Prop) json_file keys :
  (forall key, P (duplicate_key_error key)) ->
  P "file does not exists" -> P "invalid json" ->
  (forall key, In key keys -> P (required_error key)) ->
  emits P (load_data json_file keys).
Proof.
  intros Hdup Hmiss Hinv Hkeys. destruct json_file as [|closed|raw]; simpl.
  - apply emits_bind; [now apply emits_error | intros _; apply emits_ret].
  - apply emits_bind.
    + apply emits_for_each. intros raw _.
      apply emits_bind; [now apply emits_json_load | intros _; apply emits_ret].
    + intros _. apply emits_bind; [now apply emits_error|].
      intros _. apply emits_ret.
  - apply emits_bind; [now apply emits_json_load|]. intros data.
    apply emits_try; [|intros _; apply emits_ret].
    apply emits_bind; [|intros _; apply emits_ret].
    apply emits_check_keys; [discriminate | auto].
Qed.

(** One step of a run that returns: the first computation appends only
    descriptions satisfying [P], and the run continues. *)
Lemma step_acc {A B} (P : string -> Prop) (m : M A) (f : A -> M B)
    st0 st d0 b st' :
  grows st0 st d0 -> Forall P d0 -> emits P m ->
  bind m f st = (Ret b, st') ->
  exists a st1 d1,
    grows st0 st1 d1 /\ Forall P d1 /\ f a st1 = (Ret b, st').
Proof.
  intros G F Hm Hrun. apply bind_Ret_inv in Hrun.
  destruct Hrun as [a [st1 [H1 H2]]].
  destruct (Hm _ _ _ H1) as [d [G1 F1]].
  exists a, st1, (d0 ++ d). repeat split.
  - apply (proj1 (grows_trans _ _ _ _ _ G G1)).
  - apply (proj2 (grows_trans _ _ _ _ _ G G1)).
  - apply Forall_app. now split.
  - exact H2.
Qed.

Ltac msg_neq :=
  solve [ let H := fresh in intro H; cbn in H; discriminate H ].

Ltac solve_emits :=
  repeat first
    [ apply emits_ret | apply emits_raise | apply emits_lift
    | apply emits_warning | apply emits_error
    | apply emits_bind; [|intro]
    | apply emits_try; [|intro]
    | apply emits_load_data
    | apply emits_check_keys
    | match goal with
      | |- emits _ (if ?b then _ else _) => destruct b
      | |- emits _ (match ?x with _ => _ end) => destruct x
      end
    | progress unfold check_time_limit, check_statement, check_git_name,
        verify_verdict ].

Ltac in_cases :=
  repeat match goal with
         | H : In _ (_ :: _) |- _ => destruct H as [<-|H]
         | H : In _ [] |- _ => destruct H
         end.

(** [step G F H] peels the first computation off the run [H]. *)
Ltac step G F H :=
  let a := fresh "a" in
  let st1 := fresh "st" in
  let d := fresh "d" in
  let G' := fresh "G" in
  let F' := fresh "F" in
  eapply (step_acc _ _ _ _ _ _ _ _ G F) in H;
  [ destruct H as (a & st1 & d & G' & F' & H);
    clear G F; rename G' into G; rename F' into F
  | solve_emits; intros; in_cases; try msg_neq ].

(** ** [verify_problem] *)

(** ** The time limit *)

Lemma check_time_limit_run time_limit st :
  check_time_limit time_limit st =
  (Ret tt,
   match as_float time_limit with
   | Some f => if SFltb f one_half then add_errors st [time_limit_error] else st
   | None => add_errors st [time_limit_error]
   end).
Proof.
  unfold check_time_limit. destruct (as_float time_limit) as [f|];
    [destruct (SFltb f one_half)|]; reflexivity.
Qed.

(** C8 (code defect): a [time_limit] written as an integer, such as [2], is
    a number not below 0.5, yet [isinstance(_, float)] fails on it and the
    time_limit error is recorded. *)
Theorem time_limit_integer_rejected :
  (forall z st,
      check_time_limit (VInt z) st =
      (Ret tt, add_errors st [time_limit_error])) /\
  verify_problem no_str
    (world_with_problem (problem_with (VInt 2) (VInt 256)))
    (init "problem.json")
  = (Ret (problem_with (VInt 2) (VInt 256)),
     mkState
       ["ERROR: problem.json - time_limit should be a number greater or equal to 0.5"]
       ["WARNING: problem.json - statement does not exists"]
       "problem.json").
Proof. split; [intros; reflexivity | vm_compute; reflexivity]. Qed.

(** ** Strings *)


Lemma append_nil_r (a : string) : (a ++ EmptyString)%string = a.
Proof. induction a as [|x a IH]; simpl; [reflexivity | now rewrite IH]. Qed.

Lemma substring_middle (a s b : string) :
  substring (String.length a) (String.length s) (a ++ s ++ b) = s.
Proof.
  induction a as [|x a IH]; simpl; [|exact IH].
  induction s as [|y s IHs]; simpl.
  - destruct b; reflexivity.
  - now rewrite IHs.
Qed.


(** ** [str.format] on templates *)












(** ** Solution entries *)

Lemma verify_verdict_invalid verdict key_name st :
  valid_verdict verdict = false ->
  verify_verdict verdict key_name st =
  (Ret false, add_errors st [verdict_error key_name]).
Proof.
  intros Hv. unfold verify_verdict.
  destruct verdict; try reflexivity.
  assert (E : forall l, existsb (eq_str (VStr s)) l = mem_str s l).
  { induction l as [|x l IH]; [reflexivity|].
    unfold mem_str in *. simpl. now rewrite IH. }
  unfold valid_verdict in Hv. rewrite E, Hv. reflexivity.
Qed.


(** ** The subtask stage: diagnostics of the helper loops *)

Ltac quiet_msg := solve [ reflexivity | unfold quiet; reflexivity ].

Lemma emits_check_validators name parName files validators_list :
  name = "global" \/ name = "subtask-sensitive" \/ name = "subtask" ->
  forall index used,
    emits quiet (check_validators validators_list index name parName files used).
Proof.
  intros Hname. induction validators_list as [|v rest IH]; intros index used;
    simpl.
  - apply emits_ret.
  - assert (Hnot : emits quiet
      (error (name ++ " validator #" ++ str_of_int (index + 1) ++
              " is not a string" ++ par_loc parName) ;;;
       check_validators rest (index + 1) name parName files used)).
    { apply emits_bind; [|intros _; apply IH].
      apply emits_error.
      destruct Hname as [-> | [-> | ->]]; quiet_msg. }
    destruct v; try exact Hnot.
    destruct (str_contains "." (first_token s)); [|apply IH].
    destruct (negb (mem_str (first_token s) files)); [|apply IH].
    apply emits_bind; [|intros _; apply IH].
    apply emits_error. quiet_msg.
Qed.

Lemma emits_check_validator_key parent key name parName files used :
  name = "global" \/ name = "subtask-sensitive" \/ name = "subtask" ->
  emits quiet (check_validator_key parent key name parName files used).
Proof.
  intros Hname. unfold check_validator_key.
  apply emits_bind; [apply emits_lift|]. intros present.
  destruct (negb present); [apply emits_ret|].
  apply emits_bind; [apply emits_lift|]. intros l.
  destruct l; try (apply emits_bind; [apply emits_error; quiet_msg
                                     | intros _; apply emits_ret]).
  now apply emits_check_validators.
Qed.

Lemma emits_check_placeholder v : emits quiet (check_placeholder v).
Proof.
  unfold check_placeholder. destruct v; try apply emits_raise.
  destruct (format_subtask s subtask_placeholder_substitute) as [t|e].
  - destruct (negb (str_contains subtask_placeholder_substitute t));
      [apply emits_error; quiet_msg | apply emits_ret].
  - destruct e as [[name|]| | | | | | |]; try apply emits_raise.
    apply emits_error. quiet_msg.
Qed.

Lemma check_indexes_run n : forall i hasSamples indexes st,
  check_indexes n i hasSamples indexes st =
  (Ret tt, add_errors st (index_errors n i hasSamples indexes)).
Proof.
  induction n as [|n IH]; intros i hs indexes st; simpl.
  - unfold ret. now rewrite add_errors_nil.
  - unfold index_offset.
    destruct (int_in (i + (if hs then 0 else 1)) indexes);
      cbn [negb app]; unfold bind.
    + unfold ret at 1. rewrite IH. reflexivity.
    + rewrite error_run, IH, add_errors_app. reflexivity.
Qed.

Lemma check_keys_loop_dict d json_name keys : forall flag st,
  check_keys_loop (VDict d) keys json_name flag st =
  (Ret (flag || negb (forallb (fun key => dict_mem key d) keys)),
   add_errors st (missing_key_errors d json_name keys)).
Proof.
  induction keys as [|key rest IH]; intros flag st; simpl.
  - rewrite orb_false_r. unfold ret. now rewrite add_errors_nil.
  - unfold bind at 1. unfold lift. simpl. unfold missing_key_errors. simpl.
    destruct (dict_mem key d); simpl.
    + apply IH.
    + assert (Em : match truthy_name json_name with
                   | Some n => error (required_in_error key n)
                   | None => error (required_error key)
                   end = error (key_error json_name key)).
      { unfold key_error. now destruct (truthy_name json_name). }
      rewrite Em. unfold bind.
      rewrite error_run, IH, add_errors_app, orb_true_r. reflexivity.
Qed.

Lemma check_keys_dict d json_name keys st :
  check_keys (VDict d) keys json_name st =
  ((if forallb (fun key => dict_mem key d) keys then Ret tt
    else Raise (KeyError None)),
   add_errors st (missing_key_errors d json_name keys)).
Proof.
  unfold check_keys, bind. rewrite check_keys_loop_dict. simpl.
  destruct (forallb (fun key => dict_mem key d) keys); reflexivity.
Qed.

Lemma missing_key_errors_quiet d name :
  Forall quiet (missing_key_errors d (Some name) ["index"; "score"]).
Proof.
  unfold missing_key_errors, key_error, truthy_name.
  destruct (String.eqb name EmptyString);
    cbn [filter negb map];
    destruct (dict_mem "index" d), (dict_mem "score" d);
    cbn [filter negb map]; repeat constructor.
Qed.

Lemma dict_mem_get key d :
  dict_mem key d = match dict_get key d with Some _ => true | None => false end.
Proof. reflexivity. Qed.

Lemma entry_keys_run d name st :
  try_KeyError
    (check_keys (VDict d) ["index"; "score"] (Some name) ;;; ret true)
    (fun _ => ret false) st
  = (Ret (dict_mem "index" d && dict_mem "score" d),
     add_errors st (missing_key_errors d (Some name) ["index"; "score"])).
Proof.
  unfold try_KeyError, bind. rewrite check_keys_dict. cbn [forallb].
  destruct (dict_mem "index" d), (dict_mem "score" d); reflexivity.
Qed.

Lemma add_score_run name score total st :
  exists ds,
    add_score name score total st =
    (Ret (total + score_value name score)%Z, add_errors st ds) /\
    Forall quiet ds.
Proof.
  unfold add_score, score_value.
  destruct (as_int score) as [z|].
  - destruct (z <? 0)%Z; cbn [orb].
    + exists [score_error name]. rewrite Z.add_0_r. split; [reflexivity|].
      repeat constructor.
    + destruct (String.eqb name "samples"); [|exists [];
        rewrite add_errors_nil; split; [reflexivity | constructor]].
      rewrite Z.add_0_r.
      destruct (negb (z =? 0)%Z).
      * exists ["samples subtask score is non-zero"].
        split; [reflexivity | repeat constructor].
      * exists []. rewrite add_errors_nil.
        split; [reflexivity | constructor].
  - exists [score_error name]. rewrite Z.add_0_r. split; [reflexivity|].
    repeat constructor.
Qed.

Lemma verify_subtask_run files acc name data st acc' st' :
  verify_subtask files acc name data st = (Ret acc', st') ->
  indexes acc' = indexes acc ++ entry_index data /\
  score_sum acc' = (score_sum acc + entry_score name data)%Z /\
  exists ds, grows st st' ds /\ Forall quiet ds.
Proof.
  unfold verify_subtask. intros H.
  destruct data as [| | | | | |d];
    try (cbn [is_dict negb] in H; inv_bind H; apply ret_inv in H;
         destruct H as [-> ->]; rewrite error_run in Hrun;
         inversion Hrun; subst; clear Hrun;
         simpl; rewrite app_nil_r, Z.add_0_r;
         repeat split; eexists; split;
         [apply grows_add_errors | repeat constructor]).
  cbn [is_dict negb] in H.
  inv_bind H. rewrite entry_keys_run in Hrun. injection Hrun as <- <-.
  pose proof (missing_key_errors_quiet d name) as F.
  pose proof (grows_add_errors st
                (missing_key_errors d (Some name) ["index"; "score"])) as G.
  remember (missing_key_errors d (Some name) ["index"; "score"]) as d0 eqn:Ed0.
  clear Ed0. revert H G. generalize (add_errors st d0) as st0. intros st0 H G.
  unfold entry_index, entry_score. rewrite !dict_mem_get in H.
  unfold getitem in H.
  destruct (dict_get "index" d) as [i|], (dict_get "score" d) as [s|];
    cbn [andb negb] in H;
    try (apply ret_inv in H; destruct H as [-> ->];
         rewrite app_nil_r, Z.add_0_r; repeat split; now exists d0).
  inv_bind H. inv_lift Hrun. injection E as <-.
  inv_bind H. inv_lift Hrun.
  inv_bind H. inv_lift Hrun. injection E0 as <-.
  inv_bind H.
  destruct (add_score_run name s (score_sum acc) st0) as [ds [Es Fs]].
  rewrite Es in Hrun. injection Hrun as <- <-.
  pose proof (grows_trans _ _ _ _ _ G (grows_add_errors st0 ds)) as G1.
  assert (F1 : Forall quiet (d0 ++ ds)) by (apply Forall_app; now split).
  inv_bind H.
  destruct (emits_check_validator_key _ _ _ _ _ _
              (or_intror (or_intror eq_refl)) _ _ _ Hrun) as [dv [Gv Fv]].
  apply ret_inv in H. destruct H as [-> ->]. cbn [indexes score_sum].
  split; [|split; [reflexivity|]].
  2: { exists ((d0 ++ ds) ++ dv). split.
       - eapply grows_trans; eauto.
       - apply Forall_app. now split. }
  destruct i; simpl in E; try discriminate; now injection E as <-.
Qed.

Lemma verify_subtask_items_run files entries : forall acc st acc' st',
  verify_subtask_items files entries acc st = (Ret acc', st') ->
  indexes acc' = indexes acc ++ recorded_indexes entries /\
  score_sum acc' = (score_sum acc + score_total entries)%Z /\
  exists ds, grows st st' ds /\ Forall quiet ds.
Proof.
  induction entries as [|[name data] rest IH]; intros acc st acc' st' H;
    simpl in H.
  - apply ret_inv in H. destruct H as [-> ->]. simpl.
    rewrite app_nil_r, Z.add_0_r. repeat split.
    exists []. split; [apply grows_refl | constructor].
  - inv_bind H.
    destruct (verify_subtask_run _ _ _ _ _ _ _ Hrun)
      as [Ei [Es [d1 [G1 F1]]]].
    destruct (IH _ _ _ _ H) as [Ei' [Es' [d2 [G2 F2]]]].
    unfold recorded_indexes in *. simpl.
    rewrite Ei', Ei, Es', Es, app_assoc. split; [reflexivity|].
    split; [lia|]. exists (d1 ++ d2). split.
    + eapply grows_trans; eauto.
    + apply Forall_app. now split.
Qed.

Lemma samples_try_run problem entries st hasSamples st1 :
  try_KeyError
    (type <- lift (getitem problem "type") ;;
     if negb (eq_str type "OutputOnly") then
       check_keys (VDict entries) ["samples"] None ;;; ret true
     else ret false)
    (fun _ => ret false) st = (Ret hasSamples, st1) ->
  hasSamples = has_samples problem entries /\
  st1 = add_errors st (samples_errors problem entries).
Proof.
  unfold try_KeyError, has_samples, samples_errors, bind at 1, lift.
  destruct (getitem problem "type") as [type|e].
  - destruct (eq_str type "OutputOnly"); cbn [negb andb].
    + intros H. injection H as <- <-. now rewrite add_errors_nil.
    + unfold bind. rewrite check_keys_dict. cbn [forallb].
      unfold missing_key_errors. cbn [filter].
      destruct (dict_mem "samples" entries); cbn [andb negb map];
        intros H; unfold ret in H; injection H as <- <-.
      * now rewrite add_errors_nil.
      * split; reflexivity.
  - destruct e; try discriminate.
    intros H. injection H as <- <-. now rewrite add_errors_nil.
Qed.

(** [step_by tac G F H]: as [step], the side condition being left to [tac]. *)
Ltac step_by tac G F H :=
  let a := fresh "a" in
  let st1 := fresh "st" in
  let d := fresh "d" in
  let G' := fresh "G" in
  let F' := fresh "F" in
  eapply (step_acc _ _ _ _ _ _ _ _ G F) in H;
  [ destruct H as (a & st1 & d & G' & F' & H);
    clear G F; rename G' into G; rename F' into F
  | tac ].

Lemma emits_load_subtasks w :
  emits quiet (load_data (subtasks_json w) ["subtasks"]).
Proof.
  apply emits_load_data; try quiet_msg.
  intros key [<-|[]]. quiet_msg.
Qed.

(** ** The subtask stage as a whole *)

Lemma sum_check_run total st :
  (if negb (total =? 100)%Z then error (sum_error total) else ret tt) st =
  (Ret tt, add_errors st (sum_errors total)).
Proof.
  unfold sum_errors. destruct (total =? 100)%Z; cbn [negb].
  - unfold ret. now rewrite add_errors_nil.
  - reflexivity.
Qed.

Lemma verify_subtasks_run w problem st subtasks st' :
  verify_subtasks w problem st = (Ret subtasks, st') ->
  subtasks <> VNone ->
  exists entries d1 d2,
    subtasks = VDict entries /\
    Forall quiet d1 /\ Forall quiet d2 /\
    grows st st'
      (d1 ++ samples_errors problem entries ++ d2 ++
       sum_errors (score_total entries) ++
       index_errors (List.length entries) 0 (has_samples problem entries)
         (recorded_indexes entries)).
Proof.
  intros H Hnone. unfold verify_subtasks in H.
  pose proof (grows_refl st) as G.
  assert (F : Forall quiet []) by constructor.
  step_by ltac:(apply emits_load_subtasks) G F H.
  destruct (is_None a).
  { apply ret_inv in H. destruct H as [-> _]. congruence. }
  step_by ltac:(apply emits_lift) G F H.
  step_by ltac:(destruct a0; [apply emits_ret | apply emits_lift]) G F H.
  destruct (negb a0 && negb a1).
  { inv_bind H. apply ret_inv in H. destruct H as [-> _]. congruence. }
  step_by ltac:(apply emits_lift) G F H.
  step_by ltac:(apply emits_check_validator_key; auto) G F H.
  step_by ltac:(apply emits_check_validator_key; auto) G F H.
  step_by ltac:(apply emits_lift) G F H.
  step_by ltac:(apply emits_lift) G F H.
  step_by ltac:(apply emits_for_each; intros; apply emits_check_placeholder)
    G F H.
  step_by ltac:(apply emits_lift) G F H.
  inv_bind H. inv_bind H. inv_lift Hrun0.
  destruct a8; try discriminate. injection E as <-.
  apply samples_try_run in Hrun. destruct Hrun as [-> ->].
  inv_bind H.
  destruct (verify_subtask_items_run _ _ _ _ _ _ Hrun)
    as [Ei [Es [dl [Gl Fl]]]].
  cbn [indexes score_sum app] in Ei, Es.
  inv_bind H.
  match goal with
  | Hx : for_each ?l ?body _ = _ |- _ =>
      assert (Hw : emits quiet (for_each l body))
        by (apply emits_for_each; intros; apply emits_warning);
      destruct (Hw _ _ _ Hx) as [dw [Gw Fw]]
  end.
  inv_bind H.
  match goal with
  | Hx : (if negb (?t =? 100)%Z then _ else _) ?s = _ |- _ =>
      rewrite (sum_check_run t s) in Hx; inversion Hx; subst; clear Hx
  end.
  inv_bind H.
  match goal with
  | Hx : check_indexes _ _ _ _ _ = _ |- _ =>
      rewrite check_indexes_run in Hx; inversion Hx; subst; clear Hx
  end.
  apply ret_inv in H. destruct H as [-> ->].
  rewrite Ei, Es, Z.add_0_l.
  eexists. eexists. exists (dl ++ dw). split; [reflexivity|].
  split; [exact F|]. split; [apply Forall_app; now split|].
  rewrite !app_assoc. do 2 apply grows_snoc.
  eapply grows_trans; [|exact Gw].
  eapply grows_trans; [|exact Gl].
  apply grows_snoc. exact G.
Qed.


(** ** The [samples] subtask *)

(** C10, as stated, fails: [subtasks.json] loads, its [subtasks] mapping has
    no [samples] key and the problem is a Batch problem, but neither
    validator key is present; [verify_subtasks] returns at its guard and the
    error about [samples] is not recorded. *)
Lemma samples_not_checked_without_validator_keys :
  let w := world_with_subtasks subtasks_without_validator_keys in
  load_data (subtasks_json w) ["subtasks"] (init "subtasks.json")
    = (Ret subtasks_without_validator_keys, init "subtasks.json") /\
  verify_subtasks w batch_problem (init "subtasks.json")
    = (Ret VNone, add_errors (init "subtasks.json") [neither_error]) /\
  ~ In (error_line "subtasks.json" (required_error "samples"))
       (errors (snd (verify_subtasks w batch_problem (init "subtasks.json")))).
Proof.
  split; [reflexivity|]. split; [reflexivity|].
  vm_compute. intros [H|[]]. discriminate.
Qed.

(** C10 (amended): for a loaded problem whose [type] is not [OutputOnly]
    and a [subtasks.json] on which [verify_subtasks] runs to completion (it
    loads and carries one of the two validator keys), if the [subtasks]
    mapping has no [samples] key then the error "samples is required" is
    recorded. *)
Theorem samples_required w problem type st subtasks st' :
  verify_subtasks w problem st = (Ret subtasks, st') ->
  subtasks <> VNone ->
  getitem problem "type" = Ret type ->
  eq_str type "OutputOnly" = false ->
  str_in "samples" subtasks = Ret false ->
  exists ds, grows st st' ds /\ In (required_error "samples") ds.
Proof.
  intros Hrun Hnone Htype Hoo Hsamples.
  destruct (verify_subtasks_run _ _ _ _ _ Hrun Hnone)
    as (entries & d1 & d2 & -> & F1 & F2 & G).
  eexists. split; [exact G|].
  apply in_or_app. right. apply in_or_app. left.
  unfold samples_errors. rewrite Htype, Hoo.
  simpl in Hsamples. injection Hsamples as ->. now left.
Qed.

Lemma samples_required_witness :
  let w := world_with_subtasks subtasks_60_30 in
  let st := init "subtasks.json" in
  exists ds,
    grows st (snd (verify_subtasks w batch_problem st)) ds /\
    In (required_error "samples") ds.
Proof.
  intros w st.
  apply (samples_required w batch_problem (VStr "Batch") st
           (VDict [("first", VDict [("index", VInt 1); ("score", VInt 60)]);
                   ("second", VDict [("index", VInt 2); ("score", VInt 30)])]));
    try reflexivity.
  discriminate.
Defined.

(** ** The sum of the scores *)

Lemma quiet_not_sum d : quiet d -> is_sum_error d = false.
Proof.
  unfold quiet, is_target, is_sum_error. intros H.
  apply orb_false_iff in H. destruct H as [H _].
  apply orb_false_iff in H. now destruct H.
Qed.

Lemma quiet_not_missing d : quiet d -> is_missing_index_error d = false.
Proof.
  unfold quiet, is_target, is_missing_index_error. intros H.
  apply orb_false_iff in H. destruct H as [H _].
  apply orb_false_iff in H. now destruct H.
Qed.

Lemma samples_errors_not_sum problem entries :
  Forall (fun d => is_sum_error d = false /\ is_missing_index_error d = false)
         (samples_errors problem entries).
Proof.
  unfold samples_errors. destruct (getitem problem "type") as [t|];
    [|constructor].
  destruct (negb (eq_str t "OutputOnly") && negb (dict_mem "samples" entries));
    repeat constructor.
Qed.

Lemma index_errors_not_sum n : forall i hs idx,
  Forall (fun d => is_sum_error d = false) (index_errors n i hs idx).
Proof.
  induction n as [|n IH]; intros i hs idx; simpl; [constructor|].
  apply Forall_app. split; [|apply IH].
  destruct (int_in (i + index_offset hs) idx); repeat constructor.
Qed.

Lemma score_total_well_formed entries :
  Forall (fun e => entry_well_formed (snd e)) entries ->
  score_total entries = non_sample_sum entries.
Proof.
  induction 1 as [|[name data] rest Hwf _ IH]; simpl; [reflexivity|].
  rewrite IH. f_equal.
  destruct Hwf as (d & i & s & z & Hd & Hi & Hs & Hz & Hpos). simpl in Hd.
  subst data. unfold entry_score, score_value, getitem.
  rewrite Hi, Hs, Hz.
  destruct (Z.ltb_spec z 0); [lia|]. cbn [orb].
  now destruct (String.eqb name "samples").
Qed.

Lemma sum_error_is_sum_error total : is_sum_error (sum_error total) = true.
Proof.
  unfold is_sum_error, sum_error. generalize (str_of_int total) as s.
  intros s. destruct s; reflexivity.
Qed.

Lemma in_sum_errors total d :
  In d (sum_errors total) <-> d = sum_error total /\ total <> 100%Z.
Proof.
  unfold sum_errors. destruct (Z.eqb_spec total 100) as [E|E]; simpl.
  - split; [contradiction | intros [_ H]; contradiction].
  - split; [intros [<-|[]]; now split | intros [-> _]; now left].
Qed.

Lemma sum_error_in_run d1 samples d2 total idx d :
  Forall quiet d1 -> Forall quiet d2 ->
  Forall (fun d => is_sum_error d = false /\ is_missing_index_error d = false)
         samples ->
  Forall (fun d => is_sum_error d = false) idx ->
  is_sum_error d = true ->
  (In d (d1 ++ samples ++ d2 ++ sum_errors total ++ idx) <->
   d = sum_error total /\ total <> 100%Z).
Proof.
  intros F1 F2 Fs Fi Hd. rewrite !in_app_iff, in_sum_errors.
  rewrite Forall_forall in F1, F2, Fs, Fi.
  split; [|tauto].
  intros [H|[H|[H|[H|H]]]]; auto.
  - apply F1, quiet_not_sum in H. congruence.
  - apply Fs in H. destruct H. congruence.
  - apply F2, quiet_not_sum in H. congruence.
  - apply Fi in H. congruence.
Qed.

(** C3, as stated, fails: this [subtasks.json] loads and its only subtask
    scores 50, yet no score-sum error is recorded, since neither validator
    key is present and [verify_subtasks] returns at its guard. *)
Lemma no_sum_error_without_validator_keys :
  let w := world_with_subtasks subtasks_without_validator_keys in
  non_sample_sum [("first", VDict [("index", VInt 1); ("score", VInt 50)])]
    = 50%Z /\
  verify_subtasks w batch_problem (init "subtasks.json")
    = (Ret VNone, add_errors (init "subtasks.json") [neither_error]) /\
  ~ In (error_line "subtasks.json" (sum_error 50))
       (errors (snd (verify_subtasks w batch_problem (init "subtasks.json")))).
Proof.
  split; [reflexivity|]. split; [reflexivity|].
  vm_compute. intros [H|[]]. discriminate.
Qed.

(** C3 (amended): when [verify_subtasks] runs to completion (the file loads
    and carries one of the two validator keys) and every entry of
    [subtasks] is a mapping with an [index] and a non-negative integer
    [score], a score-sum error is recorded if and only if the scores of the
    subtasks other than [samples] do not sum to 100, and any such error
    reports that sum. *)
Theorem score_sum_error w problem st subtasks st' :
  verify_subtasks w problem st = (Ret subtasks, st') ->
  subtasks <> VNone ->
  Forall (fun e => entry_well_formed (snd e)) (subtask_entries subtasks) ->
  exists ds,
    grows st st' ds /\
    (In (sum_error (non_sample_sum (subtask_entries subtasks))) ds <->
     non_sample_sum (subtask_entries subtasks) <> 100%Z) /\
    (forall d, In d ds -> is_sum_error d = true ->
               d = sum_error (non_sample_sum (subtask_entries subtasks))).
Proof.
  intros Hrun Hnone Hwf.
  destruct (verify_subtasks_run _ _ _ _ _ Hrun Hnone)
    as (entries & d1 & d2 & -> & F1 & F2 & G).
  cbn [subtask_entries] in *.
  rewrite (score_total_well_formed _ Hwf) in G.
  eexists. split; [exact G|].
  pose proof (fun d => sum_error_in_run d1 _ d2
                (non_sample_sum entries) _ d F1 F2
                (samples_errors_not_sum problem entries)
                (index_errors_not_sum (List.length entries) 0
                   (has_samples problem entries)
                   (recorded_indexes entries))) as Hin.
  split.
  - rewrite Hin by apply sum_error_is_sum_error. tauto.
  - intros d Hd Hs. apply (Hin d Hs) in Hd. tauto.
Qed.

Lemma score_sum_error_witness :
  let w := world_with_subtasks subtasks_60_30 in
  let st := init "subtasks.json" in
  exists ds,
    grows st (snd (verify_subtasks w batch_problem st)) ds /\
    (In (sum_error 90) ds <-> 90%Z <> 100%Z) /\
    (forall d, In d ds -> is_sum_error d = true -> d = sum_error 90).
Proof.
  intros w st.
  apply (score_sum_error w batch_problem st
           (VDict [("first", VDict [("index", VInt 1); ("score", VInt 60)]);
                   ("second", VDict [("index", VInt 2); ("score", VInt 30)])])).
  - reflexivity.
  - discriminate.
  - repeat constructor; simpl.
    + exists [("index", VInt 1); ("score", VInt 60)], (VInt 1), (VInt 60), 60%Z.
      repeat split; lia.
    + exists [("index", VInt 2); ("score", VInt 30)], (VInt 2), (VInt 30), 30%Z.
      repeat split; lia.
Defined.

(** ** The subtask indexes *)

Lemma prefix_nil s : prefix EmptyString s = true.
Proof. now destruct s. Qed.

Lemma missing_index_error_is_missing i :
  is_missing_index_error (missing_index_error i) = true.
Proof.
  unfold is_missing_index_error, missing_index_error.
  generalize (str_of_int i ++ " in subtask indexes")%string as s.
  intros s. destruct s; reflexivity.
Qed.

Lemma to_int_nonnil z :
  Z.to_int z <> Decimal.Pos Decimal.Nil /\
  Z.to_int z <> Decimal.Neg Decimal.Nil.
Proof.
  destruct z; simpl; split; try discriminate; intros H; injection H as H;
    revert H; apply DecimalPos.Unsigned.to_uint_nonnil.
Qed.

Lemma str_of_int_inj a b : str_of_int a = str_of_int b -> a = b.
Proof.
  unfold str_of_int. intros H. apply DecimalZ.to_int_inj.
  assert (E : Some (Z.to_int a) = Some (Z.to_int b)).
  { rewrite <- !NilZero.isi by apply to_int_nonnil. now rewrite H. }
  now injection E.
Qed.

Lemma length_append (a b : string) :
  String.length (a ++ b) = String.length a + String.length b.
Proof. induction a as [|x a IH]; simpl; [reflexivity | now rewrite IH]. Qed.

Lemma append_inv_tail (a b c : string) :
  (a ++ c = b ++ c)%string -> a = b.
Proof.
  revert b. induction a as [|x a IH]; intros [|y b] H; simpl in H.
  - reflexivity.
  - exfalso. apply (f_equal String.length) in H. simpl in H.
    rewrite length_append in H. lia.
  - exfalso. apply (f_equal String.length) in H. simpl in H.
    rewrite length_append in H. lia.
  - injection H as -> H. f_equal. now apply IH.
Qed.

Lemma missing_index_error_inj i j :
  missing_index_error i = missing_index_error j -> i = j.
Proof.
  unfold missing_index_error. intros H.
  apply str_of_int_inj, (append_inv_tail _ _ " in subtask indexes").
  simpl in H.
  repeat match type of H with
         | String ?c _ = String ?c _ => injection H as H
         end.
  exact H.
Qed.

Lemma index_errors_range n : forall i hasSamples indexes,
  index_errors n i hasSamples indexes =
  map (fun r => missing_index_error (r - index_offset hasSamples))
      (filter (fun r => negb (int_in r indexes))
              (range_from (i + index_offset hasSamples) n)).
Proof.
  induction n as [|n IH]; intros i hs idx; simpl; [reflexivity|].
  rewrite IH.
  replace (i + 1 + index_offset hs)%Z with (i + index_offset hs + 1)%Z by lia.
  destruct (int_in (i + index_offset hs) idx); simpl; [reflexivity|].
  now replace (i + index_offset hs - index_offset hs)%Z with i by lia.
Qed.

Lemma filter_none {A} (f : A -> bool) l :
  Forall (fun x => f x = false) l -> filter f l = [].
Proof.
  induction 1 as [|x l Hx _ IH]; simpl; [reflexivity | now rewrite Hx].
Qed.

Lemma filter_all {A} (f : A -> bool) l :
  Forall (fun x => f x = true) l -> filter f l = l.
Proof.
  induction 1 as [|x l Hx _ IH]; simpl; [reflexivity | now rewrite Hx, IH].
Qed.

Lemma count_occ_filter (f : string -> bool) l x :
  f x = true ->
  count_occ string_dec (filter f l) x = count_occ string_dec l x.
Proof.
  intros Hx. induction l as [|y l IH]; simpl; [reflexivity|].
  destruct (f y) eqn:Ey; simpl; destruct (string_dec y x) as [->|Hne];
    try congruence.
Qed.

Lemma count_occ_map_inj (f : Z -> string) l k :
  (forall a b, f a = f b -> a = b) ->
  count_occ string_dec (map f l) (f k) = count_occ Z.eq_dec l k.
Proof.
  intros Hinj. induction l as [|y l IH]; simpl; [reflexivity|].
  destruct (string_dec (f y) (f k)) as [E|E], (Z.eq_dec y k) as [E'|E'];
    try congruence.
  apply Hinj in E. contradiction.
Qed.

Lemma in_range_from n : forall i k,
  In k (range_from i n) <-> (i <= k < i + Z.of_nat n)%Z.
Proof.
  induction n as [|n IH]; intros i k; simpl range_from.
  - simpl. lia.
  - simpl In. rewrite IH. lia.
Qed.

Lemma NoDup_range_from n : forall i, NoDup (range_from i n).
Proof.
  induction n as [|n IH]; intros i; simpl; constructor; [|apply IH].
  rewrite in_range_from. lia.
Qed.

Lemma sum_errors_not_missing total :
  Forall (fun d => is_missing_index_error d = false) (sum_errors total).
Proof.
  unfold sum_errors. destruct (total =? 100)%Z; repeat constructor.
Qed.

Lemma index_errors_missing n i hs idx :
  Forall (fun d => is_missing_index_error d = true) (index_errors n i hs idx).
Proof.
  rewrite index_errors_range. apply Forall_forall. intros d Hd.
  apply in_map_iff in Hd. destruct Hd as [r [<- _]].
  apply missing_index_error_is_missing.
Qed.

Lemma filter_missing_run d1 samples d2 total idx :
  Forall quiet d1 -> Forall quiet d2 ->
  Forall (fun d => is_sum_error d = false /\ is_missing_index_error d = false)
         samples ->
  Forall (fun d => is_missing_index_error d = true) idx ->
  filter is_missing_index_error
    (d1 ++ samples ++ d2 ++ sum_errors total ++ idx) = idx.
Proof.
  intros F1 F2 Fs Fi. rewrite !filter_app.
  rewrite (filter_none _ d1), (filter_none _ samples), (filter_none _ d2),
    (filter_none _ (sum_errors total)), (filter_all _ idx); auto.
  - apply sum_errors_not_missing.
  - eapply Forall_impl; [|exact F2]. apply quiet_not_missing.
  - eapply Forall_impl; [|exact Fs]. now intros d [_ H].
  - eapply Forall_impl; [|exact F1]. apply quiet_not_missing.
Qed.

Lemma count_occ_NoDup l k :
  NoDup l ->
  count_occ Z.eq_dec l k = if existsb (Z.eqb k) l then 1 else 0.
Proof.
  induction 1 as [|x l Hx _ IH]; simpl; [reflexivity|].
  destruct (Z.eq_dec x k) as [->|Hne].
  - rewrite Z.eqb_refl. simpl. f_equal.
    now apply count_occ_not_In.
  - rewrite IH. replace (k =? x)%Z with false; [reflexivity|].
    symmetry. apply Z.eqb_neq. congruence.
Qed.

(** C4, as stated, fails. Without a [samples] subtask the code wants the
    indices to start at 1: a single subtask of index 0 gets a missing-index
    error. With a [samples] subtask counted ([hasSamples]), the range starts
    at 0: indices 0 and 1 of two subtasks raise no error. *)
Lemma index_range_start :
  verify_subtasks (world_with_subtasks subtasks_from_zero)
    output_only_problem (init "subtasks.json")
  = (Ret (VDict [("first", VDict [("index", VInt 0); ("score", VInt 100)])]),
     add_errors (init "subtasks.json") [missing_index_error 0]) /\
  verify_subtasks (world_with_subtasks subtasks_with_samples)
    batch_problem (init "subtasks.json")
  = (Ret (VDict [("samples", VDict [("index", VInt 0); ("score", VInt 0)]);
                 ("first", VDict [("index", VInt 1); ("score", VInt 100)])]),
     init "subtasks.json").
Proof. split; reflexivity. Qed.

(** C4 (amended): when [verify_subtasks] runs to completion, the indices of
    the subtasks have to cover the contiguous range of as many indices as
    there are subtasks, starting at 0 if a [samples] subtask is required and
    present ([hasSamples]) and at 1 otherwise; one missing-index error is
    recorded for each index of that range that no subtask carries, and,
    under [hasSamples], it is the one error naming that index. *)
Theorem subtask_indexes_cover w problem st subtasks st' :
  verify_subtasks w problem st = (Ret subtasks, st') ->
  subtasks <> VNone ->
  let entries := subtask_entries subtasks in
  let hasSamples := has_samples problem entries in
  let missing :=
    uncovered (List.length entries) hasSamples (recorded_indexes entries) in
  exists ds,
    grows st st' ds /\
    List.length (filter is_missing_index_error ds) = List.length missing /\
    (hasSamples = true ->
     forall k, count_occ string_dec ds (missing_index_error k) =
               if existsb (Z.eqb k) missing then 1 else 0).
Proof.
  intros Hrun Hnone entries hasSamples missing.
  destruct (verify_subtasks_run _ _ _ _ _ Hrun Hnone)
    as (entries' & d1 & d2 & E & F1 & F2 & G).
  subst subtasks. cbn [subtask_entries] in entries. subst entries.
  fold hasSamples in G.
  eexists. split; [exact G|].
  pose proof (filter_missing_run d1 _ d2 (score_total entries') _ F1 F2
                (samples_errors_not_sum problem entries')
                (index_errors_missing (List.length entries') 0 hasSamples
                   (recorded_indexes entries'))) as Hf.
  assert (Hidx : index_errors (List.length entries') 0 hasSamples
                   (recorded_indexes entries')
                 = map (fun r => missing_index_error (r - index_offset hasSamples))
                       missing).
  { rewrite index_errors_range. reflexivity. }
  split.
  - rewrite Hf, Hidx. apply length_map.
  - intros Hs k.
    rewrite <- (count_occ_filter is_missing_index_error)
      by apply missing_index_error_is_missing.
    rewrite Hf, Hidx. rewrite Hs. cbn [index_offset].
    rewrite (map_ext _ missing_index_error)
      by (intros r; now rewrite Z.sub_0_r).
    rewrite (count_occ_map_inj _ _ _ missing_index_error_inj).
    apply count_occ_NoDup. unfold missing, uncovered.
    apply NoDup_filter, NoDup_range_from.
Qed.

Lemma subtask_indexes_cover_witness :
  let w := world_with_subtasks subtasks_with_samples in
  let st := init "subtasks.json" in
  exists ds,
    grows st (snd (verify_subtasks w batch_problem st)) ds /\
    List.length (filter is_missing_index_error ds) = 0 /\
    (true = true ->
     forall k, count_occ string_dec ds (missing_index_error k) =
               if existsb (Z.eqb k) [] then 1 else 0).
Proof.
  intros w st.
  apply (subtask_indexes_cover w batch_problem st
           (VDict [("samples", VDict [("index", VInt 0); ("score", VInt 0)]);
                   ("first", VDict [("index", VInt 1); ("score", VInt 100)])])).
  - reflexivity.
  - discriminate.
Defined.

(** ** The solution stage: descriptions that are not about the model *)

Lemma list_ascii_of_string_app (a b : string) :
  list_ascii_of_string (a ++ b) =
  (list_ascii_of_string a ++ list_ascii_of_string b)%list.
Proof. induction a as [|x a IH]; simpl; [reflexivity | now rewrite IH]. Qed.

(** [a ++ suffix] differs from a text that does not end with [suffix]. *)
Ltac suffix_neq :=
  let H := fresh in
  intro H;
  apply (f_equal (fun x => List.rev (list_ascii_of_string x))) in H;
  rewrite list_ascii_of_string_app, rev_app_distr in H;
  simpl in H; discriminate H.

Lemma verdict_error_not_model key_name : not_model_message (verdict_error key_name).
Proof. unfold verdict_error. split; suffix_neq. Qed.

Lemma does_not_exist_not_model s :
  not_model_message (s ++ " does not exists").
Proof. split; suffix_neq. Qed.

Lemma not_represented_not_model s :
  not_model_message (s ++ " is not represented").
Proof. split; suffix_neq. Qed.

Ltac model_msg :=
  solve [ apply verdict_error_not_model
        | apply does_not_exist_not_model
        | apply not_represented_not_model
        | split; msg_neq ].

Lemma verify_verdict_run verdict key_name st :
  verify_verdict verdict key_name st =
  (Ret (valid_verdict verdict),
   add_errors st (if valid_verdict verdict then []
                  else [verdict_error key_name])).
Proof.
  destruct (valid_verdict verdict) eqn:Ev.
  - unfold verify_verdict. destruct verdict; try discriminate.
    assert (E : forall l, existsb (eq_str (VStr s)) l = mem_str s l).
    { induction l as [|x l IH]; [reflexivity|].
      unfold mem_str in *. simpl. now rewrite IH. }
    unfold valid_verdict in Ev. rewrite E, Ev. cbn [is_str negb orb].
    unfold ret. now rewrite add_errors_nil.
  - now apply verify_verdict_invalid.
Qed.

Lemma emits_verify_verdict verdict key_name :
  emits not_model_message (verify_verdict verdict key_name).
Proof.
  intros st r st' H. rewrite verify_verdict_run in H. injection H as <- <-.
  eexists. split; [apply grows_add_errors|].
  destruct (valid_verdict verdict); repeat constructor;
    apply verdict_error_not_model.
Qed.

Lemma emits_verify_except subtasks solution data :
  emits not_model_message (verify_except subtasks solution data).
Proof.
  unfold verify_except.
  apply emits_bind; [apply emits_lift|]. intros has_except.
  destruct has_except; [|apply emits_ret].
  apply emits_bind; [apply emits_lift|]. intros exceptions.
  destruct exceptions; try (apply emits_error; model_msg).
  apply emits_for_each. intros k _. unfold verify_exception.
  apply emits_bind; [apply emits_lift|]. intros known.
  destruct (negb known); [apply emits_error; model_msg|].
  apply emits_bind; [apply emits_lift|]. intros verdict.
  apply emits_bind; [apply emits_verify_verdict | intros _; apply emits_ret].
Qed.

Lemma emits_has_verdict data solution :
  emits not_model_message
    (try_KeyError (check_keys data ["verdict"] (Some solution) ;;; ret true)
                  (fun _ => ret false)).
Proof.
  apply emits_try; [|intros; apply emits_ret].
  apply emits_bind; [|intros; apply emits_ret].
  apply emits_check_keys; intros; in_cases; split; msg_neq.
Qed.

Lemma has_verdict_dict d s st :
  try_KeyError (check_keys (VDict d) ["verdict"] (Some s) ;;; ret true)
               (fun _ => ret false) st
  = (Ret (dict_mem "verdict" d),
     add_errors st (missing_key_errors d (Some s) ["verdict"])).
Proof.
  unfold try_KeyError, bind. rewrite check_keys_dict. cbn [forallb].
  destruct (dict_mem "verdict" d); reflexivity.
Qed.

Lemma verify_solution_entry_run subtasks s data model st model' st' :
  verify_solution_entry subtasks s data model st = (Ret model', st') ->
  model' = (if is_model data then Some s else model) /\
  exists d1 d2,
    grows st st'
      (d1 ++
       (if is_model data
        then match model with Some _ => [more_than_one_error] | None => [] end
        else []) ++ d2) /\
    Forall not_model_message d1 /\ Forall not_model_message d2.
Proof.
  unfold verify_solution_entry. intros H.
  destruct (is_model data) eqn:Em.
  - unfold is_model, getitem in Em. destruct data; try discriminate.
    destruct (dict_get "verdict" d) as [v|] eqn:Ev; try discriminate.
    destruct v as [| | | |v| |]; try discriminate.
    simpl in Em. apply String.eqb_eq in Em. subst v.
    inv_bind H. rewrite has_verdict_dict in Hrun.
    unfold missing_key_errors in Hrun. cbn [filter] in Hrun.
    rewrite dict_mem_get, Ev in Hrun. cbn [negb map] in Hrun.
    rewrite add_errors_nil in Hrun. injection Hrun as <- <-.
    cbn [negb] in H. inv_bind H. inv_lift Hrun.
    unfold getitem in E. rewrite Ev in E. injection E as <-.
    inv_bind H. rewrite verify_verdict_run in Hrun.
    cbn in Hrun. rewrite add_errors_nil in Hrun. injection Hrun as <- <-.
    cbn [andb eq_str] in H.
    replace (String.eqb "model_solution" model_solution_verdict)
      with true in H by reflexivity.
    inv_bind H. inv_bind Hrun. apply ret_inv in Hrun. destruct Hrun as [-> ->].
    inv_bind H.
    destruct (emits_verify_except _ _ _ _ _ _ Hrun) as [d2 [G2 F2]].
    apply ret_inv in H. destruct H as [-> ->].
    split; [reflexivity|]. exists [], d2. cbn [app].
    split; [|split; [constructor | exact F2]].
    destruct model.
    + rewrite error_run in Hrun0. inversion Hrun0; subst.
      eapply (grows_trans _ _ _ [more_than_one_error]);
        [apply grows_add_errors | exact G2].
    + apply ret_inv in Hrun0. destruct Hrun0 as [_ ->]. exact G2.
  - pose proof (grows_refl st) as G.
    assert (F : Forall not_model_message []) by constructor.
    step_by ltac:(apply emits_has_verdict) G F H.
    destruct a; cbn [negb] in H.
    2: { apply ret_inv in H. destruct H as [-> ->]. split; [reflexivity|].
         exists d, []. cbn [app]. rewrite app_nil_r.
         repeat split; auto. apply G. apply G. }
    inv_bind H. inv_lift Hrun.
    unfold is_model in Em. rewrite E in Em.
    step_by ltac:(apply emits_verify_verdict) G F H.
    rewrite Em, andb_false_r in H.
    inv_bind H. apply ret_inv in Hrun. destruct Hrun as [-> ->].
    step_by ltac:(apply emits_verify_except) G F H.
    apply ret_inv in H. destruct H as [-> ->]. split; [reflexivity|].
    eexists. exists []. cbn [app]. rewrite app_nil_r.
    split; [exact G|]. split; [exact F | constructor].
Qed.

Lemma not_model_count ds :
  Forall not_model_message ds ->
  count_occ string_dec ds more_than_one_error = 0 /\ ~ In no_model_error ds.
Proof.
  intros F. rewrite Forall_forall in F. split.
  - apply count_occ_not_In. intros H. now apply F in H as [H _].
  - intros H. now apply F in H as [_ H].
Qed.

Lemma mem_str_set_diff k' k files :
  k' <> k -> mem_str k' (set_diff files [k]) = mem_str k' files.
Proof.
  intros Hne. unfold set_diff, mem_str. apply eq_true_iff_eq.
  rewrite !existsb_exists. split; intros [x [Hin Hx]]; exists x.
  - apply filter_In in Hin. now destruct Hin.
  - split; [|exact Hx]. apply filter_In. split; [exact Hin|].
    apply String.eqb_eq in Hx. subst x. simpl.
    destruct (String.eqb_spec k' k); [contradiction | reflexivity].
Qed.

Lemma verify_solution_run py_str d subtasks acc k data st acc' st' :
  dict_get k d = Some data ->
  verify_solution py_str (VDict d) subtasks acc (VStr k) st = (Ret acc', st') ->
  let present := mem_str k (solution_files acc) in
  let hit := present && is_model data in
  model_solution acc' = (if hit then Some k else model_solution acc) /\
  solution_files acc' =
    (if present then set_diff (solution_files acc) [k]
     else solution_files acc) /\
  exists d1 d2,
    grows st st'
      (d1 ++
       (if hit
        then match model_solution acc with
             | Some _ => [more_than_one_error]
             | None => []
             end
        else []) ++ d2) /\
    Forall not_model_message d1 /\ Forall not_model_message d2.
Proof.
  intros Hget H present hit. unfold verify_solution in H.
  inv_bind H. inv_lift Hrun. simpl in E. injection E as <-.
  fold present in H. subst hit. destruct present; cbn [negb andb] in *.
  - inv_bind H. inv_lift Hrun. unfold getitem in E. rewrite Hget in E.
    injection E as <-. inv_bind H.
    apply verify_solution_entry_run in Hrun.
    destruct Hrun as [-> (d1 & d2 & G & F1 & F2)].
    apply ret_inv in H. destruct H as [-> ->]. cbn [model_solution solution_files].
    split; [reflexivity|]. split; [reflexivity|]. now exists d1, d2.
  - inv_bind H. rewrite error_run in Hrun. inversion Hrun; subst; clear Hrun.
    apply ret_inv in H. destruct H as [-> ->].
    split; [reflexivity|]. split; [reflexivity|].
    eexists. exists []. cbn [app]. rewrite app_nil_r.
    split; [apply grows_add_errors|]. split; [|constructor].
    repeat constructor; simpl; suffix_neq.
Qed.

Lemma solutions_loop py_str d subtasks files0 : forall l acc st acc' st',
  (forall k data, In (k, data) l -> dict_get k d = Some data) ->
  NoDup (map fst l) ->
  (forall k, In k (map fst l) ->
             mem_str k (solution_files acc) = mem_str k files0) ->
  verify_solution_list py_str (VDict d) subtasks
    (map (fun kv => VStr (fst kv)) l) acc st = (Ret acc', st') ->
  exists ds,
    grows st st' ds /\
    ~ In no_model_error ds /\
    count_occ string_dec ds more_than_one_error =
      List.length (filter (represented_model files0) l) +
      (match model_solution acc with Some _ => 1 | None => 0 end) - 1 /\
    (model_solution acc' = None <->
     model_solution acc = None /\ filter (represented_model files0) l = []).
Proof.
  induction l as [|[k data] rest IH]; intros acc st acc' st' Hget Hnd Hfiles H.
  - simpl in H. apply ret_inv in H. destruct H as [-> ->].
    exists []. split; [apply grows_refl|]. split; [intros []|].
    split; [simpl; destruct (model_solution acc); reflexivity | tauto].
  - cbn [map verify_solution_list] in H. inv_bind H.
    apply (verify_solution_run _ _ _ _ _ data) in Hrun;
      [|apply Hget; now left].
    cbn zeta in Hrun. destruct Hrun as (Em & Ef & d1 & d2 & G & F1 & F2).
    cbn [fst map] in *.
    inversion Hnd as [|? ? Hk Hnd']; subst.
    cbn [fst map] in *. rewrite (Hfiles k) in * by now left.
    apply IH in H; auto.
    2: { intros; apply Hget; now right. }
    2: { intros k' Hk'. rewrite Ef.
         assert (k' <> k) by (intros ->; contradiction).
         destruct (mem_str k files0);
           [rewrite mem_str_set_diff by assumption|];
           apply Hfiles; now right. }
    destruct H as (ds & G' & Hno & Hcount & Hmodel).
    destruct (not_model_count _ F1) as [C1 N1].
    destruct (not_model_count _ F2) as [C2 N2].
    eexists. split; [eapply grows_trans; [exact G | exact G']|].
    cbn [filter].
    assert (Er : represented_model files0 (k, data)
                 = mem_str k files0 && is_model data) by reflexivity.
    rewrite Er. clear Er.
    rewrite Em in Hcount, Hmodel.
    destruct (mem_str k files0 && is_model data).
    + split; [|split].
      * rewrite !in_app_iff. intros [[H|[H|H]]|H]; try tauto.
        destruct (model_solution acc); [|destruct H].
        destruct H as [H|[]]. discriminate.
      * rewrite !count_occ_app, C1, C2, Hcount. cbn [List.length].
        destruct (model_solution acc); simpl; lia.
      * rewrite Hmodel. split; [intros [H _]|intros [_ H]]; discriminate.
    + split; [|split].
      * rewrite !in_app_iff. intros [[H|[H|H]]|H]; tauto.
      * rewrite !count_occ_app, C1, C2, Hcount. simpl. lia.
      * exact Hmodel.
Qed.

Lemma solutions_loop_other py_str solutions subtasks :
  is_dict solutions = false ->
  forall l acc st acc' st',
    verify_solution_list py_str solutions subtasks l acc st = (Ret acc', st') ->
    model_solution acc' = model_solution acc /\
    exists ds, grows st st' ds /\ Forall not_model_message ds.
Proof.
  intros Hd. induction l as [|v l IH]; intros acc st acc' st' H; simpl in H.
  - apply ret_inv in H. destruct H as [-> ->]. split; [reflexivity|].
    exists []. split; [apply grows_refl | constructor].
  - inv_bind H. unfold verify_solution in Hrun.
    inv_bind Hrun. inv_lift Hrun0. destruct a0; cbn [negb] in Hrun.
    + destruct v; try discriminate.
      inv_bind Hrun. inv_lift Hrun0.
      destruct solutions; discriminate.
    + inv_bind Hrun. rewrite error_run in Hrun0.
      inversion Hrun0; subst; clear Hrun0.
      apply ret_inv in Hrun. destruct Hrun as [-> ->].
      destruct (IH _ _ _ _ H) as [Em [ds [G F]]].
      split; [exact Em|]. eexists. split.
      * eapply grows_trans; [apply grows_add_errors | exact G].
      * constructor; [apply does_not_exist_not_model | exact F].
Qed.

Lemma dict_mem_In key d : dict_mem key d = true <-> In key (map fst d).
Proof.
  unfold dict_mem. induction d as [|[k v] d IH]; simpl.
  - split; [discriminate | contradiction].
  - destruct (String.eqb_spec k key) as [->|Hne].
    + split; auto.
    + rewrite IH. split; [auto | intros [H|H]; [contradiction | exact H]].
Qed.

Lemma dedup_pairs_NoDup ordered_pairs : forall data,
  NoDup (map fst data) -> NoDup (map fst (dedup_pairs ordered_pairs data)).
Proof.
  induction ordered_pairs as [|[k v] rest IH]; intros data Hnd; simpl;
    [exact Hnd|].
  destruct (dict_mem k data) eqn:Em; [now apply IH|].
  apply IH. rewrite map_app. simpl.
  apply NoDup_app; [exact Hnd | repeat constructor; intros [] |].
  intros a Ha [<-|[]].
  apply dict_mem_In in Ha. congruence.
Qed.

Lemma parsed_NoDup raw d : parsed raw = VDict d -> NoDup (map fst d).
Proof.
  destruct raw; simpl; try discriminate. intros H. injection H as <-.
  apply dedup_pairs_NoDup. constructor.
Qed.

Lemma dict_get_NoDup d : NoDup (map fst d) ->
  forall k data, In (k, data) d -> dict_get k d = Some data.
Proof.
  induction d as [|[k0 v0] d IH]; intros Hnd k data Hin; [destruct Hin|].
  simpl in *. inversion Hnd as [|? ? Hk Hnd']; subst.
  destruct Hin as [E|Hin].
  - injection E as -> ->. now rewrite String.eqb_refl.
  - destruct (String.eqb_spec k0 k) as [->|Hne]; [|now apply IH].
    exfalso. apply Hk. apply in_map_iff. now exists (k, data).
Qed.

Lemma load_data_result json_file keys st v st' :
  load_data json_file keys st = (Ret v, st') ->
  v = VNone \/ exists raw, v = parsed raw.
Proof.
  destruct json_file as [|closed|raw]; simpl; intros H.
  - inv_bind H. apply ret_inv in H. now left.
  - inv_bind H. inv_bind H. apply ret_inv in H. now left.
  - inv_bind H. rewrite json_load_run in Hrun. injection Hrun as <- <-.
    unfold try_KeyError in H.
    destruct ((check_keys (parsed raw) keys None ;;; ret (parsed raw))
                (add_errors st (duplicate_errors raw))) as [[a|e] s] eqn:E.
    + injection H as <- <-. inv_bind E. apply ret_inv in E.
      right. exists raw. now destruct E.
    + destruct e; try discriminate. apply ret_inv in H. now left.
Qed.

Lemma mem_str_set_of_list k l : mem_str k (set_of_list l) = mem_str k l.
Proof.
  induction l as [|x l IH]; simpl; [reflexivity|].
  unfold set_add. destruct (mem_str x (set_of_list l)) eqn:Ex.
  - rewrite IH. unfold mem_str at 2. simpl. fold (mem_str k l).
    destruct (String.eqb_spec k x) as [->|Hne]; [|reflexivity].
    simpl. now rewrite <- IH.
  - unfold mem_str in *. rewrite existsb_app, IH. simpl.
    rewrite orb_false_r. apply orb_comm.
Qed.

(** ** The model solution *)

Lemma emits_load_solutions w :
  emits not_model_message (load_data (solutions_json w) []).
Proof.
  apply emits_load_data; try (split; msg_neq).
  intros key [].
Qed.

Lemma emits_not_represented files :
  emits not_model_message
    (for_each files (fun solution => error (solution ++ " is not represented"))).
Proof.
  apply emits_for_each. intros s _. apply emits_error.
  apply not_represented_not_model.
Qed.

(** C5 (amended): when [solutions.json] and the subtasks are loaded and
    [verify_solutions] runs to completion, the error "there is no model
    solution" is recorded if and only if no represented entry (an entry whose
    file is on disk) has verdict [model_solution]; and with [n] such entries
    the error "there is more than one model solutions" is recorded [n - 1]
    times, once for every occurrence beyond the first. *)
Theorem model_solution_errors py_str w subtasks st solutions st' :
  verify_solutions py_str w subtasks st = (Ret solutions, st') ->
  solutions <> VNone ->
  subtasks <> VNone ->
  exists files ds,
    get_list_of_files (solution_dir w) = Ret files /\
    grows st st' ds /\
    (In no_model_error ds <->
     List.length (model_entries files solutions) = 0) /\
    count_occ string_dec ds more_than_one_error =
      List.length (model_entries files solutions) - 1.
Proof.
  intros H Hsol Hsub. unfold verify_solutions in H.
  inv_bind H.
  destruct (emits_load_solutions w _ _ _ Hrun) as [d0 [G0 F0]].
  apply load_data_result in Hrun.
  destruct (is_None a) eqn:En.
  { apply ret_inv in H. destruct H as [-> _]. destruct a; try discriminate.
    congruence. }
  destruct (is_None subtasks) eqn:Es.
  { destruct subtasks; try discriminate. congruence. }
  cbn [orb] in H.
  inv_bind H. inv_lift Hrun0. rename E into Efiles.
  inv_bind H. inv_lift Hrun0. rename E into Eiter.
  inv_bind H. rename Hrun0 into Hloop.
  inv_bind H. rename Hrun0 into Hcheck.
  inv_bind H.
  destruct (emits_not_represented _ _ _ _ Hrun0) as [d3 [G3 F3]].
  apply ret_inv in H. destruct H as [-> ->].
  exists a0.
  destruct (not_model_count _ F0) as [C0 N0].
  destruct (not_model_count _ F3) as [C3 N3].
  assert (Hmain : exists dl,
    grows st0 st1 dl /\ ~ In no_model_error dl /\
    count_occ string_dec dl more_than_one_error =
      List.length (model_entries a0 a) - 1 /\
    (model_solution a2 = None <-> List.length (model_entries a0 a) = 0)).
  { destruct a as [| | | | | |d]; simpl in Eiter; try discriminate.
    - injection Eiter as <-.
      destruct (solutions_loop_other py_str (VStr s) subtasks eq_refl
                  _ _ _ _ _ Hloop) as [Em [dl [Gl Fl]]].
      destruct (not_model_count _ Fl) as [Cl Nl].
      exists dl. split; [exact Gl|]. split; [exact Nl|]. split; [exact Cl|].
      split; [reflexivity | intros _; exact Em].
    - injection Eiter as <-.
      destruct (solutions_loop_other py_str (VList l) subtasks eq_refl
                  _ _ _ _ _ Hloop) as [Em [dl [Gl Fl]]].
      destruct (not_model_count _ Fl) as [Cl Nl].
      exists dl. split; [exact Gl|]. split; [exact Nl|]. split; [exact Cl|].
      split; [reflexivity | intros _; exact Em].
    - injection Eiter as <-.
      assert (Hnd : NoDup (map fst d)).
      { destruct Hrun as [Hn|[raw Hraw]]; [discriminate|].
        symmetry in Hraw. now apply parsed_NoDup in Hraw. }
      destruct (solutions_loop py_str d subtasks a0 d
                  (mkSolAcc None (set_of_list a0)) _ _ _
                  (dict_get_NoDup d Hnd) Hnd
                  (fun k _ => mem_str_set_of_list k a0) Hloop)
        as (dl & Gl & Nl & Cl & Ml).
      cbn [model_solution] in Cl, Ml. rewrite Nat.add_0_r in Cl.
      exists dl. unfold model_entries. cbn [subtask_entries].
      split; [exact Gl|]. split; [exact Nl|]. split; [exact Cl|]. split.
      + intros Hm. apply Ml in Hm. destruct Hm as [_ Hm]. now rewrite Hm.
      + intros Hl. apply Ml. split; [reflexivity|].
        now apply length_zero_iff_nil. }
  destruct Hmain as (dl & Gl & Nl & Cl & Ml).
  pose proof (grows_trans _ _ _ _ _ G0 Gl) as G1.
  destruct (model_solution a2) eqn:Emodel.
  - apply ret_inv in Hcheck. destruct Hcheck as [_ ->].
    exists ((d0 ++ dl) ++ d3). split; [exact Efiles|].
    split; [eapply grows_trans; eauto|]. split.
    + rewrite !in_app_iff. split; [tauto|].
      intros Hz. apply Ml in Hz. discriminate.
    + rewrite !count_occ_app, C0, C3, Cl. lia.
  - rewrite error_run in Hcheck. inversion Hcheck; subst; clear Hcheck.
    exists (((d0 ++ dl) ++ [no_model_error]) ++ d3). split; [exact Efiles|].
    split; [eapply grows_trans; [apply grows_snoc; exact G1 | exact G3]|].
    split.
    + rewrite !in_app_iff. split; [intros _; now apply Ml|].
      intros _. left. right. now left.
    + rewrite !count_occ_app, C0, C3, Cl. simpl. lia.
Qed.

Lemma model_solution_errors_witness :
  let w := world_with_solutions two_model_solutions ["a.cpp"; "b.cpp"] in
  let st := init "solutions.json" in
  let subtasks := VDict [("first", VDict [])] in
  exists files ds,
    get_list_of_files (solution_dir w) = Ret files /\
    grows st (snd (verify_solutions no_str w subtasks st)) ds /\
    (In no_model_error ds <->
     List.length (model_entries files two_model_solutions) = 0) /\
    count_occ string_dec ds more_than_one_error =
      List.length (model_entries files two_model_solutions) - 1.
Proof.
  intros w st subtasks.
  apply (model_solution_errors no_str w subtasks st two_model_solutions).
  - reflexivity.
  - discriminate.
  - discriminate.
Defined.

(** Scenario C of the specification: two entries with verdict
    [model_solution], both on disk. *)
Example two_model_solutions_error :
  verify_solutions no_str
    (world_with_solutions two_model_solutions ["a.cpp"; "b.cpp"])
    (VDict [("first", VDict [])]) (init "solutions.json")
  = (Ret two_model_solutions,
     mkState ["ERROR: solutions.json - there is more than one model solutions"]
             [] "solutions.json").
Proof. reflexivity. Qed.

(** ** Scenarios of the specification, evaluated *)

(** Scenario B: two subtasks scoring 60 and 30, no [samples]. *)
Example sum_of_scores_90 :
  verify_subtasks (world_with_subtasks subtasks_60_30) batch_problem
    (init "subtasks.json")
  = (Ret (VDict [("first", VDict [("index", VInt 1); ("score", VInt 60)]);
                 ("second", VDict [("index", VInt 2); ("score", VInt 30)])]),
     mkState ["ERROR: subtasks.json - samples is required";
              "ERROR: subtasks.json - sum of scores is 90"]
             [] "subtasks.json").
Proof. reflexivity. Qed.

(** [isinstance(True, int)] holds in Python: the JSON value [true] passes
    the memory_limit test as the integer 1. *)
Remark memory_limit_true_accepted st :
  check_memory_limit (VBool true) st = (Ret tt, st).
Proof. reflexivity. Qed.

(** A fractional time limit of exactly 0.5 is accepted. *)
Remark time_limit_half_accepted st :
  check_time_limit (VFloat one_half) st = (Ret tt, st).
Proof. reflexivity. Qed.

(** An entry without [index] is skipped before its score is added: a single
    subtask scoring 100 then yields the error "sum of scores is 0". *)
Example score_without_index_not_counted :
  verify_subtasks
    (world_with_subtasks
       (VDict [("global_validators", VList []);
               ("subtasks", VDict [("first", VDict [("score", VInt 100)])])]))
    output_only_problem (init "subtasks.json")
  = (Ret (VDict [("first", VDict [("score", VInt 100)])]),
     mkState ["ERROR: subtasks.json - index is required in first";
              "ERROR: subtasks.json - sum of scores is 0";
              "ERROR: subtasks.json - missing index 0 in subtask indexes"]
             [] "subtasks.json").
Proof. reflexivity. Qed.

(** * Further properties of the loader and the stages *)

(** ** [check_keys] *)

Lemma forallb_filter_negb {A} (f : A -> bool) l :
  forallb f l = match filter (fun x => negb (f x)) l with
                | [] => true
                | _ :: _ => false
                end.
Proof.
  induction l as [|x l IH]; simpl; [reflexivity|].
  destruct (f x); simpl; [exact IH | reflexivity].
Qed.

(** X1: on a mapping, [check_keys] records one error for every required key
    that is missing, in the order of the required keys, and only then
    raises [KeyError]; it returns normally, recording nothing, exactly when
    no key is missing. On a value that is not a container the membership
    test itself raises [TypeError] and nothing is recorded. *)
Theorem check_keys_reports_every_missing_key d json_name keys st :
  let missing := filter (fun key => negb (dict_mem key d)) keys in
  check_keys (VDict d) keys json_name st =
    (match missing with
     | [] => Ret tt
     | _ :: _ => Raise (KeyError None)
     end,
     add_errors st (map (key_error json_name) missing)) /\
  (forall z key rest,
      check_keys (VInt z) (key :: rest) json_name st = (Raise TypeError, st)).
Proof.
  split; [|reflexivity].
  rewrite check_keys_dict, forallb_filter_negb. unfold missing_key_errors.
  now destruct (filter (fun key => negb (dict_mem key d)) keys).
Qed.

(** ** [error_on_duplicate_keys] *)

Lemma dict_get_dedup_pairs ordered_pairs : forall data key,
  dict_get key (dedup_pairs ordered_pairs data) =
  match dict_get key data with
  | Some v => Some v
  | None => dict_get key ordered_pairs
  end.
Proof.
  induction ordered_pairs as [|[k0 v0] rest IH]; intros data key; simpl.
  - now destruct (dict_get key data).
  - destruct (dict_mem k0 data) eqn:Em.
    + rewrite IH. destruct (dict_get key data) eqn:Eg; [reflexivity|].
      destruct (String.eqb_spec k0 key) as [->|Hne]; [|reflexivity].
      unfold dict_mem in Em. rewrite Eg in Em. discriminate.
    + rewrite IH, dict_get_app. simpl.
      destruct (dict_get key data); [reflexivity|].
      now destruct (String.eqb k0 key).
Qed.

Lemma dedup_pairs_length ordered_pairs : forall data,
  List.length (repeated_keys ordered_pairs data) +
  List.length (dedup_pairs ordered_pairs data) =
  List.length ordered_pairs + List.length data.
Proof.
  induction ordered_pairs as [|[k0 v0] rest IH]; intros data; simpl.
  - reflexivity.
  - destruct (dict_mem k0 data); simpl.
    + rewrite IH. lia.
    + rewrite IH, length_app. simpl. lia.
Qed.

(** X2: the hook turns the pairs of an object into a mapping without
    repeated keys in which every key is bound to the value of its first
    occurrence, and it records one duplicate-key error for each later
    occurrence: the errors and the kept pairs add up to the pairs read. *)
Theorem error_on_duplicate_keys_first_wins ordered_pairs st :
  exists data ds,
    error_on_duplicate_keys ordered_pairs st
      = (Ret (VDict data), add_errors st ds) /\
    NoDup (map fst data) /\
    (forall key, dict_get key data = dict_get key ordered_pairs) /\
    List.length ds + List.length data = List.length ordered_pairs /\
    Forall (fun d => exists key,
                d = duplicate_key_error key /\ In key (map fst ordered_pairs))
           ds.
Proof.
  exists (dedup_pairs ordered_pairs []),
         (map duplicate_key_error (repeated_keys ordered_pairs [])).
  split; [|split; [|split; [|split]]].
  - unfold error_on_duplicate_keys, bind.
    now rewrite error_on_duplicate_keys_loop_run.
  - apply dedup_pairs_NoDup. constructor.
  - intros key. now rewrite dict_get_dedup_pairs.
  - rewrite length_map, dedup_pairs_length. simpl. lia.
  - apply Forall_forall. intros x Hx. apply in_map_iff in Hx.
    destruct Hx as [key [<- Hin]]. exists key. split; [reflexivity|].
    clear st. revert Hin. generalize (@nil (string * value)) as data.
    induction ordered_pairs as [|[k0 v0] rest IH]; intros data Hin;
      simpl in *; [contradiction|].
    destruct (dict_mem k0 data).
    + destruct Hin as [->|Hin]; [now left | right; eauto].
    + right. eauto.
Qed.

(** ** [load_data] *)

Lemma dedup_pairs_distinct ordered_pairs : forall data,
  keys_distinct (map fst ordered_pairs) = true ->
  (forall key, In key (map fst ordered_pairs) -> dict_mem key data = false) ->
  dedup_pairs ordered_pairs data = data ++ ordered_pairs /\
  repeated_keys ordered_pairs data = [].
Proof.
  induction ordered_pairs as [|[k0 v0] rest IH]; intros data Hd Hfresh;
    simpl in *.
  - now rewrite app_nil_r.
  - apply andb_true_iff in Hd. destruct Hd as [Hk Hd].
    apply negb_true_iff in Hk.
    rewrite (Hfresh k0) by now left.
    destruct (IH (data ++ [(k0, v0)]) Hd) as [E1 E2].
    + intros key Hin. rewrite dict_mem_app, (Hfresh key) by now right.
      unfold dict_mem. simpl.
      destruct (String.eqb_spec k0 key) as [->|Hne]; [|reflexivity].
      exfalso.
      assert (Hex : existsb (String.eqb key) (map fst rest) = true).
      { apply existsb_exists. exists key. split; [exact Hin|].
        apply String.eqb_refl. }
      congruence.
    + rewrite E1, E2, <- app_assoc. now split.
Qed.

Lemma parsed_without_duplicates raw :
  has_duplicate_key raw = false ->
  parsed raw = raw /\ duplicate_errors raw = [].
Proof.
  induction raw as [| | | | |l IH|d IH] using value_rect'; simpl; intros H;
    try (split; reflexivity).
  - assert (E : map parsed l = l /\ flat_map duplicate_errors l = []).
    { induction IH as [|x xs Hx _ IHxs]; simpl in *; [now split|].
      apply orb_false_iff in H. destruct H as [H1 H2].
      destruct (Hx H1) as [-> ->]. destruct (IHxs H2) as [-> ->].
      now split. }
    destruct E as [-> ->]. now split.
  - apply orb_false_iff in H. destruct H as [Hk Hc].
    apply negb_false_iff in Hk.
    assert (E : map (fun kv => (fst kv, parsed (snd kv))) d = d /\
                flat_map (fun kv => duplicate_errors (snd kv)) d = []).
    { clear Hk. induction IH as [|[k x] xs Hx _ IHxs]; simpl in *;
        [now split|].
      apply orb_false_iff in Hc. destruct Hc as [H1 H2].
      destruct (Hx H1) as [-> ->]. destruct (IHxs H2) as [-> ->].
      now split. }
    destruct E as [-> ->].
    destruct (dedup_pairs_distinct d [] Hk (fun _ _ => eq_refl)) as [-> ->].
    now split.
Qed.

(** X3: a document in which no object repeats a key, and which has its
    required keys, loads as it is written and records no diagnostic. *)
Theorem load_data_without_duplicates raw required_keys st :
  has_duplicate_key raw = false ->
  (forall key, In key required_keys -> str_in key raw = Ret true) ->
  load_data (Document raw) required_keys st = (Ret raw, st).
Proof.
  intros Hdup Hkeys. simpl. unfold bind at 1. rewrite json_load_run.
  destruct (parsed_without_duplicates raw Hdup) as [-> ->].
  rewrite add_errors_nil. unfold try_KeyError, check_keys, bind.
  now rewrite check_keys_loop_present.
Qed.

Lemma load_data_without_duplicates_witness :
  load_data (Document batch_problem)
    ["name"; "title"; "type"; "time_limit"; "memory_limit"]
    (init "problem.json")
  = (Ret batch_problem, init "problem.json").
Proof.
  apply load_data_without_duplicates; [reflexivity|].
  intros key Hin. simpl in Hin.
  repeat (destruct Hin as [<-|Hin]; [reflexivity|]). destruct Hin.
Defined.

Lemma check_keys_loop_flag data json_name keys : forall flag st b st',
  check_keys_loop data keys json_name flag st = (Ret b, st') ->
  (flag = true -> b = true) /\
  (b = false -> st' = st /\
                forall key, In key keys -> str_in key data = Ret true) /\
  (flag = false -> b = true ->
   List.length (errors st) < List.length (errors st')) /\
  List.length (errors st) <= List.length (errors st').
Proof.
  induction keys as [|key rest IH]; intros flag st b st' H; simpl in H.
  - apply ret_inv in H. destruct H as [-> ->].
    repeat split; auto; try (intros; congruence); try contradiction.
  - inv_bind H. inv_lift Hrun. destruct a.
    + destruct (IH _ _ _ _ H) as (I1 & I2 & I3 & I4).
      split; [exact I1|]. split; [|split; [exact I3 | exact I4]].
      intros Hb. destruct (I2 Hb) as [-> Hall]. split; [reflexivity|].
      intros k [<-|Hk]; [exact E | now apply Hall].
    + inv_bind H.
      assert (Hst : List.length (errors st0) = S (List.length (errors st))).
      { destruct (truthy_name json_name); rewrite error_run in Hrun;
          inversion Hrun; subst; simpl; rewrite length_app; simpl; lia. }
      destruct (IH _ _ _ _ H) as (I1 & I2 & I3 & I4).
      specialize (I1 eq_refl). subst b.
      split; [reflexivity|]. split; [discriminate|]. split; [intros; lia | lia].
Qed.

(** X4: whatever [load_data] returns that is not [None] has every required
    key, so the stages may subscript it with those keys. *)
Theorem load_data_has_required_keys json_file required_keys st data st' :
  load_data json_file required_keys st = (Ret data, st') ->
  data <> VNone ->
  forall key, In key required_keys -> str_in key data = Ret true.
Proof.
  intros H Hnone. destruct json_file as [|closed|raw]; simpl in H.
  - inv_bind H. apply ret_inv in H. destruct H. congruence.
  - inv_bind H. inv_bind H. apply ret_inv in H. destruct H. congruence.
  - inv_bind H. unfold try_KeyError in H.
    destruct ((check_keys a required_keys None ;;; ret a) st0)
      as [[v|e] s] eqn:E.
    + injection H as <- <-. inv_bind E. apply ret_inv in E.
      destruct E as [-> ->]. unfold check_keys in Hrun0. inv_bind Hrun0.
      destruct a1; [discriminate|].
      now apply (check_keys_loop_flag _ _ _ _ _ _ _ Hrun1).
    + destruct e; try discriminate. apply ret_inv in H. destruct H.
      congruence.
Qed.

Lemma load_data_has_required_keys_witness :
  str_in "type" batch_problem = Ret true.
Proof.
  apply (load_data_has_required_keys (Document batch_problem)
           ["name"; "title"; "type"; "time_limit"; "memory_limit"]
           (init "problem.json") batch_problem (init "problem.json")).
  - reflexivity.
  - discriminate.
  - simpl. tauto.
Defined.

Lemma grows_length st st' ds :
  grows st st' ds ->
  List.length (errors st') = List.length (errors st) + List.length ds.
Proof. intros [_ E]. now rewrite E, length_app, length_map. Qed.

(** X5: [load_data] never fails silently. When it returns [None] it has
    recorded an error, the one exception being a document that is the
    literal [null] loaded with no required key, which is returned as [None]
    without any diagnostic. *)
Theorem load_data_none_is_reported json_file required_keys st st' :
  load_data json_file required_keys st = (Ret VNone, st') ->
  List.length (errors st) < List.length (errors st') \/
  (json_file = Document VNone /\ required_keys = [] /\ st' = st).
Proof.
  intros H. destruct json_file as [|closed|raw]; simpl in H.
  - left. inv_bind H. apply ret_inv in H. destruct H as [_ ->].
    rewrite error_run in Hrun. inversion Hrun; subst. simpl.
    rewrite length_app. simpl. lia.
  - left. inv_bind H. inv_bind H. apply ret_inv in H. destruct H as [_ ->].
    assert (He : emits (fun _ => True)
                   (for_each closed (fun raw => json_load raw ;;; ret tt))).
    { apply emits_for_each. intros raw _.
      apply emits_bind; [now apply emits_json_load | intros; apply emits_ret]. }
    destruct (He _ _ _ Hrun) as [ds [G _]]. apply grows_length in G.
    rewrite error_run in Hrun0. inversion Hrun0; subst. simpl.
    rewrite length_app. simpl. lia.
  - inv_bind H. rewrite json_load_run in Hrun. injection Hrun as <- <-.
    unfold try_KeyError in H.
    destruct ((check_keys (parsed raw) required_keys None ;;; ret (parsed raw))
                (add_errors st (duplicate_errors raw))) as [[v|e] s] eqn:E.
    + injection H as -> <-. inv_bind E. apply ret_inv in E.
      destruct E as [Hp ->]. destruct raw; try discriminate. right.
      destruct required_keys as [|key rest];
        unfold check_keys, bind in Hrun; simpl in Hrun; [|discriminate].
      unfold ret in Hrun. injection Hrun as _ <-.
      split; [reflexivity|]. split; [reflexivity|]. simpl.
      now rewrite add_errors_nil.
    + destruct e; try discriminate. apply ret_inv in H. destruct H as [_ ->].
      left. unfold bind in E.
      destruct (check_keys (parsed raw) required_keys None
                  (add_errors st (duplicate_errors raw)))
        as [[u|e] s1] eqn:Ec; [discriminate|].
      injection E as -> <-. unfold check_keys in Ec. unfold bind in Ec.
      destruct (check_keys_loop (parsed raw) required_keys None false
                  (add_errors st (duplicate_errors raw)))
        as [[b|e'] s2] eqn:El.
      * destruct b; [|discriminate]. injection Ec as _ <-.
        destruct (check_keys_loop_flag _ _ _ _ _ _ _ El) as (_ & _ & I3 & _).
        specialize (I3 eq_refl eq_refl). simpl in I3.
        rewrite length_app in I3. lia.
      * injection Ec as -> ->.
        (* the loop itself raised: it never raises KeyError *)
        exfalso. clear -El.
        revert El. generalize (add_errors st (duplicate_errors raw)) as s0.
        generalize false as flag.
        induction required_keys as [|key rest IH]; intros flag s0 El;
          simpl in El; [discriminate|].
        unfold bind, lift in El.
        destruct (str_in key (parsed raw)) as [[|]|e0] eqn:Es.
        -- now apply IH in El.
        -- destruct (truthy_name None); simpl in El; now apply IH in El.
        -- injection El as -> _.
           destruct (parsed raw); simpl in Es; discriminate.
Qed.

Lemma load_data_none_is_reported_witness :
  List.length (errors (init "problem.json")) <
  List.length (errors (snd (load_data Missing ["name"] (init "problem.json"))))
  \/ (Missing = Document VNone /\ ["name"] = [] /\
      snd (load_data Missing ["name"] (init "problem.json"))
      = init "problem.json").
Proof.
  apply (load_data_none_is_reported Missing ["name"] (init "problem.json")).
  reflexivity.
Defined.

(** ** [is_ignored] and [get_list_of_files] *)

Lemma string_of_list_ascii_app l1 l2 :
  string_of_list_ascii (l1 ++ l2) =
  (string_of_list_ascii l1 ++ string_of_list_ascii l2)%string.
Proof. induction l1 as [|c l1 IH]; simpl; [reflexivity | now rewrite IH]. Qed.

Lemma rev_string_app (a b : string) :
  rev_string (a ++ b) = (rev_string b ++ rev_string a)%string.
Proof.
  unfold rev_string.
  now rewrite list_ascii_of_string_app, rev_app_distr,
    string_of_list_ascii_app.
Qed.

Lemma rev_string_involutive (s : string) : rev_string (rev_string s) = s.
Proof.
  unfold rev_string.
  now rewrite list_ascii_of_string_of_list_ascii, rev_involutive,
    string_of_list_ascii_of_string.
Qed.

Lemma prefix_spec (a : string) : forall s,
  prefix a s = true <-> exists t, s = (a ++ t)%string.
Proof.
  induction a as [|c a IH]; intros s.
  - split; [intros _; now exists s | intros _; apply prefix_nil].
  - destruct s as [|c' s]; simpl.
    + split; [discriminate | intros [t Ht]; discriminate].
    + destruct (ascii_dec c c') as [->|Hne].
      * rewrite IH. split; intros [t Ht]; exists t; [now rewrite Ht|].
        now injection Ht.
      * split; [discriminate|]. intros [t Ht]. injection Ht as Hc _.
        congruence.
Qed.

Lemma ends_with_spec (ending s : string) :
  ends_with ending s = true <-> exists p, s = (p ++ ending)%string.
Proof.
  unfold ends_with. rewrite prefix_spec. split.
  - intros [t Ht]. exists (rev_string t).
    rewrite <- (rev_string_involutive s), Ht, rev_string_app.
    now rewrite rev_string_involutive.
  - intros [p ->]. exists (rev_string p). apply rev_string_app.
Qed.

(** X6: [get_list_of_files] keeps, in the order of the listing, exactly the
    names that do not end with [.exe], [.class] or [~]; when the directory
    cannot be listed it raises. *)
Theorem get_list_of_files_keeps_sources listing files :
  get_list_of_files (Some listing) = Ret files ->
  files = filter (fun f => negb (is_ignored f)) listing /\
  (forall f, In f files <->
     In f listing /\
     ~ (exists p, f = p ++ ".exe" \/ f = p ++ ".class" \/ f = p ++ "~")%string)
  /\ get_list_of_files None = Raise OSError.
Proof.
  intros H. injection H as <-. split; [reflexivity|]. split; [|reflexivity].
  intros f. rewrite filter_In. unfold is_ignored. simpl.
  rewrite negb_true_iff, !orb_false_iff.
  split; intros [Hin Hs]; (split; [exact Hin|]).
  - destruct Hs as (H1 & H2 & H3 & _).
    intros [p [E|[E|E]]].
    + assert (ends_with ".exe" f = true) by (apply ends_with_spec; eauto).
      congruence.
    + assert (ends_with ".class" f = true) by (apply ends_with_spec; eauto).
      congruence.
    + assert (ends_with "~" f = true) by (apply ends_with_spec; eauto).
      congruence.
  - repeat split.
    + destruct (ends_with ".exe" f) eqn:E; [|reflexivity].
      apply ends_with_spec in E. destruct E as [p E]. exfalso. apply Hs. eauto.
    + destruct (ends_with ".class" f) eqn:E; [|reflexivity].
      apply ends_with_spec in E. destruct E as [p E]. exfalso. apply Hs. eauto.
    + destruct (ends_with "~" f) eqn:E; [|reflexivity].
      apply ends_with_spec in E. destruct E as [p E]. exfalso. apply Hs. eauto.
Qed.

Lemma get_list_of_files_keeps_sources_witness :
  ["sol.cpp"; "Brute.java"] =
  filter (fun f => negb (is_ignored f))
         ["sol.cpp"; "sol.exe"; "Brute.java"; "Brute.class"; "notes~"].
Proof.
  exact (proj1 (get_list_of_files_keeps_sources
                  ["sol.cpp"; "sol.exe"; "Brute.java"; "Brute.class"; "notes~"]
                  ["sol.cpp"; "Brute.java"] eq_refl)).
Defined.

(** ** [verify_existence] *)

Lemma verify_existence_run w files st :
  verify_existence w files st =
  (Ret tt, add_errors st (filter (fun f => negb (isfile w f)) files)).
Proof.
  unfold verify_existence. revert st.
  induction files as [|f files IH]; intros st; simpl.
  - unfold ret. now rewrite add_errors_nil.
  - unfold bind. destruct (isfile w f); cbn [negb].
    + unfold ret at 1. apply IH.
    + rewrite error_run, IH, add_errors_app. reflexivity.
Qed.

(** X7: [verify_existence] never raises and records one error per path that
    is not a file under the package root, in the order of the list, the
    description being the path itself. *)
Theorem verify_existence_reports_missing w files st :
  verify_existence w files st =
  (Ret tt, add_errors st (filter (fun f => negb (isfile w f)) files)).
Proof. apply verify_existence_run. Qed.

(** ** [check_validator_key] *)

Lemma in_set_add x s l : In x (set_add s l) <-> x = s \/ In x l.
Proof.
  unfold set_add. destruct (mem_str s l) eqn:E.
  - split; [auto|]. intros [->|H]; [|exact H].
    unfold mem_str in E. apply existsb_exists in E.
    destruct E as [y [Hy Ey]]. apply String.eqb_eq in Ey. now subst.
  - rewrite in_app_iff. simpl. intuition.
Qed.

Lemma check_validators_run validators_list name parName files :
  forall index used st,
  exists used' ds,
    check_validators validators_list index name parName files used st
      = (Ret used', add_errors st ds) /\
    List.length ds = List.length (filter (bad_validator files) validators_list)
    /\
    (forall f, In f used' <->
       In f used \/ exists v, In v validators_list /\ uses_file files v f).
Proof.
  induction validators_list as [|v rest IH]; intros index used st.
  - exists used, []. simpl. unfold ret. rewrite add_errors_nil.
    split; [reflexivity|]. split; [reflexivity|].
    intros f. split; [auto | intros [H|[v [[] _]]]; exact H].
  - assert (Hbad : bad_validator files v = true ->
      (forall f, ~ uses_file files v f) ->
      forall description,
      exists used' ds,
        (error description ;;;
         check_validators rest (index + 1) name parName files used) st
          = (Ret used', add_errors st ds) /\
        List.length ds =
          List.length (filter (bad_validator files) (v :: rest)) /\
        (forall f, In f used' <->
           In f used \/ exists v', In v' (v :: rest) /\ uses_file files v' f)).
    { intros Hb Hno description.
      destruct (IH (index + 1)%Z used (add_errors st [description]))
        as (used' & ds & E & Hl & Hu).
      exists used', (description :: ds). unfold bind. rewrite error_run, E.
      rewrite add_errors_app. split; [reflexivity|].
      cbn [filter]. rewrite Hb. simpl. split; [now rewrite Hl|].
      intros f. rewrite Hu. split; intros [H|[v' [Hin Hv']]]; auto.
      + right. exists v'. split; [now right | exact Hv'].
      + destruct Hin as [<-|Hin]; [now apply Hno in Hv'|].
        right. now exists v'. }
    assert (Hnot : forall f, ~ is_str v = true -> ~ uses_file files v f).
    { intros f Hs [line [-> _]]. now apply Hs. }
    destruct v as [| | | |line| |];
      try (apply Hbad; [reflexivity | intros ?; now apply Hnot]).
    assert (Hfilter : List.length (filter (bad_validator files) (VStr line :: rest))
              = (if str_contains "." (first_token line) &&
                    negb (mem_str (first_token line) files)
                 then 1 else 0)
                + List.length (filter (bad_validator files) rest)).
    { cbn [filter bad_validator].
      now destruct (str_contains "." (first_token line) &&
                    negb (mem_str (first_token line) files)). }
    destruct (str_contains "." (first_token line)) eqn:Edot;
      [destruct (mem_str (first_token line) files) eqn:Emem|].
    + destruct (IH (index + 1)%Z (set_add (first_token line) used) st)
        as (used' & ds & E & Hl & Hu).
      exists used', ds. cbn [check_validators]. rewrite Edot, Emem.
      cbn [negb]. split; [exact E|]. split; [now rewrite Hfilter, Hl|].
      intros f. rewrite Hu, in_set_add. split.
      * intros [[->|H]|[v' [Hin Hv']]]; auto.
        -- right. exists (VStr line). split; [now left|]. now exists line.
        -- right. exists v'. split; [now right | exact Hv'].
      * intros [H|[v' [[<-|Hin] Hv']]]; auto.
        -- destruct Hv' as [line' [E' [<- _]]]. injection E' as <-. auto.
        -- right. now exists v'.
    + cbn [check_validators]. rewrite Edot, Emem. cbn [negb].
      apply Hbad.
      * simpl. now rewrite Edot, Emem.
      * intros f [line' [E' [<- [_ Hm]]]]. injection E' as <-. congruence.
    + destruct (IH (index + 1)%Z used st) as (used' & ds & E & Hl & Hu).
      exists used', ds. cbn [check_validators]. rewrite Edot.
      split; [exact E|]. split; [now rewrite Hfilter, Hl|].
      intros f. rewrite Hu. split; intros [H|[v' [Hin Hv']]]; auto.
      * right. exists v'. split; [now right | exact Hv'].
      * destruct Hin as [<-|Hin]; [|right; now exists v'].
        destruct Hv' as [line' [E' [<- [Hd _]]]]. injection E' as <-.
        congruence.
Qed.

(** X8: the loop over a list of validators never raises; it records one
    error for each entry that is not a string or whose command names a file
    that is not among the validator files, and the set of used validators
    it returns is the one it was given plus exactly the commands that name
    a validator file. *)
Theorem check_validators_used validators_list name parName files :
  forall index used st,
  exists used' ds,
    check_validators validators_list index name parName files used st
      = (Ret used', add_errors st ds) /\
    List.length ds = List.length (filter (bad_validator files) validators_list)
    /\
    (forall f, In f used' <->
       In f used \/ exists v, In v validators_list /\ uses_file files v f).
Proof.
  apply check_validators_run.
Qed.

(** ** [verify_problem]: the errors it records *)

Lemma silent_grows {A} (m : M A) st r st' :
  emits (fun _ => False) m -> m st = (r, st') -> grows st st' [].
Proof.
  intros Hm H. destruct (Hm _ _ _ H) as [ds [G F]].
  destruct ds as [|d ds]; [exact G|]. inversion F; contradiction.
Qed.

Lemma when_error_run (c : bool) description st :
  (if c then error description else ret tt) st =
  (Ret tt, add_errors st (when c description)).
Proof.
  destruct c; [reflexivity|]. unfold ret, when. now rewrite add_errors_nil.
Qed.

Lemma silent_check_git_name w name :
  emits (fun _ => False) (check_git_name w name).
Proof.
  unfold check_git_name. destruct (git_basename w); [|apply emits_raise].
  destruct (eq_str name _); [apply emits_ret | apply emits_warning].
Qed.

Lemma silent_check_statement py_str w title :
  emits (fun _ => False) (check_statement py_str w title).
Proof.
  unfold check_statement. destruct (statement w); [|apply emits_warning].
  destruct (find _ l); [|apply emits_warning].
  destruct (negb _); [apply emits_warning|].
  destruct (eq_str title _); [apply emits_ret | apply emits_warning].
Qed.

Lemma name_block_run w name st a st' :
  (if negb (is_str name) then error "name is not a string"
   else if env_true (WEB_TERMINAL w) then ret tt
        else check_git_name w name) st = (Ret a, st') ->
  grows st st' (when (negb (is_str name)) "name is not a string").
Proof.
  destruct (negb (is_str name)); intros H.
  - rewrite error_run in H. inversion H; subst. apply grows_add_errors.
  - destruct (env_true (WEB_TERMINAL w)).
    + apply ret_inv in H. destruct H as [_ ->]. apply grows_refl.
    + eapply silent_grows; [apply silent_check_git_name | exact H].
Qed.

Lemma flag_block_run problem key description (k : value -> M unit) present
    st a st' :
  str_in key problem = Ret present ->
  (forall v, emits (fun _ => False) (k v)) ->
  (if present then
     v <- lift (getitem problem key) ;;
     if negb (is_bool v) then error description else k v
   else ret tt) st = (Ret a, st') ->
  grows st st' (flag_errors problem key description).
Proof.
  intros Hin Hk H. unfold flag_errors. rewrite Hin. destruct present.
  - inv_bind H. inv_lift Hrun. unfold item. rewrite E.
    destruct (negb (is_bool a0)).
    + rewrite error_run in H. inversion H; subst. apply grows_add_errors.
    + eapply silent_grows; [apply Hk | exact H].
  - apply ret_inv in H. destruct H as [_ ->]. apply grows_refl.
Qed.

Lemma type_check_run type st :
  (if negb (is_str type) || negb (existsb (eq_str type) valid_problem_types)
   then error ("type should be one of " ++ join "/" valid_problem_types)
   else ret tt) st
  = (Ret tt, add_errors st (when (negb (valid_type type)) type_error)).
Proof.
  assert (E : negb (is_str type)
              || negb (existsb (eq_str type) valid_problem_types)
              = negb (valid_type type)).
  { destruct type; reflexivity. }
  rewrite E. apply when_error_run.
Qed.

Lemma check_time_limit_when time_limit st :
  check_time_limit time_limit st =
  (Ret tt,
   add_errors st
     (when (negb (time_limit_accepted time_limit)) time_limit_error)).
Proof.
  rewrite check_time_limit_run. unfold time_limit_accepted, when.
  destruct time_limit; simpl; try reflexivity.
  destruct (SFltb f one_half); simpl; [reflexivity|].
  now rewrite add_errors_nil.
Qed.

Lemma check_memory_limit_when memory st :
  check_memory_limit memory st =
  (Ret tt,
   add_errors st
     (when (negb (memory_limit_accepted memory)) memory_limit_error)).
Proof.
  unfold check_memory_limit, memory_limit_accepted, when.
  destruct (as_int memory) as [m|]; [|reflexivity].
  replace (1 <=? m)%Z with (negb (m <? 1)%Z)
    by (destruct (Z.ltb_spec m 1), (Z.leb_spec 1 m); simpl; lia || reflexivity).
  destruct (m <? 1)%Z; simpl; [reflexivity|].
  destruct (Z.land m (m - 1) =? 0)%Z; simpl; [|reflexivity].
  unfold ret. now rewrite add_errors_nil.
Qed.

Lemma verify_problem_run py_str w st problem st' :
  verify_problem py_str w st = (Ret problem, st') ->
  problem <> VNone ->
  exists st0,
    load_data (problem_json w) problem_keys st = (Ret problem, st0) /\
    grows st0 st' (problem_errors problem).
Proof.
  intros H Hnone. unfold verify_problem in H.
  inv_bind H. destruct (is_None a) eqn:En.
  { apply ret_inv in H. destruct H as [-> _]. destruct a; try discriminate.
    congruence. }
  inv_bind H. inv_lift Hrun0. rename E into Ename.
  inv_bind H. apply name_block_run in Hrun0. rename Hrun0 into Gname.
  inv_bind H. inv_lift Hrun0. rename E into Etitle.
  inv_bind H. rewrite when_error_run in Hrun0. rename Hrun0 into Rtitle.
  inv_bind H.
  apply (silent_grows _ _ _ _ (silent_check_statement _ _ _)) in Hrun0.
  rename Hrun0 into Gstmt.
  inv_bind H. inv_lift Hrun0. rename E into Etype.
  inv_bind H. rewrite type_check_run in Hrun0. rename Hrun0 into Rtype.
  inv_bind H. inv_lift Hrun0. rename E into Egin.
  inv_bind H. rename Hrun0 into Rgrader.
  inv_bind H. inv_lift Hrun0. rename E into Emin.
  inv_bind H. rename Hrun0 into Rmanager.
  inv_bind H. inv_lift Hrun0. rename E into Etime.
  inv_bind H. rewrite check_time_limit_when in Hrun0. rename Hrun0 into Rtime.
  inv_bind H. inv_lift Hrun0. rename E into Ememory.
  inv_bind H. rewrite check_memory_limit_when in Hrun0.
  rename Hrun0 into Rmemory.
  apply ret_inv in H. destruct H as [-> ->].
  apply (flag_block_run a "has_grader" "has_grader should be a boolean"
           (fun v => if eq_str a5 "OutputOnly" && is_True v
                     then warning "output only problems could not have grader"
                     else ret tt) _ _ _ _ Egin) in Rgrader.
  2: { intros v. destruct (_ && _); [apply emits_warning | apply emits_ret]. }
  apply (flag_block_run a "has_manager" "has_manager should be a boolean"
           (fun v =>
              (if eq_str a5 "Communication" && is_False v
               then warning "communication problems must have manager"
               else ret tt) ;;;
              (if eq_str a5 "OutputOnly" && is_True v
               then warning "output only problems could not have manager"
               else ret tt)) _ _ _ _ Emin) in Rmanager.
  2: { intros v. apply emits_bind; [|intros _];
         (destruct (_ && _); [apply emits_warning | apply emits_ret]). }
  inversion Rtitle; subst; clear Rtitle.
  inversion Rtype; subst; clear Rtype.
  inversion Rtime; subst; clear Rtime.
  inversion Rmemory; subst; clear Rmemory.
  exists st0. split; [exact Hrun|].
  unfold problem_errors, item. rewrite Ename, Etitle, Etype, Etime, Ememory.
  eapply grows_trans; [exact Gname|].
  eapply grows_trans; [apply grows_add_errors|].
  apply (grows_trans _ _ _ [] _ Gstmt). cbn [app].
  eapply grows_trans; [apply grows_add_errors|].
  eapply grows_trans; [exact Rgrader|].
  eapply grows_trans; [exact Rmanager|].
  eapply grows_trans; [apply grows_add_errors|].
  apply grows_add_errors.
Qed.

Lemma emits_load_message json_file keys :
  emits (load_message keys) (load_data json_file keys).
Proof.
  apply emits_load_data; unfold load_message.
  - intros key. left. now exists key.
  - right. now left.
  - right. right. now left.
  - intros key Hin. right. right. right. now exists key.
Qed.

Lemma verify_problem_is_dict py_str w st problem st' :
  verify_problem py_str w st = (Ret problem, st') ->
  problem <> VNone -> is_dict problem = true.
Proof.
  intros H Hnone. unfold verify_problem in H.
  inv_bind H. destruct (is_None a) eqn:En.
  { apply ret_inv in H. destruct H as [-> _]. destruct a; try discriminate.
    congruence. }
  inv_bind H. inv_lift Hrun0.
  assert (problem = a).
  { repeat inv_bind H. apply ret_inv in H. now destruct H. }
  subst. destruct a; simpl in E; try discriminate. reflexivity.
Qed.

Lemma in_when x c description :
  In x (when c description) <-> c = true /\ x = description.
Proof.
  destruct c; simpl; split; try tauto.
  - intros [<-|[]]. now split.
  - intros [_ ->]. now left.
  - intros [H _]. discriminate.
Qed.

Lemma when_nil c description : when c description = [] <-> c = false.
Proof. destruct c; simpl; split; congruence. Qed.

Lemma flag_errors_nil problem key description :
  is_dict problem = true ->
  (flag_errors problem key description = [] <-> flag_ok problem key = true).
Proof.
  destruct problem; try discriminate. intros _.
  unfold flag_errors, flag_ok, item, getitem, str_in, dict_mem.
  destruct (dict_get key d) as [v|]; [|tauto].
  rewrite when_nil. now destruct (is_bool v).
Qed.

Lemma in_flag_errors x problem key description :
  is_dict problem = true ->
  (In x (flag_errors problem key description) <->
   flag_ok problem key = false /\ x = description).
Proof.
  destruct problem; try discriminate. intros _.
  unfold flag_errors, flag_ok, item, getitem, str_in, dict_mem.
  destruct (dict_get key d) as [v|].
  - rewrite in_when. now destruct (is_bool v).
  - simpl. split; [contradiction | intros [H _]; discriminate].
Qed.

Lemma mem_str_In s l : mem_str s l = true <-> In s l.
Proof.
  unfold mem_str. rewrite existsb_exists. split.
  - intros [x [Hin Hx]]. apply String.eqb_eq in Hx. now subst.
  - intros Hin. exists s. split; [exact Hin | apply String.eqb_refl].
Qed.

Lemma verify_problem_passes py_str w st problem st' :
  verify_problem py_str w st = (Ret problem, st') ->
  problem <> VNone ->
  exists st0,
    load_data (problem_json w) problem_keys st = (Ret problem, st0) /\
    (errors st' = errors st0 <-> passes_checks problem).
Proof.
  intros H Hnone.
  pose proof (verify_problem_is_dict _ _ _ _ _ H Hnone) as Hd.
  destruct (verify_problem_run _ _ _ _ _ H Hnone) as [st0 [Hload G]].
  exists st0. split; [exact Hload|].
  assert (Hnil : errors st' = errors st0 <-> problem_errors problem = []).
  { destruct G as [_ E]. rewrite E. split.
    - intros Heq. rewrite <- (app_nil_r (errors st0)) in Heq at 2.
      apply app_inv_head in Heq. now apply map_eq_nil in Heq.
    - intros ->. simpl. apply app_nil_r. }
  rewrite Hnil. unfold problem_errors, passes_checks.
  split.
  - intros E.
    repeat (apply app_eq_nil in E; destruct E as [?E E]).
    rewrite when_nil, negb_false_iff in *.
    rewrite flag_errors_nil in * by exact Hd. tauto.
  - intros (H1 & H2 & H3 & H4 & H5 & H6 & H7).
    rewrite H1, H2, H3, H6, H7. simpl.
    rewrite (proj2 (flag_errors_nil problem "has_grader" _ Hd) H4).
    now rewrite (proj2 (flag_errors_nil problem "has_manager" _ Hd) H5).
Qed.

(** What each test of [verify_problem] lets through, value by value. *)

Lemma is_str_value v : is_str v = true <-> exists s, v = VStr s.
Proof.
  split; [|now intros [s ->]].
  destruct v; try discriminate. intros _. now eexists.
Qed.

Lemma valid_type_value v :
  valid_type v = true <-> exists s, v = VStr s /\ In s valid_problem_types.
Proof.
  split.
  - destruct v; try discriminate. cbn [valid_type]. intros H.
    apply mem_str_In in H. now eexists.
  - intros [s [-> H]]. cbn [valid_type]. now apply mem_str_In.
Qed.

Lemma flag_ok_value problem key :
  flag_ok problem key = true <-> optional_boolean problem key.
Proof.
  unfold flag_ok, optional_boolean. split.
  - intros H v E. rewrite E in H. destruct v; try discriminate. now eexists.
  - intros H. destruct (getitem problem key) as [v|]; [|reflexivity].
    destruct (H v eq_refl) as [b ->]. reflexivity.
Qed.

Lemma time_limit_accepted_value v :
  time_limit_accepted v = true <->
  float_at_least_half v \/ v = VFloat S754_nan.
Proof.
  unfold float_at_least_half. split.
  - destruct v as [| | |f| | |]; try discriminate. unfold time_limit_accepted.
    unfold SFltb. destruct (SFcompare f one_half) as [[| |]|] eqn:E;
      try discriminate; intros _.
    + left. exists f. auto.
    + left. exists f. auto.
    + right. destruct f; try reflexivity; discriminate E.
  - intros [[f [-> [E|E]]]| ->]; unfold time_limit_accepted, SFltb.
    + now rewrite E.
    + now rewrite E.
    + reflexivity.
Qed.

Lemma memory_limit_accepted_value v :
  memory_limit_accepted v = true <->
  json_integer_power_of_two v \/ v = VBool true.
Proof.
  unfold json_integer_power_of_two. split.
  - destruct v as [|[|]|m| | | |]; try discriminate; [auto|].
    unfold memory_limit_accepted. cbn [as_int]. intros H.
    apply andb_prop in H. destruct H as [Hge Hz].
    apply Z.leb_le in Hge. apply Z.eqb_eq in Hz.
    left. exists m. split; [reflexivity|].
    now apply land_pred_power_of_two.
  - intros [[m [-> Hp]]| ->]; [|reflexivity].
    unfold memory_limit_accepted. cbn [as_int].
    pose proof (power_of_two_pos m Hp) as Hge.
    apply andb_true_intro. split; [now apply Z.leb_le|].
    apply Z.eqb_eq. now apply land_pred_power_of_two.
Qed.

Lemma passes_checks_well_formed problem :
  passes_checks problem <-> problem_well_formed problem.
Proof.
  unfold passes_checks, problem_well_formed.
  rewrite !is_str_value, valid_type_value, !flag_ok_value,
    time_limit_accepted_value, memory_limit_accepted_value.
  reflexivity.
Qed.

(** X9: once [problem.json] is loaded, [verify_problem] records no error
    of its own exactly when [name] and [title] are strings, [type] is one of
    the four problem types, [has_grader] and [has_manager] are booleans when
    present, [time_limit] is a float of at least 0.5 or the float NaN, and
    [memory_limit] is a JSON integer power of two or the boolean [true]; it
    then returns the problem it loaded. *)
Theorem verify_problem_sound py_str w st problem st' :
  verify_problem py_str w st = (Ret problem, st') ->
  problem <> VNone ->
  exists st0,
    load_data (problem_json w) problem_keys st = (Ret problem, st0) /\
    (errors st' = errors st0 <-> problem_well_formed problem).
Proof.
  intros H Hnone.
  destruct (verify_problem_passes _ _ _ _ _ H Hnone) as [st0 [Hload Hiff]].
  exists st0. split; [exact Hload|].
  rewrite Hiff. apply passes_checks_well_formed.
Qed.

Lemma verify_problem_sound_witness :
  let w := well_formed_problem_world in
  let st := init "problem.json" in
  exists st0,
    load_data (problem_json w) problem_keys st = (Ret batch_problem, st0) /\
    (errors (snd (verify_problem no_str w st)) = errors st0 <->
     problem_well_formed batch_problem).
Proof.
  intros w st.
  apply (verify_problem_sound no_str w st batch_problem).
  - reflexivity.
  - discriminate.
Defined.

Lemma in_problem_errors x problem :
  is_dict problem = true ->
  (In x (problem_errors problem) <->
   (is_str (item problem "name") = false /\ x = "name is not a string") \/
   (is_str (item problem "title") = false /\ x = "title is not a string") \/
   (valid_type (item problem "type") = false /\ x = type_error) \/
   (flag_ok problem "has_grader" = false /\
    x = "has_grader should be a boolean") \/
   (flag_ok problem "has_manager" = false /\
    x = "has_manager should be a boolean") \/
   (time_limit_accepted (item problem "time_limit") = false /\
    x = time_limit_error) \/
   (memory_limit_accepted (item problem "memory_limit") = false /\
    x = memory_limit_error)).
Proof.
  intros Hd. unfold problem_errors.
  rewrite !in_app_iff, !in_when, !negb_true_iff.
  rewrite !in_flag_errors by exact Hd. tauto.
Qed.

Lemma load_message_not (keys : list string) (x : string) :
  (forall key, x <> duplicate_key_error key) ->
  x <> "file does not exists" -> x <> "invalid json" ->
  (forall key, In key keys -> x <> required_error key) ->
  forall d0, Forall (load_message keys) d0 -> ~ In x d0.
Proof.
  intros H1 H2 H3 H4 d0 F Hin. rewrite Forall_forall in F.
  destruct (F _ Hin) as [[key E]|[E|[E|[key [Hk E]]]]]; subst.
  - now apply (H1 key).
  - now apply H2.
  - now apply H3.
  - now apply (H4 key Hk).
Qed.

(** The run of [verify_problem] on a loaded problem, its errors split into
    those of loading and those about the fields. *)
Lemma verify_problem_errors py_str w st problem st' :
  verify_problem py_str w st = (Ret problem, st') ->
  problem <> VNone ->
  exists d0,
    grows st st' (d0 ++ problem_errors problem) /\
    Forall (load_message problem_keys) d0 /\
    is_dict problem = true.
Proof.
  intros H Hnone.
  pose proof (verify_problem_is_dict _ _ _ _ _ H Hnone) as Hd.
  destruct (verify_problem_run _ _ _ _ _ H Hnone) as [st0 [Hload G]].
  destruct (emits_load_message _ _ _ _ _ Hload) as [d0 [G0 F0]].
  exists d0. split; [eapply grows_trans; eauto|]. now split.
Qed.

Ltac not_loaded F Hl :=
  exfalso; revert Hl;
  apply (fun h1 h2 h3 h4 =>
           load_message_not problem_keys _ h1 h2 h3 h4 _ F);
  [ intros key; msg_neq | msg_neq | msg_neq
  | intros key Hin; unfold problem_keys in Hin; in_cases; msg_neq ].

Ltac other_fields :=
  repeat match goal with
         | H : _ \/ _ |- _ => destruct H as [H|H]
         | H : _ /\ _ = _ |- _ =>
             let E := fresh "E" in
             destruct H as [H E]; try (exfalso; cbv in E; discriminate E)
         end.

(** X10: once [problem.json] is loaded, the time_limit error is recorded
    exactly when the [time_limit] value is not a float, or is a float below
    0.5; integers, booleans and strings are all rejected. *)
Theorem time_limit_error_iff py_str w st problem st' :
  verify_problem py_str w st = (Ret problem, st') ->
  problem <> VNone ->
  exists ds,
    grows st st' ds /\
    (In time_limit_error ds <->
     time_limit_accepted (item problem "time_limit") = false).
Proof.
  intros H Hnone.
  destruct (verify_problem_errors _ _ _ _ _ H Hnone) as (d0 & G & F0 & Hd).
  eexists. split; [exact G|].
  rewrite in_app_iff, in_problem_errors by exact Hd. split.
  - intros [Hl|Hp].
    + not_loaded F0 Hl.
    + other_fields. exact Hp.
  - intros Hc. right. tauto.
Qed.

Lemma time_limit_error_iff_witness :
  let w := well_formed_problem_world in
  let st := init "problem.json" in
  exists ds,
    grows st (snd (verify_problem no_str w st)) ds /\
    (In time_limit_error ds <->
     time_limit_accepted (item batch_problem "time_limit") = false).
Proof.
  intros w st. apply (time_limit_error_iff no_str w st batch_problem).
  - reflexivity.
  - discriminate.
Defined.

(** X11: once [problem.json] is loaded, the type error is recorded exactly
    when the [type] value is not one of the strings [Batch],
    [Communication], [OutputOnly], [TwoSteps]. *)
Theorem type_error_iff py_str w st problem st' :
  verify_problem py_str w st = (Ret problem, st') ->
  problem <> VNone ->
  exists ds,
    grows st st' ds /\
    (In type_error ds <-> valid_type (item problem "type") = false).
Proof.
  intros H Hnone.
  destruct (verify_problem_errors _ _ _ _ _ H Hnone) as (d0 & G & F0 & Hd).
  eexists. split; [exact G|].
  rewrite in_app_iff, in_problem_errors by exact Hd. split.
  - intros [Hl|Hp].
    + not_loaded F0 Hl.
    + other_fields. exact Hp.
  - intros Hc. right. tauto.
Qed.

Lemma type_error_iff_witness :
  let w := well_formed_problem_world in
  let st := init "problem.json" in
  exists ds,
    grows st (snd (verify_problem no_str w st)) ds /\
    (In type_error ds <-> valid_type (item batch_problem "type") = false).
Proof.
  intros w st. apply (type_error_iff no_str w st batch_problem).
  - reflexivity.
  - discriminate.
Defined.

(** X12: once [problem.json] is loaded, [name] and [title] each get their
    "is not a string" error exactly when the value is not a string, and
    [has_grader] and [has_manager] each get their "should be a boolean"
    error exactly when the key is present with a value that is not a
    boolean. *)
Theorem string_and_flag_errors_iff py_str w st problem st' :
  verify_problem py_str w st = (Ret problem, st') ->
  problem <> VNone ->
  exists ds,
    grows st st' ds /\
    (In "name is not a string" ds <-> is_str (item problem "name") = false) /\
    (In "title is not a string" ds <->
     is_str (item problem "title") = false) /\
    (In "has_grader should be a boolean" ds <->
     flag_ok problem "has_grader" = false) /\
    (In "has_manager should be a boolean" ds <->
     flag_ok problem "has_manager" = false).
Proof.
  intros H Hnone.
  destruct (verify_problem_errors _ _ _ _ _ H Hnone) as (d0 & G & F0 & Hd).
  eexists. split; [exact G|].
  rewrite !in_app_iff, !in_problem_errors by exact Hd.
  repeat split;
    try (intros [Hl|Hp]; [not_loaded F0 Hl | other_fields; exact Hp]);
    intros Hc; right; tauto.
Qed.

Lemma string_and_flag_errors_iff_witness :
  let w := well_formed_problem_world in
  let st := init "problem.json" in
  exists ds,
    grows st (snd (verify_problem no_str w st)) ds /\
    (In "name is not a string" ds <->
     is_str (item batch_problem "name") = false) /\
    (In "title is not a string" ds <->
     is_str (item batch_problem "title") = false) /\
    (In "has_grader should be a boolean" ds <->
     flag_ok batch_problem "has_grader" = false) /\
    (In "has_manager should be a boolean" ds <->
     flag_ok batch_problem "has_manager" = false).
Proof.
  intros w st. apply (string_and_flag_errors_iff no_str w st batch_problem).
  - reflexivity.
  - discriminate.
Defined.

(** ** Entries of [solutions.json] against the files of [solution/] *)

Lemma in_set_of_list x l : In x (set_of_list l) <-> In x l.
Proof.
  induction l as [|y l IH]; simpl; [tauto|].
  rewrite in_set_add, IH. intuition.
Qed.

Lemma NoDup_set_of_list l : NoDup (set_of_list l).
Proof.
  induction l as [|y l IH]; simpl; [constructor|].
  unfold set_add. destruct (mem_str y (set_of_list l)) eqn:E; [exact IH|].
  apply NoDup_app; [exact IH | repeat constructor; intros [] |].
  intros x Hx [<-|[]]. apply mem_str_In in Hx. congruence.
Qed.

Lemma set_diff_cons l x excluded :
  set_diff l (x :: excluded) = set_diff (set_diff l [x]) excluded.
Proof.
  unfold set_diff. induction l as [|y l IH]; [reflexivity|].
  cbn [filter].
  change (mem_str y (x :: excluded))
    with (String.eqb y x || mem_str y excluded).
  change (mem_str y [x]) with (String.eqb y x || false).
  destruct (String.eqb y x); cbn [orb negb]; [exact IH|].
  cbn [filter]. destruct (mem_str y excluded); cbn [negb]; now rewrite IH.
Qed.

Lemma set_diff_absent l x : mem_str x l = false -> set_diff l [x] = l.
Proof.
  unfold set_diff. induction l as [|y l IH]; [reflexivity|].
  intros H. unfold mem_str in H. cbn [existsb] in H.
  apply orb_false_elim in H. destruct H as [Hxy Hl].
  cbn [filter]. change (mem_str y [x]) with (String.eqb y x || false).
  rewrite String.eqb_sym, Hxy. cbn [orb negb]. f_equal. now apply IH.
Qed.

Lemma mem_str_set_diff_false k l excluded :
  mem_str k l = false -> mem_str k (set_diff l excluded) = false.
Proof.
  intros H. destruct (mem_str k (set_diff l excluded)) eqn:E; [|reflexivity].
  apply mem_str_In in E. unfold set_diff in E. apply filter_In in E.
  destruct E as [E _]. apply mem_str_In in E. congruence.
Qed.

Lemma for_each_error_run (f : string -> string) l st :
  for_each l (fun s => error (f s)) st = (Ret tt, add_errors st (map f l)).
Proof.
  revert st. induction l as [|x l IH]; intros st; simpl.
  - unfold ret. now rewrite add_errors_nil.
  - unfold bind. rewrite error_run, IH, add_errors_app. reflexivity.
Qed.

Lemma solution_files_loop py_str d subtasks :
  forall (l : list (string * value)) acc st acc' st',
  verify_solution_list py_str (VDict d) subtasks
    (map (fun kv => VStr (fst kv)) l) acc st = (Ret acc', st') ->
  solution_files acc' = set_diff (solution_files acc) (map fst l) /\
  exists ds,
    grows st st' ds /\
    forall k, In k (map fst l) -> mem_str k (solution_files acc) = false ->
              In (k ++ " does not exists")%string ds.
Proof.
  induction l as [|[k0 v0] l IH]; intros acc st acc' st' H; simpl in H.
  - apply ret_inv in H. destruct H as [-> ->]. split.
    + unfold set_diff. simpl. symmetry. apply forallb_filter_id.
      apply forallb_forall. reflexivity.
    + exists []. split; [apply grows_refl | intros k []].
  - inv_bind H. rename Hrun into Hone. cbn [fst] in Hone.
    unfold verify_solution in Hone.
    inv_bind Hone. inv_lift Hrun. simpl in E. injection E as <-.
    destruct (mem_str k0 (solution_files acc)) eqn:Ep; cbn [negb] in Hone.
    + inv_bind Hone. inv_lift Hrun. inv_bind Hone.
      apply verify_solution_entry_run in Hrun.
      destruct Hrun as [_ (d1 & d2 & G & _)].
      apply ret_inv in Hone. destruct Hone as [-> ->].
      apply IH in H. cbn [solution_files] in H.
      destruct H as [Hf (ds & Gl & Hl)]. split.
      * cbn [map fst]. now rewrite set_diff_cons.
      * eexists. split; [eapply grows_trans; [exact G | exact Gl]|].
        intros k Hin Hk; cbn [map fst In] in Hin;
        destruct Hin as [<-|Hin]; [congruence|].
        apply in_or_app. right. apply Hl; [exact Hin|].
        now apply mem_str_set_diff_false.
    + inv_bind Hone. rewrite error_run in Hrun.
      inversion Hrun; subst; clear Hrun.
      apply ret_inv in Hone. destruct Hone as [-> ->].
      apply IH in H. destruct H as [Hf (ds & Gl & Hl)]. split.
      * cbn [map fst]. rewrite set_diff_cons, set_diff_absent by exact Ep.
        exact Hf.
      * eexists. split; [eapply grows_trans; [apply grows_add_errors | exact Gl]|].
        intros k Hin Hk; cbn [map fst In] in Hin;
        destruct Hin as [<-|Hin]; [now left|].
        apply in_or_app. right. now apply Hl.
Qed.

(** X13: when [verify_solutions] runs to completion on a loaded object and
    the subtasks are loaded, every key of [solutions.json] that names no file
    of [solution/] is reported as "does not exists", and the run ends with
    one "is not represented" error for each file of [solution/] (ignored
    files left out) that is not a key of [solutions.json], each file once. *)
Theorem solutions_and_files_matched py_str w subtasks st d st' :
  verify_solutions py_str w subtasks st = (Ret (VDict d), st') ->
  subtasks <> VNone ->
  exists listing ds unrepresented,
    get_list_of_files (solution_dir w) = Ret listing /\
    grows st st'
      (ds ++ map (fun f => f ++ " is not represented")%string unrepresented) /\
    (forall k, dict_mem k d = true -> mem_str k listing = false ->
               In (k ++ " does not exists")%string ds) /\
    NoDup unrepresented /\
    (forall f, In f unrepresented <-> In f listing /\ dict_mem f d = false).
Proof.
  intros H Hsub. unfold verify_solutions in H.
  inv_bind H.
  destruct (emits_load_solutions w _ _ _ Hrun) as [d0 [G0 _]].
  destruct (is_None a) eqn:En.
  { apply ret_inv in H. destruct H as [Ha _]. subst a. discriminate. }
  destruct (is_None subtasks) eqn:Es.
  { destruct subtasks; try discriminate. congruence. }
  cbn [orb] in H.
  inv_bind H. inv_lift Hrun0. rename E into Efiles.
  inv_bind H. inv_lift Hrun0. rename E into Eiter.
  inv_bind H. rename Hrun0 into Hloop.
  inv_bind H. rename Hrun0 into Hcheck.
  inv_bind H. rewrite for_each_error_run in Hrun0.
  inversion Hrun0; subst; clear Hrun0.
  apply ret_inv in H. destruct H as [Ha Hs]. subst a st'.
  simpl in Eiter. injection Eiter as <-.
  apply solution_files_loop in Hloop. cbn [solution_files] in Hloop.
  destruct Hloop as [Hf (dl & Gl & Hl)].
  assert (Hc : exists dc, grows st0 st2 (dl ++ dc)).
  { destruct (model_solution a2).
    - apply ret_inv in Hcheck. destruct Hcheck as [_ ->].
      exists []. now rewrite app_nil_r.
    - rewrite error_run in Hcheck. inversion Hcheck; subst; clear Hcheck.
      eexists. apply grows_snoc. exact Gl. }
  destruct Hc as [dc Gc].
  exists a0, (d0 ++ dl ++ dc), (solution_files a2).
  split; [exact Efiles|]. split.
  { eapply grows_trans; [eapply grows_trans; [exact G0 | exact Gc]|].
    apply grows_add_errors. }
  split.
  { intros k Hk Hm. rewrite !in_app_iff. right. left.
    apply Hl; [now apply dict_mem_In|]. now rewrite mem_str_set_of_list. }
  rewrite Hf. split.
  { unfold set_diff. apply NoDup_filter, NoDup_set_of_list. }
  intros f. unfold set_diff. rewrite filter_In, in_set_of_list.
  rewrite negb_true_iff. split; intros [Hin Hm]; (split; [exact Hin|]).
  - destruct (dict_mem f d) eqn:Ed; [|reflexivity].
    apply dict_mem_In, mem_str_In in Ed. congruence.
  - destruct (mem_str f (map fst d)) eqn:Ed; [|reflexivity].
    apply mem_str_In, dict_mem_In in Ed. congruence.
Qed.

Lemma solutions_and_files_matched_witness :
  let w := world_with_solutions two_model_solutions ["a.cpp"; "c.cpp"] in
  let st := init "solutions.json" in
  let subtasks := VDict [("first", VDict [])] in
  let d := [("a.cpp", VDict [("verdict", VStr "model_solution")]);
            ("b.cpp", VDict [("verdict", VStr "model_solution")])] in
  exists listing ds unrepresented,
    get_list_of_files (solution_dir w) = Ret listing /\
    grows st (snd (verify_solutions no_str w subtasks st))
      (ds ++ map (fun f => f ++ " is not represented")%string unrepresented) /\
    (forall k, dict_mem k d = true -> mem_str k listing = false ->
               In (k ++ " does not exists")%string ds) /\
    NoDup unrepresented /\
    (forall f, In f unrepresented <-> In f listing /\ dict_mem f d = false).
Proof.
  intros w st subtasks d.
  apply (solutions_and_files_matched no_str w subtasks st d).
  - reflexivity.
  - discriminate.
Defined.

(** ** The whole run *)

(** X14: when [verify] runs to completion it prints the report of the final
    state, and the errors end with one "not found" line for each required
    file that is missing from the package: the necessary files, the grader
    files when [HAS_GRADER] is [true] and the manager files when
    [HAS_MANAGER] is [true].  So a run that ends without errors found every
    required file. *)
Theorem verify_checks_required_files py_str w st out st' :
  verify py_str w st = (Ret out, st') ->
  out = report st' /\
  (exists earlier,
     errors st' =
     (earlier ++
      map (error_line "not found")
        (filter (fun f => negb (isfile w f)) (required_files w)))%list) /\
  (errors st' = [] -> forall f, In f (required_files w) -> isfile w f = true).
Proof.
  intros H. unfold verify in H.
  do 10 inv_bind H.
  rename Hrun5 into Hns, Hrun6 into Hnec, Hrun7 into Hgrader,
         Hrun8 into Hmanager.
  unfold set_namespace in Hns. inversion Hns; subst; clear Hns.
  rewrite verify_existence_run in Hnec. inversion Hnec; subst; clear Hnec.
  inversion H; subst; clear H.
  set (st_nf := mkState (errors st5) (warnings st5) "not found") in *.
  assert (E : st' = add_errors st_nf
                (filter (fun f => negb (isfile w f)) (required_files w))).
  { unfold required_files. rewrite !filter_app, <- !add_errors_app.
    destruct (env_true (HAS_GRADER w)).
    - rewrite verify_existence_run in Hgrader.
      inversion Hgrader; subst; clear Hgrader.
      destruct (env_true (HAS_MANAGER w)).
      + rewrite verify_existence_run in Hmanager.
        inversion Hmanager; subst; clear Hmanager. reflexivity.
      + apply ret_inv in Hmanager. destruct Hmanager as [_ ->].
        cbn [filter]. now rewrite add_errors_nil.
    - apply ret_inv in Hgrader. destruct Hgrader as [_ ->].
      cbn [filter]. rewrite add_errors_nil.
      destruct (env_true (HAS_MANAGER w)).
      + rewrite verify_existence_run in Hmanager.
        inversion Hmanager; subst; clear Hmanager. reflexivity.
      + apply ret_inv in Hmanager. destruct Hmanager as [_ ->].
        cbn [filter]. now rewrite add_errors_nil. }
  split; [reflexivity|].
  assert (Ee : errors st' =
               (errors st5 ++
                map (error_line "not found")
                  (filter (fun f => negb (isfile w f)) (required_files w)))%list).
  { rewrite E. reflexivity. }
  split; [now exists (errors st5)|].
  intros Hnil f Hin. rewrite Ee in Hnil. apply app_eq_nil in Hnil.
  destruct Hnil as [_ Hnil]. apply map_eq_nil in Hnil.
  destruct (isfile w f) eqn:Ef; [reflexivity|].
  assert (Hf : In f (filter (fun f => negb (isfile w f)) (required_files w))).
  { apply filter_In. split; [exact Hin|]. now rewrite Ef. }
  rewrite Hnil in Hf. destruct Hf.
Qed.

Lemma verify_checks_required_files_witness :
  let w := world_with_solutions two_model_solutions ["a.cpp"; "b.cpp"] in
  let st := init EmptyString in
  let st' := snd (verify no_str w st) in
  report st' = report st' /\
  (exists earlier,
     errors st' =
     (earlier ++
      map (error_line "not found")
        (filter (fun f => negb (isfile w f)) (required_files w)))%list) /\
  (errors st' = [] -> forall f, In f (required_files w) -> isfile w f = true).
Proof.
  intros w st st'.
  apply (verify_checks_required_files no_str w st (report st') st').
  reflexivity.
Defined.

(** X15: when [problem.json] could not be loaded and [verify_subtasks]
    returns all the same, it returns [None], and [verify_solutions] then does
    no more than load [solutions.json]: the files of [solution/] are not
    listed and no entry is checked. *)
Theorem solutions_unchecked_after_failed_problem py_str w st subtasks st1 :
  verify_subtasks w VNone st = (Ret subtasks, st1) ->
  subtasks = VNone /\
  forall st2,
    verify_solutions py_str w subtasks st2 =
    load_data (solutions_json w) [] st2.
Proof.
  intros H. apply verify_subtasks_without_problem in H. subst subtasks.
  split; [reflexivity|]. intros st2. apply verify_solutions_without_subtasks.
Qed.

Lemma solutions_unchecked_after_failed_problem_witness :
  let w := world_with_missing_subtasks in
  VNone = VNone /\
  forall st2,
    verify_solutions no_str w VNone st2 = load_data (solutions_json w) [] st2.
Proof.
  intros w.
  apply (solutions_unchecked_after_failed_problem no_str w
           (init "subtasks.json") VNone
           (snd (verify_subtasks w VNone (init "subtasks.json")))).
  reflexivity.
Defined.

(** ** [strip] and the checks of the name and the statement *)

Lemma lstrip_blank sp pad s :
  blank_with sp pad = true ->
  lstrip_with sp (pad ++ s) = lstrip_with sp s.
Proof.
  unfold blank_with. induction pad as [|c pad IH]; simpl; [reflexivity|].
  intros H. apply andb_prop in H. destruct H as [Hc Hp].
  rewrite Hc. now apply IH.
Qed.




Lemma lstrip_append sp s x :
  lstrip_with sp (s ++ x) =
  match lstrip_with sp s with
  | EmptyString => lstrip_with sp x
  | stripped => (stripped ++ x)%string
  end.
Proof.
  induction s as [|c s IH]; simpl.
  - destruct (lstrip_with sp x); reflexivity.
  - destruct (sp c); [exact IH | reflexivity].
Qed.


Lemma blank_rev_string sp s :
  blank_with sp s = true -> blank_with sp (rev_string s) = true.
Proof.
  unfold blank_with, rev_string. rewrite list_ascii_of_string_of_list_ascii.
  rewrite !forallb_forall. intros H c Hc. apply H. now apply in_rev.
Qed.



(** Whitespace around a text does not change what [strip] returns. *)
Lemma strip_padded sp pad s trail :
  blank_with sp pad = true -> blank_with sp trail = true ->
  strip_with sp (pad ++ s ++ trail) = strip_with sp s.
Proof.
  intros Hp Ht. unfold strip_with.
  rewrite lstrip_blank by exact Hp. rewrite lstrip_append.
  destruct (lstrip_with sp s) as [|c stripped] eqn:E.
  - rewrite <- (append_nil_r trail), lstrip_blank by exact Ht. reflexivity.
  - rewrite rev_string_app, lstrip_blank; [reflexivity|].
    now apply blank_rev_string.
Qed.









Lemma drop_last4_append (name ext : string) :
  String.length ext = 4 -> drop_last4 (name ++ ext) = name.
Proof.
  intros H. unfold drop_last4. rewrite length_append, H, Nat.add_sub.
  pose proof (substring_middle EmptyString name ext) as E.
  exact E.
Qed.

(** X17: the name check reads the base name of the remote, strips the
    whitespace around it and drops its last four characters, whatever they
    are; a problem whose name is the rest passes without a warning or an
    error. *)
Theorem git_name_accepted w name ext pad trail st :
  git_basename w = Some (pad ++ (name ++ ext) ++ trail)%string ->
  blank_bytes pad = true -> blank_bytes trail = true ->
  bytes_strip (name ++ ext) = (name ++ ext)%string ->
  String.length ext = 4 ->
  check_git_name w (VStr name) st = (Ret tt, st).
Proof.
  intros Hg Hp Ht Hs He. unfold check_git_name. rewrite Hg.
  unfold bytes_strip in *. rewrite strip_padded by assumption.
  rewrite Hs, drop_last4_append by exact He.
  cbn [eq_str]. now rewrite String.eqb_refl.
Qed.

Lemma git_name_accepted_witness :
  check_git_name well_formed_problem_world (VStr "sum") (init "problem.json")
  = (Ret tt, init "problem.json").
Proof.
  apply (git_name_accepted well_formed_problem_world "sum" ".git"
           EmptyString EmptyString).
  - reflexivity.
  - reflexivity.
  - reflexivity.
  - reflexivity.
  - reflexivity.
Defined.

(** ** The warnings of [verify_problem] *)

Lemma warned_refl st : warned st st [].
Proof. split; [reflexivity|]. simpl. now rewrite app_nil_r. Qed.

Lemma warned_trans st1 st2 st3 a b :
  warned st1 st2 a -> warned st2 st3 b -> warned st1 st3 (a ++ b).
Proof.
  intros [N1 W1] [N2 W2]. split; [congruence|].
  rewrite W2, W1, N1, map_app, app_assoc. reflexivity.
Qed.

Lemma warned_add_errors st ds : warned st (add_errors st ds) [].
Proof. split; [reflexivity|]. simpl. now rewrite app_nil_r. Qed.

Lemma warns_ret {A} P (a : A) : warns P (ret a).
Proof.
  intros st r st' H. injection H as <- <-. exists []. split;
    [apply warned_refl | constructor].
Qed.

Lemma warns_raise {A} P e : warns P (@raise A e).
Proof.
  intros st r st' H. injection H as <- <-. exists []. split;
    [apply warned_refl | constructor].
Qed.

Lemma warns_lift {A} P (o : outcome A) : warns P (lift o).
Proof.
  intros st r st' H. injection H as <- <-. exists []. split;
    [apply warned_refl | constructor].
Qed.

Lemma warns_error P d : warns P (error d).
Proof.
  intros st r st' H. injection H as <- <-. exists []. split;
    [|constructor]. split; [reflexivity|]. simpl. now rewrite app_nil_r.
Qed.

Lemma warns_warning (P : string -> Prop) d : P d -> warns P (warning d).
Proof.
  intros Hd st r st' H. injection H as <- <-. exists [d]. split;
    [|now constructor]. split; reflexivity.
Qed.

Lemma warns_bind {A B} P (m : M A) (f : A -> M B) :
  warns P m -> (forall a, warns P (f a)) -> warns P (bind m f).
Proof.
  intros Hm Hf st r st' Hrun. unfold bind in Hrun.
  destruct (m st) as [[a|e] st1] eqn:Em.
  - destruct (Hm _ _ _ Em) as [d1 [G1 F1]].
    destruct (Hf a _ _ _ Hrun) as [d2 [G2 F2]].
    exists (d1 ++ d2)%list. split; [eapply warned_trans; eauto|].
    apply Forall_app. now split.
  - injection Hrun as <- <-. exact (Hm _ _ _ Em).
Qed.

Lemma warns_try {A} P (m : M A) h :
  warns P m -> (forall a, warns P (h a)) -> warns P (try_KeyError m h).
Proof.
  intros Hm Hh st r st' Hrun. unfold try_KeyError in Hrun.
  destruct (m st) as [[a|e] st1] eqn:Em.
  - injection Hrun as <- <-. exact (Hm _ _ _ Em).
  - destruct (Hm _ _ _ Em) as [d1 [G1 F1]].
    destruct e; try (injection Hrun as <- <-; exists d1; now split).
    destruct (Hh arg _ _ _ Hrun) as [d2 [G2 F2]].
    exists (d1 ++ d2)%list. split; [eapply warned_trans; eauto|].
    apply Forall_app. now split.
Qed.

Lemma warns_for_each {A} P (l : list A) body :
  (forall x, In x l -> warns P (body x)) -> warns P (for_each l body).
Proof.
  induction l as [|x l IH]; intros Hb; simpl.
  - apply warns_ret.
  - apply warns_bind.
    + apply Hb. now left.
    + intros _. apply IH. intros y Hy. apply Hb. now right.
Qed.

Lemma warns_json_load P raw : warns P (json_load raw).
Proof.
  intros st r st' Hrun. rewrite json_load_run in Hrun.
  injection Hrun as <- <-. exists []. split;
    [apply warned_add_errors | constructor].
Qed.

Lemma warns_check_keys_loop P data json_name keys :
  forall flag, warns P (check_keys_loop data keys json_name flag).
Proof.
  induction keys as [|key rest IH]; intros flag; simpl.
  - apply warns_ret.
  - apply warns_bind; [apply warns_lift|]. intros present.
    destruct present; [apply IH|].
    apply warns_bind; [|intros _; apply IH].
    destruct (truthy_name json_name); apply warns_error.
Qed.

Lemma warns_load_data P json_file keys : warns P (load_data json_file keys).
Proof.
  destruct json_file as [|closed|raw]; simpl.
  - apply warns_bind; [apply warns_error | intros _; apply warns_ret].
  - apply warns_bind.
    + apply warns_for_each. intros raw _.
      apply warns_bind; [apply warns_json_load | intros _; apply warns_ret].
    + intros _. apply warns_bind; [apply warns_error|].
      intros _. apply warns_ret.
  - apply warns_bind; [apply warns_json_load|]. intros data.
    apply warns_try; [|intros _; apply warns_ret].
    apply warns_bind; [|intros _; apply warns_ret].
    unfold check_keys. apply warns_bind.
    + apply warns_check_keys_loop.
    + intros [|]; [apply warns_raise | apply warns_ret].
Qed.

Lemma warns_check_git_name w name :
  warns (fun d => ~ flag_warning d) (check_git_name w name).
Proof.
  unfold check_git_name. destruct (git_basename w); [|apply warns_raise].
  destruct (eq_str name _); [apply warns_ret|].
  apply warns_warning. intros [H|[H|H]]; discriminate H.
Qed.

Lemma warns_check_statement py_str w title :
  warns (fun d => ~ flag_warning d) (check_statement py_str w title).
Proof.
  unfold check_statement.
  destruct (statement w);
    [|apply warns_warning; intros [H|[H|H]]; discriminate H].
  destruct (find _ l);
    [|apply warns_warning; intros [H|[H|H]]; discriminate H].
  destruct (negb _);
    [apply warns_warning; intros [H|[H|H]]; discriminate H|].
  destruct (eq_str title _); [apply warns_ret|].
  apply warns_warning. intros [H|[H|H]]; cbn in H; discriminate H.
Qed.

Lemma when_warning_run (c : bool) description st st' :
  (if c then warning description else ret tt) st = (Ret tt, st') ->
  warned st st' (when c description).
Proof.
  destruct c; intros H.
  - injection H as <-. split; reflexivity.
  - apply ret_inv in H. destruct H as [_ ->]. apply warned_refl.
Qed.

Lemma warned_eq st st' a b : warned st st' a -> a = b -> warned st st' b.
Proof. now intros H <-. Qed.

Lemma grader_block_warned d type present st r st' :
  str_in "has_grader" (VDict d) = Ret present ->
  (if present then
     has_grader <- lift (getitem (VDict d) "has_grader") ;;
     if negb (is_bool has_grader) then error "has_grader should be a boolean"
     else if eq_str type "OutputOnly" && is_True has_grader
          then warning "output only problems could not have grader"
          else ret tt
   else ret tt) st = (Ret r, st') ->
  warned st st'
    (when (eq_str type "OutputOnly" && is_True (item (VDict d) "has_grader"))
          grader_warning).
Proof.
  intros Hin H. simpl in Hin. injection Hin as <-.
  unfold item, getitem, dict_mem in *.
  destruct (dict_get "has_grader" d) as [v|].
  - unfold bind, lift in H. destruct r.
    destruct (is_bool v) eqn:Eb; cbn [negb] in H.
    + now apply when_warning_run.
    + rewrite error_run in H. inversion H; subst.
      destruct v; try discriminate Eb;
        rewrite andb_false_r; apply warned_add_errors.
  - apply ret_inv in H. destruct H as [_ ->].
    rewrite andb_false_r. apply warned_refl.
Qed.

Lemma manager_block_warned d type present st r st' :
  str_in "has_manager" (VDict d) = Ret present ->
  (if present then
     has_manager <- lift (getitem (VDict d) "has_manager") ;;
     if negb (is_bool has_manager)
     then error "has_manager should be a boolean"
     else
       (if eq_str type "Communication" && is_False has_manager
        then warning "communication problems must have manager"
        else ret tt) ;;;
       (if eq_str type "OutputOnly" && is_True has_manager
        then warning "output only problems could not have manager"
        else ret tt)
   else ret tt) st = (Ret r, st') ->
  warned st st'
    (when (eq_str type "Communication" &&
           is_False (item (VDict d) "has_manager")) manager_missing_warning ++
     when (eq_str type "OutputOnly" &&
           is_True (item (VDict d) "has_manager")) manager_warning).
Proof.
  intros Hin H. simpl in Hin. injection Hin as <-.
  unfold item, getitem, dict_mem in *.
  destruct (dict_get "has_manager" d) as [v|].
  - unfold bind at 1, lift in H. destruct r.
    destruct (is_bool v) eqn:Eb; cbn [negb] in H.
    + inv_bind H. destruct a.
      eapply warned_trans; apply when_warning_run; eassumption.
    + rewrite error_run in H. inversion H; subst.
      destruct v; try discriminate Eb;
        rewrite !andb_false_r; apply warned_add_errors.
  - apply ret_inv in H. destruct H as [_ ->].
    rewrite !andb_false_r. apply warned_refl.
Qed.

Lemma verify_problem_warnings py_str w st problem st' :
  verify_problem py_str w st = (Ret problem, st') ->
  problem <> VNone ->
  exists ws,
    warned st st' (ws ++ flag_warnings problem) /\
    Forall (fun d => ~ flag_warning d) ws.
Proof.
  intros H Hnone. unfold verify_problem in H.
  inv_bind H. destruct (is_None a) eqn:En.
  { apply ret_inv in H. destruct H as [-> _]. destruct a; try discriminate.
    congruence. }
  destruct (warns_load_data (fun d => ~ flag_warning d) _ _ _ _ _ Hrun)
    as (w0 & W0 & F0).
  inv_bind H. inv_lift Hrun0. rename E into Ename.
  destruct a as [| | | | | |d]; try discriminate Ename.
  inv_bind H. rename Hrun0 into Rname.
  assert (Wname : warns (fun d => ~ flag_warning d)
                    (if negb (is_str a0) then error "name is not a string"
                     else if env_true (WEB_TERMINAL w) then ret tt
                          else check_git_name w a0)).
  { destruct (negb (is_str a0)); [apply warns_error|].
    destruct (env_true (WEB_TERMINAL w));
      [apply warns_ret | apply warns_check_git_name]. }
  destruct (Wname _ _ _ Rname) as (w1 & W1 & F1). clear Wname Rname.
  inv_bind H. inv_lift Hrun0. rename E into Etitle.
  inv_bind H. rewrite when_error_run in Hrun0.
  inversion Hrun0; subst; clear Hrun0.
  inv_bind H.
  destruct (warns_check_statement _ _ _ _ _ _ Hrun0) as (w2 & W2 & F2).
  clear Hrun0.
  inv_bind H. inv_lift Hrun0. rename E into Etype.
  match type of Etype with _ = Ret ?t => rename t into type end.
  inv_bind H. rewrite type_check_run in Hrun0.
  inversion Hrun0; subst; clear Hrun0.
  inv_bind H. inv_lift Hrun0.
  inv_bind H. apply (grader_block_warned _ _ _ _ _ _ E) in Hrun0.
  rename Hrun0 into Wg. clear E.
  inv_bind H. inv_lift Hrun0.
  inv_bind H. apply (manager_block_warned _ _ _ _ _ _ E) in Hrun0.
  rename Hrun0 into Wm. clear E.
  inv_bind H. inv_lift Hrun0. rename E into Etime.
  inv_bind H. rewrite check_time_limit_when in Hrun0.
  inversion Hrun0; subst; clear Hrun0.
  inv_bind H. inv_lift Hrun0. rename E into Ememory.
  inv_bind H. rewrite check_memory_limit_when in Hrun0.
  inversion Hrun0; subst; clear Hrun0.
  apply ret_inv in H. destruct H as [-> ->].
  exists ((w0 ++ w1) ++ w2)%list. split;
    [|repeat (apply Forall_app; split); assumption].
  assert (Et : item (VDict d) "type" = type) by (unfold item; now rewrite Etype).
  unfold flag_warnings. rewrite Et.
  eapply warned_eq.
  - eapply warned_trans; [exact W0|].
    eapply warned_trans; [exact W1|].
    eapply warned_trans; [apply warned_add_errors|].
    eapply warned_trans; [exact W2|].
    eapply warned_trans; [apply warned_add_errors|].
    eapply warned_trans; [exact Wg|].
    eapply warned_trans; [exact Wm|].
    eapply warned_trans; apply warned_add_errors.
  - cbn [app]. rewrite ?app_nil_r, <- ?app_assoc. reflexivity.
Qed.

Lemma in_flag_warnings x problem :
  In x (flag_warnings problem) <->
  (x = grader_warning /\
   eq_str (item problem "type") "OutputOnly" &&
   is_True (item problem "has_grader") = true) \/
  (x = manager_missing_warning /\
   eq_str (item problem "type") "Communication" &&
   is_False (item problem "has_manager") = true) \/
  (x = manager_warning /\
   eq_str (item problem "type") "OutputOnly" &&
   is_True (item problem "has_manager") = true).
Proof.
  unfold flag_warnings. cbv zeta. rewrite !in_app_iff, !in_when.
  intuition congruence.
Qed.

Lemma is_True_eq v : is_True v = true <-> v = VBool true.
Proof.
  split; [|now intros ->].
  destruct v as [|[|]| | | | |]; try discriminate. reflexivity.
Qed.

Lemma is_False_eq v : is_False v = true <-> v = VBool false.
Proof.
  split; [|now intros ->].
  destruct v as [|[|]| | | | |]; try discriminate. reflexivity.
Qed.

Lemma eq_str_eq v s : eq_str v s = true <-> v = VStr s.
Proof.
  split; [|intros ->; apply String.eqb_refl].
  destruct v; try discriminate. simpl. intros H.
  apply String.eqb_eq in H. now subst.
Qed.

(** X18: once [problem.json] is loaded, the run warns that output only
    problems could not have a grader exactly when [type] is [OutputOnly] and
    [has_grader] is [true]; that communication problems must have a manager
    exactly when [type] is [Communication] and [has_manager] is [false]; and
    that output only problems could not have a manager exactly when [type]
    is [OutputOnly] and [has_manager] is [true]. *)
Theorem flag_warnings_iff py_str w st problem st' :
  verify_problem py_str w st = (Ret problem, st') ->
  problem <> VNone ->
  exists ws,
    warned st st' ws /\
    (In grader_warning ws <->
     item problem "type" = VStr "OutputOnly" /\
     item problem "has_grader" = VBool true) /\
    (In manager_missing_warning ws <->
     item problem "type" = VStr "Communication" /\
     item problem "has_manager" = VBool false) /\
    (In manager_warning ws <->
     item problem "type" = VStr "OutputOnly" /\
     item problem "has_manager" = VBool true).
Proof.
  intros H Hnone.
  destruct (verify_problem_warnings _ _ _ _ _ H Hnone) as (ws & W & F).
  eexists. split; [exact W|].
  rewrite Forall_forall in F. unfold flag_warning in F.
  rewrite !in_app_iff, !in_flag_warnings, !andb_true_iff,
    !is_True_eq, !is_False_eq, !eq_str_eq.
  split; [|split]; split.
  - intros [Hin|[[_ Hc]|[[Hx _]|[Hx _]]]]; try discriminate Hx;
      [apply F in Hin; exfalso; apply Hin; auto | exact Hc].
  - intros Hc. right. left. now split.
  - intros [Hin|[[Hx _]|[[_ Hc]|[Hx _]]]]; try discriminate Hx;
      [apply F in Hin; exfalso; apply Hin; auto | exact Hc].
  - intros Hc. right. right. left. now split.
  - intros [Hin|[[Hx _]|[[Hx _]|[_ Hc]]]]; try discriminate Hx;
      [apply F in Hin; exfalso; apply Hin; auto | exact Hc].
  - intros Hc. right. right. right. now split.
Qed.

Lemma flag_warnings_iff_witness :
  let w := world_with_problem output_only_with_grader in
  let st := init "problem.json" in
  let problem := output_only_with_grader in
  exists ws,
    warned st (snd (verify_problem no_str w st)) ws /\
    (In grader_warning ws <->
     item problem "type" = VStr "OutputOnly" /\
     item problem "has_grader" = VBool true) /\
    (In manager_missing_warning ws <->
     item problem "type" = VStr "Communication" /\
     item problem "has_manager" = VBool false) /\
    (In manager_warning ws <->
     item problem "type" = VStr "OutputOnly" /\
     item problem "has_manager" = VBool true).
Proof.
  intros w st problem.
  apply (flag_warnings_iff no_str w st problem).
  - reflexivity.
  - discriminate.
Defined.

(** ** Unused validator files *)

Lemma warns_silent {A} (m : M A) st r st' :
  warns (fun _ => False) m -> m st = (r, st') -> warned st st' [].
Proof.
  intros Hm H. destruct (Hm _ _ _ H) as [ws [W F]].
  destruct ws as [|d ws]; [exact W|]. inversion F; contradiction.
Qed.

Lemma warned_nil_trans st1 st2 st3 ws :
  warned st1 st2 [] -> warned st2 st3 ws -> warned st1 st3 ws.
Proof. intros W1 W2. exact (warned_trans _ _ _ _ _ W1 W2). Qed.

Lemma for_each_warning_run (f : string -> string) l st st' :
  for_each l (fun x => warning (f x)) st = (Ret tt, st') ->
  warned st st' (map f l).
Proof.
  revert st. induction l as [|x l IH]; intros st H; simpl in H.
  - apply ret_inv in H. destruct H as [_ ->]. apply warned_refl.
  - inv_bind H. injection Hrun as _ <-. apply IH in H.
    change (map f (x :: l)) with ([f x] ++ map f l)%list.
    eapply warned_trans; [|exact H]. split; reflexivity.
Qed.

Lemma warns_check_placeholder v : warns (fun _ => False) (check_placeholder v).
Proof.
  unfold check_placeholder. destruct v; try apply warns_raise.
  destruct (format_subtask s subtask_placeholder_substitute) as [t|e].
  - destruct (negb _); [apply warns_error | apply warns_ret].
  - destruct e; try apply warns_raise.
    destruct arg; [apply warns_error | apply warns_raise].
Qed.

Lemma check_validator_key_ret parent key name parName files used st used' st' :
  check_validator_key parent key name parName files used st
    = (Ret used', st') ->
  warned st st' [] /\
  (forall f, In f used' <->
     In f used \/
     exists v, In v (validators_of parent key) /\ uses_file files v f).
Proof.
  unfold check_validator_key, validators_of, item. intros H.
  inv_bind H. inv_lift Hrun. destruct a; cbn [negb] in H.
  - inv_bind H. inv_lift Hrun. rewrite E0.
    destruct a;
      try (inv_bind H; rewrite error_run in Hrun;
           inversion Hrun; subst; clear Hrun;
           apply ret_inv in H; destruct H as [-> ->];
           split; [apply warned_add_errors|];
           intros x; split; [auto | intros [Hf|[v [[] _]]]; exact Hf]).
    destruct (check_validators_run l name parName files 0%Z used st)
      as (u & ds & Er & _ & Hu).
    rewrite Er in H. inversion H; subst; clear H.
    split; [apply warned_add_errors | exact Hu].
  - apply ret_inv in H. destruct H as [-> ->].
    split; [apply warned_refl|].
    assert (En : match getitem parent key with
                 | Ret (VList l) => l
                 | _ => []
                 end = []).
    { destruct parent; try reflexivity. simpl in E. injection E as E.
      unfold getitem. unfold dict_mem in E.
      destruct (dict_get key d); [discriminate | reflexivity]. }
    intros f. split; [auto|]. intros [Hf|[v [Hin _]]]; [exact Hf|].
    destruct (getitem parent key) as [[]|]; try destruct Hin.
    rewrite En in Hin. destruct Hin.
Qed.

Lemma verify_subtask_used files acc name data st acc' st' :
  verify_subtask files acc name data st = (Ret acc', st') ->
  warned st st' [] /\
  (forall f, In f (used_validators acc') <->
     In f (used_validators acc) \/
     (counted data = true /\
      exists v, In v (validators_of data "validators") /\
                uses_file files v f)).
Proof.
  unfold verify_subtask. intros H.
  destruct data as [| | | | | |d];
    try (cbn [is_dict negb] in H; inv_bind H; apply ret_inv in H;
         destruct H as [-> ->]; rewrite error_run in Hrun;
         inversion Hrun; subst; clear Hrun;
         split; [apply warned_add_errors|];
         intros x; split; [auto | intros [Hf|[Hc _]]; [exact Hf|discriminate]]).
  cbn [is_dict negb] in H.
  inv_bind H. rewrite entry_keys_run in Hrun. injection Hrun as <- <-.
  cbn [counted].
  destruct (dict_mem "index" d && dict_mem "score" d); cbn [negb] in H.
  - inv_bind H. inv_lift Hrun.
    inv_bind H. inv_lift Hrun.
    inv_bind H. inv_lift Hrun.
    inv_bind H.
    destruct (add_score_run name a1 (score_sum acc)
                (add_errors st (missing_key_errors d (Some name)
                                  ["index"; "score"])))
      as (ds & Es & _).
    rewrite Es in Hrun. inversion Hrun; subst; clear Hrun.
    inv_bind H. apply check_validator_key_ret in Hrun.
    destruct Hrun as [W Hu].
    apply ret_inv in H. destruct H as [-> ->]. cbn [used_validators].
    split.
    + eapply warned_nil_trans; [apply warned_add_errors|].
      eapply warned_nil_trans; [apply warned_add_errors | exact W].
    + intros f. rewrite Hu. intuition.
  - apply ret_inv in H. destruct H as [-> ->].
    split; [apply warned_add_errors|].
    intros f. split; [auto | intros [Hf|[Hc _]]; [exact Hf|discriminate]].
Qed.

Lemma verify_subtask_items_used files entries : forall acc st acc' st',
  verify_subtask_items files entries acc st = (Ret acc', st') ->
  warned st st' [] /\
  (forall f, In f (used_validators acc') <->
     In f (used_validators acc) \/
     exists l v,
       In l (map (fun e => validators_of (snd e) "validators")
               (filter (fun e => counted (snd e)) entries)) /\
       In v l /\ uses_file files v f).
Proof.
  induction entries as [|[name data] rest IH]; intros acc st acc' st' H;
    simpl in H.
  - apply ret_inv in H. destruct H as [-> ->].
    split; [apply warned_refl|].
    intros f. split; [auto | intros [Hf|(l & v & [] & _)]; exact Hf].
  - inv_bind H. apply verify_subtask_used in Hrun. destruct Hrun as [W1 H1].
    apply IH in H. destruct H as [W2 H2].
    split; [exact (warned_nil_trans _ _ _ _ W1 W2)|].
    intros f. rewrite H2, H1. cbn [filter snd].
    destruct (counted data); cbn [map In]; split.
    + intros [[Hf|[_ (v & Hin & Hv)]]|(l & v & Hl & Hin & Hv)]; auto.
      * right. exists (validators_of data "validators"), v. auto.
      * right. exists l, v. auto.
    + intros [Hf|(l & v & [<-|Hl] & Hin & Hv)]; auto.
      * left. right. split; [reflexivity|]. now exists v.
      * right. now exists l, v.
    + intros [[Hf|[Hc _]]|Hr]; auto. discriminate.
    + intros [Hf|Hr]; auto.
Qed.

Lemma uses_file_names files v f :
  uses_file files v f <-> names_file v f /\ mem_str f files = true.
Proof.
  unfold uses_file, names_file. split.
  - intros (line & E & Ef & Hd & Hm). split; [|exact Hm]. now exists line.
  - intros [(line & E & Ef & Hd) Hm]. now exists line.
Qed.

(** X19: when [verify_subtasks] returns the subtasks, its warnings are one
    "Unused validator file" warning for each file of [validator/] (ignored
    files, [testlib.h] and [Makefile] left out) that no validator command
    names, each file once.  The commands are those of the global and the
    subtask-sensitive validators and of the subtasks that have both [index]
    and [score]; a command without a dot names no file. *)
Theorem unused_validators_warned w problem st subtasks st' :
  verify_subtasks w problem st = (Ret subtasks, st') ->
  subtasks <> VNone ->
  exists subtasks_data st0 listing unused,
    load_data (subtasks_json w) ["subtasks"] st = (Ret subtasks_data, st0) /\
    get_list_of_files (validator_dir w) = Ret listing /\
    warned st st' (map unused_warning unused) /\
    NoDup unused /\
    (forall f, In f unused <->
       In f listing /\ f <> "testlib.h" /\ f <> "Makefile" /\
       ~ used_in subtasks_data f).
Proof.
  intros H Hnone. unfold verify_subtasks in H.
  inv_bind H. rename Hrun into Hload, a into subtasks_data.
  pose proof (warns_silent _ _ _ _ (warns_load_data _ _ _) Hload) as W0.
  destruct (is_None subtasks_data).
  { apply ret_inv in H. destruct H as [-> _]. congruence. }
  inv_bind H. inv_lift Hrun. clear E.
  inv_bind H.
  assert (Es : st1 = st0).
  { destruct a; [apply ret_inv in Hrun | apply lift_Ret_inv in Hrun];
      now destruct Hrun. }
  subst st1. clear Hrun.
  destruct (negb a && negb a0).
  { inv_bind H. apply ret_inv in H. destruct H as [-> _]. congruence. }
  inv_bind H. inv_lift Hrun. rename E into Efiles, a1 into listing.
  set (files := set_diff (set_of_list listing) ["testlib.h"; "Makefile"]) in *.
  inv_bind H. apply check_validator_key_ret in Hrun.
  destruct Hrun as [W1 U1].
  inv_bind H. apply check_validator_key_ret in Hrun.
  destruct Hrun as [W2 U2].
  inv_bind H. inv_lift Hrun. clear E.
  inv_bind H. inv_lift Hrun. clear E.
  inv_bind H.
  assert (W3 : warned st2 st3 []).
  { eapply warns_silent; [|exact Hrun].
    apply warns_for_each. intros; apply warns_check_placeholder. }
  clear Hrun.
  inv_bind H. inv_lift Hrun. rename E into Esub.
  match type of Esub with _ = Ret ?s => rename s into subs end.
  inv_bind H.
  assert (W4 : warned st3 st4 []).
  { eapply warns_silent; [|exact Hrun].
    apply warns_try; [|intros; apply warns_ret].
    apply warns_bind; [apply warns_lift|]. intros type.
    destruct (negb _); [|apply warns_ret].
    apply warns_bind; [|intros; apply warns_ret].
    unfold check_keys. apply warns_bind; [apply warns_check_keys_loop|].
    intros [|]; [apply warns_raise | apply warns_ret]. }
  clear Hrun.
  inv_bind H. inv_lift Hrun. rename E into Eitems.
  match type of Eitems with _ = Ret ?e => rename e into entries end.
  inv_bind H.
  match type of Hrun with _ = (Ret ?acc, _) => rename acc into final end.
  apply verify_subtask_items_used in Hrun.
  destruct Hrun as [W5 U5]. cbn [used_validators] in U5.
  inv_bind H.
  match type of Hrun with _ = (Ret ?u, _) => destruct u end.
  apply (for_each_warning_run unused_warning) in Hrun. rename Hrun into W6.
  inv_bind H. rewrite sum_check_run in Hrun.
  inversion Hrun; subst; clear Hrun.
  inv_bind H. rewrite check_indexes_run in Hrun.
  inversion Hrun; subst; clear Hrun.
  apply ret_inv in H. destruct H as [-> ->].
  exists subtasks_data, st0, listing,
    (set_diff files (used_validators final)).
  split; [exact Hload|]. split; [exact Efiles|]. split.
  { eapply warned_nil_trans; [exact W0|].
    eapply warned_nil_trans; [exact W1|].
    eapply warned_nil_trans; [exact W2|].
    eapply warned_nil_trans; [exact W3|].
    eapply warned_nil_trans; [exact W4|].
    eapply warned_nil_trans; [exact W5|].
    eapply warned_eq.
    - eapply warned_trans; [exact W6|].
      eapply warned_trans; apply warned_add_errors.
    - now rewrite app_nil_r. }
  split.
  { unfold set_diff, files, set_diff.
    apply NoDup_filter, NoDup_filter, NoDup_set_of_list. }
  assert (Hfiles : forall f, In f files <->
            In f listing /\ f <> "testlib.h" /\ f <> "Makefile").
  { intros f. unfold files, set_diff.
    rewrite filter_In, in_set_of_list, negb_true_iff.
    split; intros [Hin Hm]; (split; [exact Hin|]).
    - split; intros ->; discriminate Hm.
    - destruct Hm as [H1 H2]. unfold mem_str. cbn [existsb].
      destruct (String.eqb_spec f "testlib.h"); [contradiction|].
      destruct (String.eqb_spec f "Makefile"); [contradiction|].
      reflexivity. }
  assert (Hent : subtask_entries (item subtasks_data "subtasks") = entries).
  { unfold item. rewrite Esub. destruct subs; try discriminate Eitems.
    simpl in Eitems. now injection Eitems as <-. }
  assert (Hused : forall f, In f files ->
            (In f (used_validators final) <-> used_in subtasks_data f)).
  { intros f Hf. apply mem_str_In in Hf.
    rewrite U5, U2, U1. unfold used_in, validator_lists. rewrite Hent.
    split.
    - intros [[[[]|(v & Hin & Hv)]|(v & Hin & Hv)]|(l & v & Hl & Hin & Hv)];
        apply uses_file_names in Hv; destruct Hv as [Hv _].
      + exists (validators_of subtasks_data k_glob), v.
        split; [now left | now split].
      + exists (validators_of subtasks_data k_sub), v.
        split; [right; now left | now split].
      + exists l, v. split; [right; now right | now split].
    - intros (l & v & Hl & Hin & Hv).
      assert (Hu : uses_file files v f) by (apply uses_file_names; now split).
      destruct Hl as [<-|[<-|Hl]].
      + left. left. right. now exists v.
      + left. right. now exists v.
      + right. now exists l, v. }
  intros f. unfold set_diff at 1. rewrite filter_In, negb_true_iff. split.
  - intros [Hin Hm]. pose proof Hin as Hin'. apply Hfiles in Hin'.
    destruct Hin' as (H1 & H2 & H3). repeat (split; [assumption|]).
    intros Hu. apply (Hused f Hin) in Hu. apply mem_str_In in Hu. congruence.
  - intros (H1 & H2 & H3 & Hu).
    assert (Hin : In f files) by (apply Hfiles; auto).
    split; [exact Hin|].
    destruct (mem_str f (used_validators final)) eqn:Em; [|reflexivity].
    exfalso. apply Hu. apply (Hused f Hin). now apply mem_str_In.
Qed.

Lemma unused_validators_warned_witness :
  let w := world_with_validators in
  let st := init "subtasks.json" in
  exists subtasks_data st0 listing unused,
    load_data (subtasks_json w) ["subtasks"] st = (Ret subtasks_data, st0) /\
    get_list_of_files (validator_dir w) = Ret listing /\
    warned st (snd (verify_subtasks w batch_problem st))
      (map unused_warning unused) /\
    NoDup unused /\
    (forall f, In f unused <->
       In f listing /\ f <> "testlib.h" /\ f <> "Makefile" /\
       ~ used_in subtasks_data f).
Proof.
  intros w st.
  apply (unused_validators_warned w batch_problem st
           (VDict [("samples", VDict [("index", VInt 0); ("score", VInt 0)]);
                   ("first", VDict [("index", VInt 1); ("score", VInt 100);
                                    ("validators",
                                     VList [VStr "small.cpp"])])])).
  - reflexivity.
  - discriminate.
Defined.

(** ** [get_model_solution] *)

(** X20: on a mapping, as [solutions.json] is loaded, [get_model_solution]
    goes through the keys and not through the entries, so it returns [None]
    whatever the verdicts are; on a list whose first element is an entry
    with verdict [model_solution] it returns position 0. *)
Theorem get_model_solution_misses_mapping (d : list (string * value)) :
  get_model_solution (VDict d) = Ret None /\
  forall rest,
    get_model_solution
      (VList (VDict [("verdict", VStr model_solution_verdict)] :: rest))
    = Ret (Some 0%Z).
Proof.
  split; [|reflexivity].
  unfold get_model_solution. cbn [iter_values]. f_equal.
  generalize 0%Z. induction d as [|[key data] d IH]; intros solution.
  - reflexivity.
  - cbn [map get_model_solution_from]. apply IH.
Qed.

(** ** The memory limit *)




(** ** The model solution when the stage stops early *)

(** C5, as stated, fails: no entry of [solutions.json] has the verdict
    [model_solution], and "there is no model solution" is not recorded,
    because the stage raises before it reaches that test.  An entry that is
    not a mapping makes [check_keys] raise [TypeError]; a [solution/]
    directory that cannot be listed raises [OSError]. *)
Lemma no_model_error_lost_when_stage_raises :
  (let w := world_with_solutions solutions_with_number ["a.cpp"] in
   let st := init "solutions.json" in
   load_data (solutions_json w) [] st = (Ret solutions_with_number, st) /\
   model_entries ["a.cpp"] solutions_with_number = [] /\
   verify_solutions no_str w (VDict [("first", VDict [])]) st
     = (Raise TypeError, st)) /\
  (let w := world_without_solution_dir in
   let st := init "solutions.json" in
   load_data (solutions_json w) [] st = (Ret (VDict []), st) /\
   verify_solutions no_str w (VDict [("first", VDict [])]) st
     = (Raise OSError, st)).
Proof. repeat split. Qed.

(** ** Entries with an invalid verdict *)










